(** * Bounded-concurrency annotation pipeline and dataset preparation scripts

    A shallow embedding of [reasoning.py] (the two-stage classify / rewrite
    pipeline) and of the two [update_livebench_questions.py] scripts, with the
    properties of the specification stated and settled against it. *)

From Stdlib Require Import Ascii String ZArith.
From stdpp Require Import gmap strings list.

Open Scope string_scope.
Open Scope list_scope.

(** ** Python strings

    A Python [str] is modelled by [string]: a sequence of code points, here
    restricted to the first 256 of them. *)

(** [c.isspace()] on the code points below 256: TAB..CR, FS..US, SPACE,
    NEL (0x85) and NBSP (0xA0). *)
Definition isspace (c : ascii) : bool :=
  let n := nat_of_ascii c in
  ((9 <=? n)%nat && (n <=? 13)%nat) || ((28 <=? n)%nat && (n <=? 32)%nat)
  || (n =? 133)%nat || (n =? 160)%nat.

(** [s.lstrip()] *)
Fixpoint lstrip (s : string) : string :=
  match s with
  | EmptyString => EmptyString
  | String c s' => if isspace c then lstrip s' else s
  end.

(** [s.rstrip()] *)
Fixpoint rstrip (s : string) : string :=
  match s with
  | EmptyString => EmptyString
  | String c s' =>
      match rstrip s' with
      | EmptyString => if isspace c then EmptyString else String c EmptyString
      | r => String c r
      end
  end.

(** [s.strip()] *)
Definition strip (s : string) : string := rstrip (lstrip s).

(** [s.startswith(p)] *)
Fixpoint startswith (p s : string) : bool :=
  match p with
  | EmptyString => true
  | String a p' =>
      match s with
      | EmptyString => false
      | String b s' => if ascii_dec a b then startswith p' s' else false
      end
  end.

(** [s.replace("", new)]: [new] before every character and at the end. *)
Fixpoint replace_empty (new s : string) : string :=
  match s with
  | EmptyString => new
  | String c s' => new +:+ String c (replace_empty new s')
  end.

(** The left-to-right scan of [s.replace(old, new)] for a non-empty [old]:
    [skip] counts the characters of a match that are still to be consumed. *)
Fixpoint replace_scan (old new : string) (skip : nat) (s : string) : string :=
  match s with
  | EmptyString => EmptyString
  | String c s' =>
      match skip with
      | S k => replace_scan old new k s'
      | O =>
          if startswith old s
          then new +:+ replace_scan old new (String.length old - 1) s'
          else String c (replace_scan old new 0 s')
      end
  end.

(** [s.replace(old, new)]: every non-overlapping occurrence, leftmost first. *)
Definition replace (old new s : string) : string :=
  match old with
  | EmptyString => replace_empty new s
  | _ => replace_scan old new 0 s
  end.

(** [old in s] *)
Fixpoint contains (old s : string) : bool :=
  startswith old s ||
  match s with
  | EmptyString => false
  | String _ s' => contains old s'
  end.

(** ** Reading a string by its leading stars *)
Module StringSpec.

(** [s.replace("**", "")], the scan. *)
Abbreviation unstar := (replace_scan "**" "" 0).

(** A string is empty, starts with another character than a star, is a
    lone star, is a star followed by another character, or starts with two
    stars. *)
Inductive star_view : string -> Type :=
  | view_empty : star_view ""
  | view_other c s : c <> "*"%char -> star_view (String c s)
  | view_lone : star_view "*"
  | view_single c s : c <> "*"%char -> star_view (String "*" (String c s))
  | view_pair s : star_view ("**" +:+ s).

Definition star_split (s : string) : star_view s.
Proof.
  destruct s as [|c s]; [exact view_empty|].
  destruct (ascii_dec c "*") as [->|Hc]; [|exact (view_other c s Hc)].
  destruct s as [|d s]; [exact view_lone|].
  destruct (ascii_dec d "*") as [->|Hd];
    [exact (view_pair s)|exact (view_single d s Hd)].
Defined.
End StringSpec.

(** ** Exceptions

    Fallible Python code returns an [outcome]: the value, or the exception
    that was raised. *)
Inductive exn : Type :=
  | KeyError (key : string)
  | ValueError (msg : string)
  | AttributeError (msg : string)
  | NameError (name : string)
  | AssertionError
  | SchemaViolation (detail : string)
  | TransportError (detail : string).

Inductive outcome (A : Type) : Type :=
  | Returned (a : A)
  | Raised (e : exn).
Arguments Returned {A} a.
Arguments Raised {A} e.

#[global] Instance exn_eq_dec : EqDecision exn.
Proof. solve_decision. Defined.

#[global] Instance outcome_ret : MRet outcome := fun _ a => Returned a.
#[global] Instance outcome_bind : MBind outcome := fun _ _ f m =>
  match m with
  | Returned a => f a
  | Raised e => Raised e
  end.
#[global] Instance outcome_fmap : FMap outcome := fun _ _ f m =>
  match m with
  | Returned a => Returned (f a)
  | Raised e => Raised e
  end.

(** [d[k]] on a dict *)
Definition getitem {V : Type} (d : gmap string V) (k : string) : outcome V :=
  match d !! k with
  | Some v => Returned v
  | None => Raised (KeyError k)
  end.

(** The newline of the f-strings. *)
Definition nl : string := String (ascii_of_nat 10) EmptyString.

(** ** reasoning.py *)
Module Reasoning.

(** [class FormatType(Enum)] *)
Inductive FormatType : Type := T1 | T2 | T3 | T4 | T5 | OTHER.

#[global] Instance FormatType_eq_dec : EqDecision FormatType.
Proof. solve_decision. Defined.

(** [t.name] *)
Definition name (t : FormatType) : string :=
  match t with
  | T1 => "T1" | T2 => "T2" | T3 => "T3" | T4 => "T4" | T5 => "T5"
  | OTHER => "OTHER"
  end.

(** [t.value] *)
Definition value (t : FormatType) : string :=
  match t with
  | T1 => "Bold formatting for a single phrase. Example: Think step by step, and then put your answer in **bold** as a single phrase (for example, **sphere**)."
  | T2 => "Bold formatting for a list of three words. Example: Think step by step, and then put your answer in **bold** as a list of three words, yes or no (for example, **yes, no, yes**)."
  | T3 => "Bold formatting for a single integer. Example: Think step by step, and then put your answer in **bold** as a single integer (for example, **0**)."
  | T4 => "Return a single digit number. Example: Return a single digit number, in the following format: **N**, where N is the position."
  | T5 => "Return your answer as a single word. Example: Return your answer as a single word, in the following format: **X**, where X is the answer."
  | OTHER => "Other formatting requirements. Example: Other formatting requirements (if none of the above apply)"
  end.

(** [[t for t in FormatType]]: the members, in definition order. *)
Definition FormatType_members : list FormatType := [T1; T2; T3; T4; T5; OTHER].

(** The dict literal [format_mapping], keyed by member name. *)
Definition format_mapping : gmap string string :=
  list_to_map
    [ (name T1, "Put your answer as a single phrase (for example, sphere).");
      (name T2, "Put your answer as a list of three words, yes or no (for example, yes, no, yes).");
      (name T3, "Put your answer as a single integer (for example, 0).");
      (name T4, "Return a single digit number, in the following format: N, where N is the position.");
      (name T5, "Return your answer as a single word, in the following format: X, where X is the answer.") ].

(** The two pydantic response models. *)
Record FormatClassification : Type := { classification : FormatType }.
Record UpdatedQuestion : Type := { updated_question : string }.

Inductive response_model : Type -> Type :=
  | FormatClassification_model : response_model FormatClassification
  | UpdatedQuestion_model : response_model UpdatedQuestion.

Definition system_prompt_classification_reasoning : string :=
  "You're a helpful assistant. I will provide you with a question and you will classify the formatting requirements of the output of the provided question into the most appropriate category.".

Definition system_prompt_replace_reasoning_format : string :=
  "You're a helpful assistant. I will provide you with a question and the old formatting requirements. Your task is to replace the old formatting requirements with the new ones."
  +:+ "Please return the full text of the question with the new formatting requirements. Don't include any other text. Don't include 'Question:' or 'Old formatting:' or 'New formatting:'".

(** One chat message, and the keyword arguments of
    [instructor_client.chat.completions.create]. *)
Record message : Type := { role : string; content : string }.
Record request : Type := { model : string; messages : list message }.

#[global] Instance message_eq_dec : EqDecision message.
Proof. solve_decision. Defined.
#[global] Instance request_eq_dec : EqDecision request.
Proof. solve_decision. Defined.

(** The rows [df.iterrows()] yields: the classify stage reads [turns_str],
    the rewrite stage [turns_str] and [classification]. *)
Record question_row : Type := { q_turns_str : string }.
Record classified_row : Type :=
  { turns_str : string; row_classification : FormatType }.

(** *** Semaphore-gated coroutines under [asyncio.gather]

    A coroutine of [run_model_with_instructor] is [Pending] until it has
    entered [async with semaphore], [InFlight] while it awaits the client's
    reply, and [Finished] once the reply (or the exception) has come back and
    the semaphore is released. *)
Inductive task_state (R : Type) : Type :=
  | Pending
  | InFlight
  | Finished (o : outcome R).
Arguments Pending {R}.
Arguments InFlight {R}.
Arguments Finished {R} o.

(** What an observer of the client sees, in order. *)
Inductive event (R : Type) : Type :=
  | Issued (i : nat) (req : request)
  | Completed (i : nat) (o : outcome R).
Arguments Issued {R} i req.
Arguments Completed {R} i o.

Record gather_state (R : Type) : Type :=
  { sem_value : Z;                      (* [semaphore._value] *)
    tasks : list (task_state R);        (* one per coroutine, in argument order *)
    first_exception : option exn;       (* set when [gather]'s future fails *)
    trace : list (event R) }.
Arguments sem_value {R} g.
Arguments tasks {R} g.
Arguments first_exception {R} g.
Arguments trace {R} g.

(** [Semaphore(value)] *)
Definition Semaphore (value : Z) : outcome Z :=
  if (value <? 0)%Z
  then Raised (ValueError "Semaphore initial value must be >= 0")
  else Returned value.

Section Gather.
Context {R : Type}.
(** The client call of this batch: the reply for each request. *)
Variable create : request -> outcome R.
(** The coroutines handed to [gather], as the requests they will send. *)
Variable coros : list request.

Definition gather_init (sem : Z) : gather_state R :=
  {| sem_value := sem;
     tasks := replicate (length coros) Pending;
     first_exception := None;
     trace := [] |}.

(** The event loop runs coroutine [i] as far as it can go: a pending one
    takes a slot of the semaphore and sends its request, or stays suspended
    when no slot is free; one in flight receives its reply, releases its
    slot, and its exception, if it is the first, fails [gather]. *)
Definition step_task (i : nat) (st : gather_state R) : gather_state R :=
  match tasks st !! i, coros !! i with
  | Some Pending, Some req =>
      if (0 <? sem_value st)%Z
      then {| sem_value := sem_value st - 1;
              tasks := <[i := InFlight]> (tasks st);
              first_exception := first_exception st;
              trace := trace st ++ [Issued i req] |}
      else st
  | Some InFlight, Some req =>
      let o := create req in
      {| sem_value := sem_value st + 1;
         tasks := <[i := Finished o]> (tasks st);
         first_exception :=
           match first_exception st, o with
           | None, Raised e => Some e
           | fe, _ => fe
           end;
         trace := trace st ++ [Completed i o] |}
  | _, _ => st
  end.

(** A schedule names the coroutine the event loop resumes next: the order
    in which coroutines enter the semaphore and replies arrive is the
    network's and the loop's, so a run is taken under any schedule. *)
Definition run (sched : list nat) (st : gather_state R) : gather_state R :=
  foldl (fun s i => step_task i s) st sched.

Definition finished_value (t : task_state R) : option R :=
  match t with
  | Finished (Returned r) => Some r
  | _ => None
  end.

(** [await asyncio.gather] over the tasks: fails with the first exception, returns
    the results in argument order once every task has returned, and is
    still waiting ([None]) otherwise. *)
Definition gather_result (st : gather_state R) : option (outcome (list R)) :=
  match first_exception st with
  | Some e => Some (Raised e)
  | None => Returned <$> mapM finished_value (tasks st)
  end.

(** Calls awaiting their reply after a prefix of the trace. *)
Fixpoint in_flight (t : list (event R)) : Z :=
  match t with
  | [] => 0
  | Issued _ _ :: t' => in_flight t' + 1
  | Completed _ _ :: t' => in_flight t' - 1
  end.

(** Coroutines awaiting their reply in a state. *)
Fixpoint count_in_flight (ts : list (task_state R)) : Z :=
  match ts with
  | [] => 0
  | InFlight :: ts' => count_in_flight ts' + 1
  | _ :: ts' => count_in_flight ts'
  end.
End Gather.

(** Every coroutine in turn takes a slot, sends and receives. *)
Definition fifo_schedule (n : nat) : list nat :=
  flat_map (fun i => [i; i]) (seq 0 n).

(** What a stage has done when the schedule ends: [gather]'s result mapped to
    the returned list ([None] while still awaiting), and the client trace. *)
Definition stage_run (R A : Type) : Type :=
  (option (outcome (list A)) * list (event R))%type.

(** The request [run_model_with_instructor] sends. *)
Definition run_model_with_instructor_request
    (system_message user_message : string) : request :=
  {| model := "gpt-4o";
     messages := [ {| role := "system"; content := system_message |};
                   {| role := "user"; content := user_message |} ] |}.

(** The classify stage's f-string and the coroutine built from it. *)
Definition classify_user_message (row : question_row) : string :=
  "Question:" +:+ nl +:+ q_turns_str row.

Definition classify_request (row : question_row) : request :=
  run_model_with_instructor_request
    system_prompt_classification_reasoning (classify_user_message row).

(** The rewrite stage's f-string: it indexes [format_mapping] by the name of
    the row's label, and the coroutine is built only when that succeeds. *)
Definition replace_user_message (row : classified_row) : outcome string :=
  new_formatting ← getitem format_mapping (name (row_classification row));
  mret ("Question:" +:+ nl +:+ turns_str row +:+ nl
        +:+ "Old formatting:" +:+ nl +:+ value (row_classification row) +:+ nl
        +:+ "New formatting:" +:+ new_formatting +:+ nl).

Definition replace_request (row : classified_row) : outcome request :=
  user_message ← replace_user_message row;
  mret (run_model_with_instructor_request
          system_prompt_replace_reasoning_format user_message).

(** [concurrency: int = 30] *)
Definition default_concurrency : Z := 30.

Section Stages.
(** The structured-output client: a reply conforming to the response model,
    or an exception. *)
Variable create : forall R : Type, response_model R -> request -> outcome R.

Definition classify_reasoning_questions
    (sched : list nat) (df : list question_row) (concurrency : Z)
  : stage_run FormatClassification FormatType :=
  match Semaphore concurrency with
  | Raised e => (Some (Raised e), [])
  | Returned semaphore =>
      (* the list comprehension builds every coroutine before any runs *)
      let tasks := classify_request <$> df in
      let st := run (create _ FormatClassification_model) tasks sched
                    (gather_init tasks semaphore) in
      (fmap (M := outcome) (map classification) <$> gather_result st, trace st)
  end.

Definition replace_reasoning_questions_format
    (sched : list nat) (df : list classified_row) (concurrency : Z)
  : stage_run UpdatedQuestion string :=
  match Semaphore concurrency with
  | Raised e => (Some (Raised e), [])
  | Returned semaphore =>
      (* the list comprehension builds every coroutine before any runs *)
      match mapM replace_request df with
      | Raised e => (Some (Raised e), [])
      | Returned tasks =>
          let st := run (create _ UpdatedQuestion_model) tasks sched
                        (gather_init tasks semaphore) in
          (fmap (M := outcome) (map updated_question) <$> gather_result st,
           trace st)
      end
  end.
End Stages.

End Reasoning.

(** ** What is observed of a run of the gather machine *)
Module GatherSpec.
Import Reasoning.

(** [permute p l]: the elements of [l] in the order the indices [p] name. *)
Fixpoint permute {A : Type} (p : list nat) (l : list A) : list A :=
  match p with
  | [] => []
  | i :: p' =>
      match l !! i with
      | Some x => x :: permute p' l
      | None => permute p' l
      end
  end.

Section Observations.
Context {R : Type}.
Variable create : request -> outcome R.
Variable coros : list request.

(** The first exception a completed call has raised along a trace. *)
Fixpoint first_raised (t : list (event R)) : option exn :=
  match t with
  | [] => None
  | Completed _ (Raised e) :: _ => Some e
  | _ :: t' => first_raised t'
  end.

(** Every prefix of the trace has between 0 and [K] calls in flight. *)
Definition bounded (K : Z) (t : list (event R)) : Prop :=
  forall t', t' `prefix_of` t -> (0 <= in_flight t' <= K)%Z.

(** Every event of the trace is a call of its coroutine's request. *)
Definition genuine (t : list (event R)) : Prop :=
  forall ev, ev ∈ t ->
    match ev with
    | Issued i req => coros !! i = Some req
    | Completed i o => exists req, coros !! i = Some req /\ o = create req
    end.

Record gather_inv (K : Z) (st : gather_state R) : Prop :=
  { inv_length : length (tasks st) = length coros;
    inv_sem : (sem_value st + count_in_flight (tasks st))%Z = K;
    inv_nonneg : (0 <= sem_value st)%Z;
    inv_flight : in_flight (trace st) = count_in_flight (tasks st);
    inv_bounded : bounded K (trace st);
    inv_genuine : genuine (trace st);
    inv_finished : forall i o, tasks st !! i = Some (Finished o) ->
                               Completed i o ∈ trace st;
    inv_completed : forall i o, Completed i o ∈ trace st ->
                                tasks st !! i = Some (Finished o);
    inv_first : first_exception st = first_raised (trace st) }.


(** The state the fifo schedule reaches after its first [i] coroutines. *)
Definition fifo_tasks (i : nat) : list (task_state R) :=
  ((fun req => Finished (create req)) <$> take i coros)
  ++ replicate (length coros - i) Pending.
End Observations.

(** One batch on a semaphore with [K] slots: the coroutines, [gather], and
    the projection of the replies. *)
Definition gathered {R A : Type} (call : request -> outcome R) (proj : R -> A)
    (sched : list nat) (coros : list request) (K : Z) : stage_run R A :=
  let st := run call coros sched (gather_init coros K) in
  (fmap (M := outcome) (map proj) <$> gather_result st, trace st).

Section RowResults.
Variable create : forall R : Type, response_model R -> request -> outcome R.

(** The client answers the classification request of [row] with label [t]. *)
Definition classified_as (row : question_row) (t : FormatType) : Prop :=
  exists resp,
    create _ FormatClassification_model (classify_request row) = Returned resp
    /\ classification resp = t.

(** The rewrite request of [row] can be built and the client answers it
    with the text [q]. *)
Definition rewritten_as (row : classified_row) (q : string) : Prop :=
  exists req resp,
    replace_request row = Returned req
    /\ create _ UpdatedQuestion_model req = Returned resp
    /\ updated_question resp = q.
End RowResults.
End GatherSpec.

(** ** A mock client *)
Module Mock.
Import Reasoning.

(** A deterministic stand-in for the structured-output client: it labels a
    question by the wording of its instruction, refuses the reply to a
    question that mentions [garbled], and echoes the user message when asked
    for a rewrite. *)
Definition mock_user_content (req : request) : string :=
  match messages req with
  | [_; m] => content m
  | _ => ""
  end.

Definition mock_create (R : Type) (rm : response_model R) (req : request)
  : outcome R :=
  match rm in response_model R0 return outcome R0 with
  | FormatClassification_model =>
      let q := mock_user_content req in
      if contains "garbled" q then Raised (SchemaViolation "classification")
      else if contains "single phrase" q then Returned {| classification := T1 |}
      else if contains "single digit" q then Returned {| classification := T4 |}
      else Returned {| classification := OTHER |}
  | UpdatedQuestion_model =>
      let q := mock_user_content req in
      if contains "garbled" q then Raised (TransportError "connection reset")
      else Returned {| updated_question := q |}
  end.

Definition row_a : question_row :=
  {| q_turns_str := "Think step by step, and answer in **bold** as a single phrase (for example, **sphere**)." |}.
Definition row_b : question_row :=
  {| q_turns_str := "Return a single digit number, in the following format: **N**." |}.
Definition row_bad : question_row := {| q_turns_str := "garbled" |}.

Definition crow (q : string) (t : FormatType) : classified_row :=
  {| turns_str := q; row_classification := t |}.

(** The two records of the end-to-end scenario as the classify stage labels
    them, and the text the mock client returns for a row of the rewrite
    stage. *)
Definition crow_a : classified_row := crow (q_turns_str row_a) T1.
Definition crow_b : classified_row := crow (q_turns_str row_b) T4.

Definition mock_rewrite (row : classified_row) : string :=
  match replace_request row with
  | Returned req => mock_user_content req
  | Raised _ => ""
  end.
End Mock.

(** ** Data frames and files

    A frame is stored by columns, as pandas stores it: the index labels and,
    for every column in order, its name and its cells. A cell is the value
    pandas holds after parsing; how the text of a file is parsed and printed
    is left to pandas. *)
Inductive cell : Type :=
  | NaN                            (* a missing value *)
  | Str (s : string)
  | Int (z : Z)
  | Arr (items : list string).     (* a JSON array of strings *)

#[global] Instance cell_eq_dec : EqDecision cell.
Proof. solve_decision. Defined.

Record DataFrame : Type :=
  { index : list Z;
    columns : list (string * list cell) }.

(** A JSON object of a line-delimited file: its keys, in order, and values. *)
Abbreviation record := (list (string * cell)).

Inductive file : Type :=
  | Jsonl (records : list record)
  | Csv (header : list string) (lines : list (list cell)).

#[global] Instance file_eq_dec : EqDecision file.
Proof. solve_decision. Defined.

Module Pandas.

(** The value of key [k] in a record; a missing key reads as missing. *)
Fixpoint cell_of (k : string) (r : record) : cell :=
  match r with
  | [] => NaN
  | (k', c) :: r' => if decide (k = k') then c else cell_of k r'
  end.

(** The column of name [k], if there is one. *)
Fixpoint find_column (k : string) (cols : list (string * list cell))
  : option (list cell) :=
  match cols with
  | [] => None
  | (k', s) :: cols' => if decide (k = k') then Some s else find_column k cols'
  end.

(** The keys of all records, each at its first appearance. *)
Fixpoint first_seen (seen ks : list string) : list string :=
  match ks with
  | [] => []
  | k :: ks' =>
      if decide (k ∈ seen) then first_seen seen ks'
      else k :: first_seen (k :: seen) ks'
  end.

Definition keys_of (recs : list record) : list string :=
  first_seen [] (concat (map (map fst) recs)).

(** The frame [pd.read_json(path, lines=True)] builds from parsed records:
    one row per record under a fresh range index, one column per key. *)
Definition frame_of_records (recs : list record) : DataFrame :=
  {| index := Z.of_nat <$> seq 0 (length recs);
     columns := (fun k => (k, cell_of k <$> recs)) <$> keys_of recs |}.

(** [df.k], [x.k]: the column as a series. *)
Definition getattr (df : DataFrame) (k : string) : outcome (list cell) :=
  match find_column k (columns df) with
  | Some s => Returned s
  | None => Raised (AttributeError k)
  end.

(** [df[k] = s] and one keyword of [df.assign(k=s)]: an existing column is
    replaced where it stands, a new one goes last. *)
Fixpoint set_cols (k : string) (s : list cell) (cols : list (string * list cell))
  : list (string * list cell) :=
  match cols with
  | [] => [(k, s)]
  | (k', s') :: cols' =>
      if decide (k = k') then (k, s) :: cols' else (k', s') :: set_cols k s cols'
  end.

Definition set_column (k : string) (s : list cell) (df : DataFrame) : DataFrame :=
  {| index := index df; columns := set_cols k s (columns df) |}.

(** A non-empty column whose cells are all numbers or missing is stored as
    a numeric column, and a numeric column has no [.str] accessor: asking for
    it raises [AttributeError]. pandas settles this when it reads the file,
    and then also takes a column of strings that all spell numbers for a
    numeric column; here a column is read by its cells. The two agree on a
    column that holds an array or a string spelling no number
    ([FrameSpec.read_as_text]): the properties that need [.str] to be there
    assume such a column. *)
Definition is_numeric (c : cell) : bool :=
  match c with
  | NaN | Int _ => true
  | _ => false
  end.

Definition str_accessor (s : list cell) : outcome (list cell) :=
  match s with
  | [] => Returned s
  | _ => if forallb is_numeric s
         then Raised (AttributeError "Can only use .str accessor with string values!")
         else Returned s
  end.

(** [s.str[0]], elementwise: the first item of an array, the first character
    of a string, and missing where there is none. *)
Definition get0 (c : cell) : cell :=
  match c with
  | Arr (x :: _) => Str x
  | Str (String a _) => Str (String a EmptyString)
  | _ => NaN
  end.

(** [s.str.len()], elementwise. *)
Definition len (c : cell) : cell :=
  match c with
  | Arr l => Int (Z.of_nat (length l))
  | Str x => Int (Z.of_nat (String.length x))
  | _ => NaN
  end.

(** A string method, elementwise: applied to strings, missing elsewhere. *)
Definition on_str (f : string -> string) (c : cell) : cell :=
  match c with
  | Str x => Str (f x)
  | _ => NaN
  end.

(** A method of the [.str] accessor: refused on a numeric column, applied
    to every cell otherwise. *)
Definition str_method (f : cell -> cell) (s : list cell) : outcome (list cell) :=
  match str_accessor s with
  | Returned s' => Returned (f <$> s')
  | Raised e => Raised e
  end.

Definition str_get0 : list cell -> outcome (list cell) := str_method get0.
Definition str_len : list cell -> outcome (list cell) := str_method len.
Definition str_strip : list cell -> outcome (list cell) := str_method (on_str strip).
(** [s.str.replace(old, new)], literal. *)
Definition str_replace (old new : string) : list cell -> outcome (list cell) :=
  str_method (on_str (replace old new)).

(** [s.eq(1).all()] *)
Definition eq1_all (s : list cell) : bool :=
  forallb (fun c => bool_decide (c = Int 1)) s.

(** [df.reset_index()]: the old index becomes the first column, named
    [index] (or [level_0] when that name is taken), under a fresh range. *)
Definition reset_index (df : DataFrame) : outcome DataFrame :=
  let names := fst <$> columns df in
  let k := if decide ("index" ∈ names) then "level_0" else "index" in
  if decide (k ∈ names)
  then Raised (ValueError ("cannot insert " +:+ k +:+ ", already exists"))
  else Returned
         {| index := Z.of_nat <$> seq 0 (length (index df));
            columns := (k, Int <$> index df) :: columns df |}.

(** [df.rename(columns={old: new})] *)
Definition rename (old new : string) (df : DataFrame) : DataFrame :=
  {| index := index df;
     columns := (fun c => (if decide (c.1 = old) then new else c.1, c.2))
                  <$> columns df |}.

(** Keeping the rows a boolean mask selects. *)
Fixpoint select {A : Type} (mask : list bool) (l : list A) : list A :=
  match mask, l with
  | true :: mask', x :: l' => x :: select mask' l'
  | false :: mask', _ :: l' => select mask' l'
  | _, _ => []
  end.

(** [df.query("k != 'v'")] *)
Definition query_ne (k v : string) (df : DataFrame) : outcome DataFrame :=
  match find_column k (columns df) with
  | None => Raised (NameError k)
  | Some s =>
      let mask := (fun c => bool_decide (c <> Str v)) <$> s in
      Returned {| index := select mask (index df);
                  columns := (fun c => (c.1, select mask c.2)) <$> columns df |}
  end.

(** The rows of a frame. *)
Definition row_cells (cols : list (string * list cell)) (i : nat) : list cell :=
  (fun c => default NaN (c.2 !! i)) <$> cols.

Definition to_records (df : DataFrame) : list record :=
  (fun i => zip (fst <$> columns df) (row_cells (columns df) i))
    <$> seq 0 (length (index df)).
Definition to_lines (df : DataFrame) : list (list cell) :=
  row_cells (columns df) <$> seq 0 (length (index df)).

(** *** Scripts: a file system threaded through, exceptions on top

    A script maps the file system (path to contents) to its outcome and the
    file system it leaves; an exception keeps what was written before it. *)
Definition io (A : Type) : Type :=
  gmap string file -> outcome A * gmap string file.

#[global] Instance io_ret : MRet io := fun _ a fs => (Returned a, fs).
#[global] Instance io_bind : MBind io := fun _ _ f m fs =>
  match m fs with
  | (Returned a, fs') => f a fs'
  | (Raised e, fs') => (Raised e, fs')
  end.

Definition lift {A : Type} (o : outcome A) : io A := fun fs => (o, fs).

(** [assert b] *)
Definition assert_ (b : bool) : io unit :=
  lift (if b then Returned tt else Raised AssertionError).

(** [pd.read_json(path, lines=True)], as pandas 2 has it, against which the
    scripts were written: a path that is no file is taken for JSON text, and
    text that is not JSON fails to parse. (pandas 3 raises
    [FileNotFoundError] for the missing file; no property below depends on
    which exception it is.) *)
Definition read_json (path : string) : io DataFrame := fun fs =>
  match fs !! path with
  | Some (Jsonl recs) => (Returned (frame_of_records recs), fs)
  | Some (Csv _ _) => (Raised (ValueError "Expected object or value"), fs)
  | None => (Raised (ValueError "Expected object or value"), fs)
  end.

(** [df.to_json(path, lines=True, orient="records")] *)
Definition to_json (df : DataFrame) (path : string) : io unit := fun fs =>
  if decide (NoDup (fst <$> columns df))
  then (Returned tt, <[path := Jsonl (to_records df)]> fs)
  else (Raised (ValueError "DataFrame columns must be unique for orient='records'"),
        fs).

(** [df.to_csv(path, index=False)] *)
Definition to_csv (df : DataFrame) (path : string) : io unit := fun fs =>
  (Returned tt, <[path := Csv (fst <$> columns df) (to_lines df)]> fs).

(** [dir / name] *)
Definition joinpath (dir name : string) : string := dir +:+ "/" +:+ name.

End Pandas.

(** ** The two update_livebench_questions.py scripts *)

(** What both scripts do alike. *)
Module Livebench.
Import Pandas.

Section Paths.
(** [Path(__file__).parent.parent.parent / "data" / "live_bench"] *)
Variable data_dir : string.
Definition reasoning_dir : string := joinpath data_dir "reasoning".
Definition math_dir : string := joinpath data_dir "math".
Definition language_dir : string := joinpath data_dir "language".
End Paths.

(** [.assign(turns_str=lambda x: x.turns.str[0],
             ground_truth=lambda x: x.ground_truth.str.strip())] *)
Definition assign_turns_str_ground_truth (df : DataFrame) : outcome DataFrame :=
  turns ← getattr df "turns";
  turns_str ← str_get0 turns;
  let df := set_column "turns_str" turns_str df in
  ground_truth ← getattr df "ground_truth";
  ground_truth ← str_strip ground_truth;
  mret (set_column "ground_truth" ground_truth df).

(** [df.turns.str.len().eq(1).all()] *)
Definition turns_len_eq_1_all (df : DataFrame) : outcome bool :=
  turns ← getattr df "turns";
  lens ← str_len turns;
  mret (eq1_all lens).
End Livebench.

(** scripts/is-pydantic-making-your-model-dumber/update_livebench_questions.py *)
Module Scripts.
Import Pandas Livebench.

(** The replacement chain of [process_reasoning_questions] on one string. *)
Definition reasoning_updated_question (turns_str : string) : string :=
  strip (replace "**" "" (replace "in **bold**" "" turns_str)).

(** The replacement chain of [process_language_questions] on one string. *)
Definition language_replaced_question (turns_str : string) : string :=
  strip (replace "**" ""
           (replace "in **bold**" ""
              (replace "Begin the plot summary with <PLOT_SUMMARY>" "" turns_str))).

Section Script.
Variable data_dir : string.

Definition process_reasoning_questions : io unit :=
  df ← read_json (joinpath (reasoning_dir data_dir) "question.jsonl");
  df ← lift (assign_turns_str_ground_truth df);
  df ← lift (reset_index df);
  let df_reasoning := rename "index" "data_point_id" df in
  ok ← lift (turns_len_eq_1_all df_reasoning);
  assert_ ok;;
  turns_str ← lift (getattr df_reasoning "turns_str");
  s ← lift (str_replace "in **bold**" "" turns_str);
  s ← lift (str_replace "**" "" s);
  s ← lift (str_strip s);
  let df_reasoning := set_column "updated_question" s df_reasoning in
  to_json df_reasoning (joinpath (reasoning_dir data_dir) "updated_questions.jsonl");;
  to_csv df_reasoning (joinpath (reasoning_dir data_dir) "updated_questions.csv").

Definition process_language_questions : io unit :=
  df ← read_json (joinpath (language_dir data_dir) "question.jsonl");
  df ← lift (assign_turns_str_ground_truth df);
  df ← lift (reset_index df);
  let df_language := rename "index" "data_point_id" df in
  ok ← lift (turns_len_eq_1_all df_language);
  assert_ ok;;
  turns_str ← lift (getattr df_language "turns_str");
  s ← lift (str_replace "Begin the plot summary with <PLOT_SUMMARY>" "" turns_str);
  s ← lift (str_replace "in **bold**" "" s);
  s ← lift (str_replace "**" "" s);
  s ← lift (str_strip s);
  let df_language := set_column "replaced_question" s df_language in
  to_json df_language (joinpath (language_dir data_dir) "updated_questions.jsonl");;
  to_csv df_language (joinpath (language_dir data_dir) "updated_questions.csv").

(** [if __name__ == "__main__":] *)
Definition main : io unit :=
  process_reasoning_questions;;
  process_language_questions.
End Script.
End Scripts.

(** extras/update_livebench_questions.py *)
Module Extras.
Import Pandas Livebench.

(** The replacement chain of [process_reasoning_questions] on one string. *)
Definition reasoning_updated_question (turns_str : string) : string :=
  strip (replace "**" "" (replace "***" "" (replace "in **bold** " "" turns_str))).

(** The replacement chain of [process_language_questions] on one string. *)
Definition language_updated_question (turns_str : string) : string :=
  strip (replace "**" ""
           (replace "***" ""
              (replace "in **bold** " ""
                 (replace " Begin the plot summary with <PLOT_SUMMARY>." ""
                    turns_str)))).

Definition math_old_1 : string :=
  " Please put your final answer in a $\\boxed{}$.".
Definition math_new_1 : string :=
  "Please think step by step out loud and provide your answer at the end.".
Definition math_old_2 : string :=
  "If you cannot determine the correct multiple-choice answer, take your best guess.".
Definition math_new_2 : string :=
  "If you cannot determine the correct answer, take your best guess.".
Definition math_old_3 : string :=
  "Please think step by step, and then display the answer at the very end of your response.".
Definition math_new_3 : string :=
  "Please think step by step out loud and provide your answer at the end.".
Definition math_old_4 : string :=
  "Once you have your answer, please duplicate that letter five times in a single string. For example, if the answer is F, then write FFFFF.".
Definition math_new_4 : string :=
  "Please think step by step out loud and provide your answer as a single letter (e.g., F or A). Don't include any other text except a single letter in your answer.".
Definition math_old_5 : string :=
  "Your final answer should be STRICTLY in the format:" +:+ nl +:+ nl
  +:+ "<Detailed reasoning>" +:+ nl +:+ nl
  +:+ "Answer: <comma separated list of numbers representing expression identifiers>".
Definition math_new_5 : string :=
  "Please think step by step out loud and provide your answer as a comma separated list of numbers representing expression identifiers (e.g., 1,2,3). Don't include any other text except a comma separated list of numbers in your answer.".
Definition math_old_6 : string :=
  "Remember to have the three digits as the last part of the response.".
Definition math_new_6 : string :=
  "Your answer should not include any other text except the three digits.".

(** The replacement chain of [process_math_questions] on one string. *)
Definition math_updated_question (turns_str : string) : string :=
  strip
    (replace math_old_6 math_new_6
       (replace math_old_5 math_new_5
          (replace math_old_4 math_new_4
             (replace math_old_3 math_new_3
                (replace math_old_2 math_new_2
                   (replace math_old_1 math_new_1 (strip turns_str))))))).

Section Script.
Variable data_dir : string.

Definition process_reasoning_questions : io unit :=
  df ← read_json (joinpath (reasoning_dir data_dir) "question.jsonl");
  df_reasoning ← lift (assign_turns_str_ground_truth df);
  ok ← lift (turns_len_eq_1_all df_reasoning);
  assert_ ok;;
  turns_str ← lift (getattr df_reasoning "turns_str");
  s ← lift (str_replace "in **bold** " "" turns_str);
  s ← lift (str_replace "***" "" s);
  s ← lift (str_replace "**" "" s);
  s ← lift (str_strip s);
  let df_reasoning := set_column "updated_question" s df_reasoning in
  to_json df_reasoning (joinpath (reasoning_dir data_dir) "updated_questions.jsonl");;
  to_csv df_reasoning (joinpath (reasoning_dir data_dir) "updated_questions.csv").

Definition process_language_questions : io unit :=
  df ← read_json (joinpath (language_dir data_dir) "question.jsonl");
  df_language ← lift (assign_turns_str_ground_truth df);
  ok ← lift (turns_len_eq_1_all df_language);
  assert_ ok;;
  turns_str ← lift (getattr df_language "turns_str");
  s ← lift (str_replace " Begin the plot summary with <PLOT_SUMMARY>." "" turns_str);
  s ← lift (str_replace "in **bold** " "" s);
  s ← lift (str_replace "***" "" s);
  s ← lift (str_replace "**" "" s);
  s ← lift (str_strip s);
  let df_language := set_column "updated_question" s df_language in
  to_json df_language (joinpath (language_dir data_dir) "updated_questions.jsonl");;
  to_csv df_language (joinpath (language_dir data_dir) "updated_questions.csv").

Definition process_math_questions : io unit :=
  df ← read_json (joinpath (math_dir data_dir) "question.jsonl");
  df ← lift (query_ne "task" "AMPS_Hard" df);
  df_math ← lift (assign_turns_str_ground_truth df);
  turns_str ← lift (getattr df_math "turns_str");
  s ← lift (str_strip turns_str);
  s ← lift (str_replace math_old_1 math_new_1 s);
  s ← lift (str_replace math_old_2 math_new_2 s);
  s ← lift (str_replace math_old_3 math_new_3 s);
  s ← lift (str_replace math_old_4 math_new_4 s);
  s ← lift (str_replace math_old_5 math_new_5 s);
  s ← lift (str_replace math_old_6 math_new_6 s);
  s ← lift (str_strip s);
  let df_math := set_column "updated_question" s df_math in
  ok ← lift (turns_len_eq_1_all df_math);
  assert_ ok;;
  to_json df_math (joinpath (math_dir data_dir) "updated_questions.jsonl");;
  to_csv df_math (joinpath (math_dir data_dir) "updated_questions.csv").

(** [if __name__ == "__main__":] *)
Definition main : io unit :=
  process_reasoning_questions;;
  process_language_questions;;
  process_math_questions.
End Script.
End Extras.

(** ** Sample datasets *)
Module Samples.

Definition question (task : string) (turns : list string) (ground_truth : string)
  : record :=
  [ ("question_id", Str ("q-" +:+ task)); ("task", Str task);
    ("turns", Arr turns); ("ground_truth", Str ground_truth) ].

Definition bold_instruction : string :=
  "Think step by step, and answer in **bold** as a single phrase (for example, **sphere**).".

Definition q_bold : record :=
  question "zebra_puzzle" [bold_instruction] " sphere ".
Definition q_digit : record :=
  question "spatial"
    ["Return a single digit number, in the following format: **N**."] "3".
Definition q_two_turns : record :=
  question "spatial" ["First turn."; "Second turn."] "3".
Definition q_amps_two_turns : record :=
  question "AMPS_Hard" ["Differentiate."; "Now integrate."] "x".
Definition q_math : record :=
  question "math_comp"
    ["What is 1+1? Remember to have the three digits as the last part of the response. "]
    "002".

Definition q_amps : record :=
  question "AMPS_Hard" ["Differentiate x^2."] "2x".

Definition disk (path : string) (recs : list record) : gmap string file :=
  {[ path := Jsonl recs ]}.

Definition reasoning_disk : gmap string file :=
  disk "d/reasoning/question.jsonl" [q_bold; q_digit].
Definition reasoning_disk_two_turns : gmap string file :=
  disk "d/reasoning/question.jsonl" [q_bold; q_two_turns].
Definition math_disk_two_turns : gmap string file :=
  disk "d/math/question.jsonl" [q_math; q_amps_two_turns].
Definition math_disk : gmap string file :=
  disk "d/math/question.jsonl" [q_math; q_amps].

(** How many records the file at [path] holds. *)
Definition written_count (fs : gmap string file) (path : string) : option nat :=
  match fs !! path with
  | Some (Jsonl out) => Some (length out)
  | Some (Csv _ lines) => Some (length lines)
  | None => None
  end.
End Samples.

(** ** What is observed of a frame and of a dataset *)
Module FrameSpec.
Import Pandas.

(** The cell of column [k] in row [i]; missing when there is none. *)
Definition frame_cell (df : DataFrame) (k : string) (i : nat) : cell :=
  match find_column k (columns df) with
  | Some s => default NaN (s !! i)
  | None => NaN
  end.

(** The columns the scripts write: every other column is carried through. *)
Definition touched : list string :=
  ["turns_str"; "ground_truth"; "updated_question"; "index"; "level_0";
   "data_point_id"].

(** Row [i] of the frame reads as record [i] of [rs], outside the columns
    [ex]. *)
Definition backed_by (ex : list string) (rs : list record) (df : DataFrame)
  : Prop :=
  length (index df) = length rs
  /\ forall k i r, k ∉ ex -> rs !! i = Some r -> frame_cell df k i = cell_of k r.

(** [turns] has exactly one element (the assertion's test on one record). *)
Definition single_turn (r : record) : bool :=
  bool_decide (len (cell_of "turns" r) = Int 1).

(** The records the math function keeps: [task != 'AMPS_Hard']. *)
Definition kept (r : record) : bool :=
  bool_decide (cell_of "task" r <> Str "AMPS_Hard").

(** A record as the specification describes it: a [turns] array and a
    [ground_truth] string. *)
Definition question_like (r : record) : bool :=
  match cell_of "turns" r, cell_of "ground_truth" r with
  | Arr _, Str _ => true
  | _, _ => false
  end.

(** A character that occurs in the spelling of a number, as [float] reads
    one: a digit, a sign, the point, the exponent mark, an underscore, white
    space, and the letters of [inf], [infinity] and [nan]. *)
Definition numeric_char (c : ascii) : bool :=
  let n := nat_of_ascii c in
  ((48 <=? n)%nat && (n <=? 57)%nat) || isspace c
  || existsb (fun x => bool_decide (c = x))
       (list_ascii_of_string "+-._eEinfatyINFATY").

(** A string with a character that no spelling of a number has: pandas
    cannot take it for a number. *)
Definition surely_text (s : string) : bool :=
  existsb (fun c => negb (numeric_char c)) (list_ascii_of_string s).

(** pandas reads column [k] of these records as a column of strings: some
    record holds there a string that spells no number. *)
Definition read_as_text (k : string) (recs : list record) : Prop :=
  exists r s, r ∈ recs /\ cell_of k r = Str s /\ surely_text s = true.

Definition is_str (c : cell) : bool :=
  match c with
  | Str _ => true
  | _ => false
  end.

(** The frame has the columns [ks], and column [k] reads key [k] of the
    records [rs], row by row. *)
Definition keyed (ks : list string) (rs : list record) (df : DataFrame) : Prop :=
  length (index df) = length rs
  /\ fst <$> columns df = ks
  /\ forall k, find_column k (columns df)
               = if decide (k ∈ ks) then Some (cell_of k <$> rs) else None.

(** An output record [o] carries the input record [r] through: every column
    the script does not write is unchanged, [turns_str] is the first turn and
    [updated_question] is [chain] applied to it. *)
Definition carried_through (chain : string -> string) (r o : record) : Prop :=
  (forall k, k ∉ touched -> cell_of k o = cell_of k r)
  /\ cell_of "turns_str" o = get0 (cell_of "turns" r)
  /\ cell_of "updated_question" o = on_str chain (get0 (cell_of "turns" r))
  /\ "turns_str" ∈ o.*1 /\ "updated_question" ∈ o.*1.

(** What a frame about to be written holds of the records [rs]. *)
Record carries (chain : string -> string) (rs : list record) (df : DataFrame)
  : Prop :=
  { c_backed : backed_by touched rs df;
    c_single : forall r, r ∈ rs -> single_turn r = true;
    c_turns_str : find_column "turns_str" (columns df)
                  = Some (get0 <$> (cell_of "turns" <$> rs));
    c_updated : find_column "updated_question" (columns df)
                = Some (on_str chain <$> (get0 <$> (cell_of "turns" <$> rs))) }.
End FrameSpec.

(** ** The log of calls of a run *)
Module CallLog.
Import Reasoning.

(** The coroutines that have sent their request, in the order they did. *)
Fixpoint issued {R : Type} (t : list (event R)) : list nat :=
  match t with
  | [] => []
  | Issued i _ :: t' => i :: issued t'
  | Completed _ _ :: t' => issued t'
  end.

(** The coroutines whose reply has come back, in the order they did. *)
Fixpoint completed {R : Type} (t : list (event R)) : list nat :=
  match t with
  | [] => []
  | Issued _ _ :: t' => completed t'
  | Completed i _ :: t' => i :: completed t'
  end.

(** A finished coroutine, whatever its outcome. *)
Definition is_finished {R : Type} (t : task_state R) : bool :=
  match t with
  | Finished _ => true
  | _ => false
  end.

Section Log.
Context {R : Type}.
Variable create : request -> outcome R.
Variable coros : list request.

(** What the client sees when the coroutines, numbered from [j], run one
    after the other. *)
Fixpoint fifo_trace (j : nat) (reqs : list request) : list (event R) :=
  match reqs with
  | [] => []
  | req :: reqs' =>
      Issued j req :: Completed j (create req) :: fifo_trace (S j) reqs'
  end.

(** The log agrees with the states of the coroutines: a request is sent
    once, by a coroutine in flight or finished, and a reply comes back once,
    to a finished one. *)
Record log_inv (st : gather_state R) : Prop :=
  { log_length : length (tasks st) = length coros;
    log_issued_once : NoDup (issued (trace st));
    log_completed_once : NoDup (completed (trace st));
    log_issued : forall i,
      i ∈ issued (trace st)
      <-> tasks st !! i = Some InFlight
          \/ exists o, tasks st !! i = Some (Finished o);
    log_completed : forall i,
      i ∈ completed (trace st) <-> exists o, tasks st !! i = Some (Finished o) }.
End Log.

(** Two rounds over the [n] coroutines, each resumed twice in turn: the first
    round lets the calls in flight come back, the second runs the coroutines
    that were still waiting for a slot. *)
Definition drain (n : nat) : list nat := fifo_schedule n ++ fifo_schedule n.

(** A stage over [n] records sends at most one request per record, receives
    at most one reply per request, and, when it returns, has sent and
    received exactly one per record. *)
Definition calls_once {R A : Type} (n : nat) (s : stage_run R A) : Prop :=
  NoDup (issued s.2) /\ NoDup (completed s.2)
  /\ (forall i, i ∈ completed s.2 -> i ∈ issued s.2)
  /\ (forall i, i ∈ issued s.2 -> i < n)
  /\ (forall l, s.1 = Some (Returned l) ->
        issued s.2 ≡ₚ seq 0 n /\ completed s.2 ≡ₚ seq 0 n
        /\ in_flight s.2 = 0%Z).
End CallLog.

(** ** The update functions, one by one

    Every function of the two update scripts reads [question.jsonl] of its
    directory, builds a frame, and writes it to [updated_questions.jsonl] and
    [updated_questions.csv] of the same directory. *)
Module Updates.
Import Pandas Livebench.

(** The functions of scripts/.../update_livebench_questions.py and of
    extras/update_livebench_questions.py. *)
Inductive update_function : Type :=
  | ScriptsReasoning
  | ScriptsLanguage
  | ExtrasReasoning
  | ExtrasLanguage
  | ExtrasMath.

#[global] Instance update_function_eq_dec : EqDecision update_function.
Proof. solve_decision. Defined.

Definition run_update (f : update_function) (data_dir : string) : io unit :=
  match f with
  | ScriptsReasoning => Scripts.process_reasoning_questions data_dir
  | ScriptsLanguage => Scripts.process_language_questions data_dir
  | ExtrasReasoning => Extras.process_reasoning_questions data_dir
  | ExtrasLanguage => Extras.process_language_questions data_dir
  | ExtrasMath => Extras.process_math_questions data_dir
  end.

(** The directory a function works in, and its three paths. *)
Definition update_dir (f : update_function) (data_dir : string) : string :=
  match f with
  | ScriptsReasoning | ExtrasReasoning => reasoning_dir data_dir
  | ScriptsLanguage | ExtrasLanguage => language_dir data_dir
  | ExtrasMath => math_dir data_dir
  end.

Definition input_path (f : update_function) (data_dir : string) : string :=
  joinpath (update_dir f data_dir) "question.jsonl".
Definition output_jsonl (f : update_function) (data_dir : string) : string :=
  joinpath (update_dir f data_dir) "updated_questions.jsonl".
Definition output_csv (f : update_function) (data_dir : string) : string :=
  joinpath (update_dir f data_dir) "updated_questions.csv".

(** The column a function adds, its replacement chain, and the records it
    keeps. *)
Definition result_column (f : update_function) : string :=
  match f with
  | ScriptsLanguage => "replaced_question"
  | _ => "updated_question"
  end.

Definition update_chain (f : update_function) : string -> string :=
  match f with
  | ScriptsReasoning => Scripts.reasoning_updated_question
  | ScriptsLanguage => Scripts.language_replaced_question
  | ExtrasReasoning => Extras.reasoning_updated_question
  | ExtrasLanguage => Extras.language_updated_question
  | ExtrasMath => Extras.math_updated_question
  end.

(** The texts a chain looks for, in the order it replaces them. *)
Definition chain_patterns (f : update_function) : list string :=
  match f with
  | ScriptsReasoning => ["in **bold**"; "**"]
  | ScriptsLanguage =>
      ["Begin the plot summary with <PLOT_SUMMARY>"; "in **bold**"; "**"]
  | ExtrasReasoning => ["in **bold** "; "***"; "**"]
  | ExtrasLanguage =>
      [" Begin the plot summary with <PLOT_SUMMARY>."; "in **bold** "; "***";
       "**"]
  | ExtrasMath =>
      [Extras.math_old_1; Extras.math_old_2; Extras.math_old_3;
       Extras.math_old_4; Extras.math_old_5; Extras.math_old_6]
  end.

Definition keeps (f : update_function) (r : record) : bool :=
  match f with
  | ExtrasMath => FrameSpec.kept r
  | _ => true
  end.

(** Whether the function numbers its records in a [data_point_id] column. *)
Definition numbers_records (f : update_function) : bool :=
  match f with
  | ScriptsReasoning | ScriptsLanguage => true
  | _ => false
  end.

(** The columns a function writes itself; every other column of the input
    is carried through. *)
Definition written_columns (f : update_function) : list string :=
  ["turns_str"; "ground_truth"; result_column f]
  ++ (if numbers_records f then ["index"; "level_0"; "data_point_id"] else []).

(** The output record [o] is what function [f] makes of the input record
    [r]: the first turn in [turns_str], the chain applied to it in the result
    column, the answer stripped, and the other columns unchanged. *)
Definition written_as (f : update_function) (r o : record) : Prop :=
  cell_of "turns_str" o = get0 (cell_of "turns" r)
  /\ cell_of (result_column f) o
     = on_str (update_chain f) (get0 (cell_of "turns" r))
  /\ cell_of "ground_truth" o = on_str strip (cell_of "ground_truth" r)
  /\ forall k, k ∉ written_columns f -> cell_of k o = cell_of k r.

(** What the frame a function is about to write holds of the records [recs]
    it has read. *)
Record written_frame (f : update_function) (recs : list record)
    (df : DataFrame) : Prop :=
  { wf_length : length (index df) = length (List.filter (keeps f) recs);
    wf_single : Forall (fun r => FrameSpec.single_turn r = true)
                  (List.filter (keeps f) recs);
    wf_turns_str :
      find_column "turns_str" (columns df)
      = Some (get0 <$> (cell_of "turns" <$> List.filter (keeps f) recs));
    wf_result :
      find_column (result_column f) (columns df)
      = Some (on_str (update_chain f)
                <$> (get0 <$> (cell_of "turns" <$> List.filter (keeps f) recs)));
    wf_ground_truth :
      find_column "ground_truth" (columns df)
      = Some (on_str strip
                <$> (cell_of "ground_truth" <$> List.filter (keeps f) recs));
    wf_other : forall k, k ∉ written_columns f ->
      find_column k (columns df)
      = if decide (k ∈ keys_of recs)
        then Some (cell_of k <$> List.filter (keeps f) recs) else None }.

(** [assert b], where no file is involved. *)
Definition assert_ok (b : bool) : outcome unit :=
  if b then Returned tt else Raised AssertionError.

(** The frame each function builds from the one it has read, up to the
    point where it writes. *)
Definition scripts_reasoning_frame (df : DataFrame) : outcome DataFrame :=
  df ← assign_turns_str_ground_truth df;
  df ← reset_index df;
  let df_reasoning := rename "index" "data_point_id" df in
  ok ← turns_len_eq_1_all df_reasoning;
  assert_ok ok;;
  turns_str ← getattr df_reasoning "turns_str";
  s ← str_replace "in **bold**" "" turns_str;
  s ← str_replace "**" "" s;
  s ← str_strip s;
  mret (set_column "updated_question" s df_reasoning).

Definition scripts_language_frame (df : DataFrame) : outcome DataFrame :=
  df ← assign_turns_str_ground_truth df;
  df ← reset_index df;
  let df_language := rename "index" "data_point_id" df in
  ok ← turns_len_eq_1_all df_language;
  assert_ok ok;;
  turns_str ← getattr df_language "turns_str";
  s ← str_replace "Begin the plot summary with <PLOT_SUMMARY>" "" turns_str;
  s ← str_replace "in **bold**" "" s;
  s ← str_replace "**" "" s;
  s ← str_strip s;
  mret (set_column "replaced_question" s df_language).

Definition extras_reasoning_frame (df : DataFrame) : outcome DataFrame :=
  df_reasoning ← assign_turns_str_ground_truth df;
  ok ← turns_len_eq_1_all df_reasoning;
  assert_ok ok;;
  turns_str ← getattr df_reasoning "turns_str";
  s ← str_replace "in **bold** " "" turns_str;
  s ← str_replace "***" "" s;
  s ← str_replace "**" "" s;
  s ← str_strip s;
  mret (set_column "updated_question" s df_reasoning).

Definition extras_language_frame (df : DataFrame) : outcome DataFrame :=
  df_language ← assign_turns_str_ground_truth df;
  ok ← turns_len_eq_1_all df_language;
  assert_ok ok;;
  turns_str ← getattr df_language "turns_str";
  s ← str_replace " Begin the plot summary with <PLOT_SUMMARY>." "" turns_str;
  s ← str_replace "in **bold** " "" s;
  s ← str_replace "***" "" s;
  s ← str_replace "**" "" s;
  s ← str_strip s;
  mret (set_column "updated_question" s df_language).

Definition extras_math_frame (df : DataFrame) : outcome DataFrame :=
  df ← query_ne "task" "AMPS_Hard" df;
  df_math ← assign_turns_str_ground_truth df;
  turns_str ← getattr df_math "turns_str";
  s ← str_strip turns_str;
  s ← str_replace Extras.math_old_1 Extras.math_new_1 s;
  s ← str_replace Extras.math_old_2 Extras.math_new_2 s;
  s ← str_replace Extras.math_old_3 Extras.math_new_3 s;
  s ← str_replace Extras.math_old_4 Extras.math_new_4 s;
  s ← str_replace Extras.math_old_5 Extras.math_new_5 s;
  s ← str_replace Extras.math_old_6 Extras.math_new_6 s;
  s ← str_strip s;
  let df_math := set_column "updated_question" s df_math in
  ok ← turns_len_eq_1_all df_math;
  assert_ok ok;;
  mret df_math.

Definition update_frame (f : update_function) : DataFrame -> outcome DataFrame :=
  match f with
  | ScriptsReasoning => scripts_reasoning_frame
  | ScriptsLanguage => scripts_language_frame
  | ExtrasReasoning => extras_reasoning_frame
  | ExtrasLanguage => extras_language_frame
  | ExtrasMath => extras_math_frame
  end.

(** Read, build, write: the shape all five functions share. *)
Definition pipeline (dir : string) (build : DataFrame -> outcome DataFrame)
  : io unit :=
  df ← read_json (joinpath dir "question.jsonl");
  df ← lift (build df);
  to_json df (joinpath dir "updated_questions.jsonl");;
  to_csv df (joinpath dir "updated_questions.csv").

(** What a run of [f] writes, the line-delimited JSON file and the CSV file,
    or the exception it raises: both depend on the input file alone. *)
Definition update_output (f : update_function) (input : option file)
  : outcome (file * file) :=
  match input with
  | Some (Jsonl recs) =>
      match update_frame f (frame_of_records recs) with
      | Returned df =>
          if decide (NoDup (fst <$> columns df))
          then Returned (Jsonl (to_records df),
                         Csv (fst <$> columns df) (to_lines df))
          else Raised (ValueError
                         "DataFrame columns must be unique for orient='records'")
      | Raised e => Raised e
      end
  | Some (Csv _ _) => Raised (ValueError "Expected object or value")
  | None => Raised (ValueError "Expected object or value")
  end.

(** The exception a dataset without the columns a function reads first
    makes it raise: [query] finds no [task] for the math function, [x.turns]
    is no column. *)
Definition input_error (f : update_function) (recs : list record)
  : option exn :=
  if decide (f = ExtrasMath /\ "task" ∉ keys_of recs)
  then Some (NameError "task")
  else if decide ("turns" ∈ keys_of recs) then None
       else Some (AttributeError "turns").

Definition outputs (f : update_function) (data_dir : string) : list string :=
  [output_jsonl f data_dir; output_csv f data_dir].

(** The functions each script's [__main__] block calls, in order. *)
Definition scripts_main_calls : list update_function :=
  [ScriptsReasoning; ScriptsLanguage].
Definition extras_main_calls : list update_function :=
  [ExtrasReasoning; ExtrasLanguage; ExtrasMath].

(** Calling the functions of a list one after the other. *)
Fixpoint run_all (fs : list update_function) (data_dir : string) : io unit :=
  match fs with
  | [] => mret tt
  | f :: fs' => run_update f data_dir;; run_all fs' data_dir
  end.

(** A script's [__main__] block is the sum of its calls: it returns exactly
    when each function, run alone on the files as they were, returns; it then
    leaves at every output path what the function that owns the path writes
    when run alone; and it never touches another path. *)
Definition sum_of_calls (main : io unit) (calls : list update_function)
    (data_dir : string) (fs : gmap string file) : Prop :=
  ((main fs).1 = Returned tt
   <-> forall f, f ∈ calls -> (run_update f data_dir fs).1 = Returned tt)
  /\ ((main fs).1 = Returned tt ->
      forall f p, f ∈ calls -> p ∈ outputs f data_dir ->
        (main fs).2 !! p = (run_update f data_dir fs).2 !! p)
  /\ (forall p, (forall f, f ∈ calls -> p ∉ outputs f data_dir) ->
        (main fs).2 !! p = fs !! p).

(** A [__main__] block that raises stops at its first call that, run alone
    on the files as they were, raises, with that exception: the outputs of
    the calls before it are written, those of the calls from it on are
    untouched. *)
Definition stops_at_first_failure (main : io unit)
    (calls : list update_function) (data_dir : string) (fs : gmap string file)
  : Prop :=
  forall e, (main fs).1 = Raised e ->
    exists before f after,
      calls = before ++ f :: after
      /\ (forall g, g ∈ before -> (run_update g data_dir fs).1 = Returned tt)
      /\ (run_update f data_dir fs).1 = Raised e
      /\ (forall g p, g ∈ before -> p ∈ outputs g data_dir ->
            (main fs).2 !! p = (run_update g data_dir fs).2 !! p)
      /\ (forall g p, g ∈ f :: after -> p ∈ outputs g data_dir ->
            (main fs).2 !! p = fs !! p).
End Updates.

(** ** _extras/start_modal.py *)
Module StartModal.

(** What [subprocess.run] is called with: the argument vector and the
    environment of the child process. *)
Record subprocess_call : Type :=
  { args : list string;
    env : gmap string string }.

(** [run_jupyter], from [secrets.token_urlsafe(13)], the URL of the tunnel
    [modal.forward(8888)] opens and [os.environ]: the line it prints and the
    process it starts. *)
Definition run_jupyter (token tunnel_url : string)
    (os_environ : gmap string string) : string * subprocess_call :=
  let url := tunnel_url +:+ "/?token=" +:+ token in
  ("Starting Jupyter at " +:+ url,
   {| args := [ "jupyter"; "lab"; "--no-browser"; "--allow-root";
                "--ip=0.0.0.0"; "--port=8888"; "--LabApp.allow_origin='*'";
                "--LabApp.allow_remote_access=1" ];
      env := <["SHELL" := "/bin/bash"]>
               (<["JUPYTER_TOKEN" := token]> os_environ) |}).

(** A sample environment, with a token and a shell of its own. *)
Definition sample_environ : gmap string string :=
  {[ "JUPYTER_TOKEN" := "stale"; "SHELL" := "/bin/zsh"; "HOME" := "/root" ]}.
End StartModal.

(** * Properties *)

(** ** The gather machine *)
Module GatherFacts.
Import Reasoning GatherSpec.

Section Machine.
Context {R : Type}.
Variable create : request -> outcome R.
Variable coros : list request.

Local Abbreviation genuine := (genuine create coros).
Local Abbreviation gather_inv := (gather_inv create coros).
Local Abbreviation fifo_tasks := (fifo_tasks create coros).

Lemma in_flight_app (t1 t2 : list (event R)) :
  in_flight (t1 ++ t2) = (in_flight t1 + in_flight t2)%Z.
Proof.
  induction t1 as [|[i req|i o] t1 IH]; simpl; lia.
Qed.

Lemma first_raised_app (t1 t2 : list (event R)) :
  first_raised (t1 ++ t2) =
  match first_raised t1 with
  | Some e => Some e
  | None => first_raised t2
  end.
Proof.
  induction t1 as [|[i req|i [r|e]] t1 IH]; simpl; auto.
Qed.

Lemma first_raised_None (t : list (event R)) :
  first_raised t = None <-> forall i e, Completed i (Raised e) ∉ t.
Proof.
  induction t as [|ev t IH]; simpl.
  - split; [intros _ i e H; inversion H | done].
  - destruct ev as [j req|j [r|e0]].
    + rewrite IH. split; intros H i e Hin.
      * apply elem_of_cons in Hin as [Heq|Hin]; [discriminate|]. by eapply H.
      * eapply H. by right.
    + rewrite IH. split; intros H i e Hin.
      * apply elem_of_cons in Hin as [Heq|Hin]; [discriminate|]. by eapply H.
      * eapply H. by right.
    + split; [discriminate|]. intros H. exfalso. eapply H. by left.
Qed.

Lemma first_raised_Some (t : list (event R)) (e : exn) :
  first_raised t = Some e -> exists i, Completed i (Raised e) ∈ t.
Proof.
  induction t as [|ev t IH]; simpl; [discriminate|].
  destruct ev as [j req|j [r|e0]].
  - intros H. destruct (IH H) as [i Hi]. exists i. by right.
  - intros H. destruct (IH H) as [i Hi]. exists i. by right.
  - intros [= ->]. exists j. by left.
Qed.

Lemma count_in_flight_replicate (n : nat) :
  count_in_flight (replicate n (@Pending R)) = 0%Z.
Proof. induction n; simpl; auto. Qed.

Lemma count_in_flight_nonneg (ts : list (task_state R)) :
  (0 <= count_in_flight ts)%Z.
Proof. induction ts as [|[| |o] ts IH]; simpl; lia. Qed.

Lemma count_in_flight_acquire (ts : list (task_state R)) (i : nat) :
  ts !! i = Some Pending ->
  count_in_flight (<[i := InFlight]> ts) = (count_in_flight ts + 1)%Z.
Proof.
  revert i. induction ts as [|t ts IH]; intros [|i]; simpl; try done.
  - intros [= ->]. done.
  - intros H. rewrite (IH _ H). destruct t; lia.
Qed.

Lemma count_in_flight_release (ts : list (task_state R)) (i : nat) o :
  ts !! i = Some InFlight ->
  count_in_flight (<[i := Finished o]> ts) = (count_in_flight ts - 1)%Z.
Proof.
  revert i. induction ts as [|t ts IH]; intros [|i]; simpl; try done.
  - intros [= ->]. lia.
  - intros H. rewrite (IH _ H). destruct t; lia.
Qed.

Lemma prefix_snoc_cases {A : Type} (t' t : list A) (x : A) :
  t' `prefix_of` t ++ [x] -> t' = t ++ [x] \/ t' `prefix_of` t.
Proof.
  intros [k Hk]. destruct k as [|y k _] using rev_ind.
  - left. by rewrite app_nil_r in Hk.
  - right. rewrite app_assoc in Hk. apply app_inj_tail in Hk as [-> _].
    by exists k.
Qed.

Lemma bounded_snoc (K : Z) (t : list (event R)) (ev : event R) :
  bounded K t -> (0 <= in_flight (t ++ [ev]) <= K)%Z -> bounded K (t ++ [ev]).
Proof.
  intros Hb Hnew t' Hpre.
  destruct (prefix_snoc_cases _ _ _ Hpre) as [->|Hpre']; auto.
Qed.

Lemma gather_init_inv (K : Z) :
  (0 <= K)%Z -> gather_inv K (gather_init coros K).
Proof.
  intros HK. constructor; simpl.
  - apply length_replicate.
  - rewrite count_in_flight_replicate. lia.
  - done.
  - by rewrite count_in_flight_replicate.
  - intros t' Ht'. apply prefix_nil_inv in Ht' as ->. simpl. lia.
  - intros ev Hev. inversion Hev.
  - intros i o Hi. apply lookup_replicate in Hi as [? _]. done.
  - intros i o Hi. inversion Hi.
  - done.
Qed.

Lemma step_task_inv (K : Z) (i : nat) (st : gather_state R) :
  gather_inv K st ->
  gather_inv K (step_task create coros i st).
Proof.
  intros Hinv. pose proof Hinv as [Hlen Hsem Hnn Hfl Hbd Hgen Hfin Hcom Hfst].
  unfold step_task.
  destruct (tasks st !! i) as [[| |o]|] eqn:Ht; try done;
    destruct (coros !! i) as [req|] eqn:Hc; try done.
  - (* a pending coroutine asks for a slot *)
    destruct (0 <? sem_value st)%Z eqn:Hslot; [|done].
    apply Z.ltb_lt in Hslot.
    pose proof (count_in_flight_acquire _ _ Ht) as Hcnt.
    pose proof (count_in_flight_nonneg (tasks st)) as Hpos.
    constructor; simpl.
    + by rewrite length_insert.
    + lia.
    + lia.
    + rewrite in_flight_app. simpl. lia.
    + apply bounded_snoc; [done|]. rewrite in_flight_app. simpl. lia.
    + intros ev [Hev|Hev%list_elem_of_singleton]%elem_of_app; [by apply Hgen|].
      by subst ev.
    + intros j o Hj. destruct (decide (i = j)) as [->|Hne].
      * rewrite list_lookup_insert_eq in Hj by (by eapply lookup_lt_Some).
        discriminate.
      * rewrite list_lookup_insert_ne in Hj by done.
        apply elem_of_app. left. by apply Hfin.
    + intros j o [Hj|Hj%list_elem_of_singleton]%elem_of_app; [|discriminate].
      apply Hcom in Hj. destruct (decide (i = j)) as [->|Hne]; [congruence|].
      by rewrite list_lookup_insert_ne.
    + rewrite first_raised_app, <- Hfst. simpl. by destruct (first_exception st).
  - (* a coroutine in flight receives its reply *)
    pose proof (count_in_flight_release _ _ (create req) Ht) as Hcnt.
    pose proof (count_in_flight_nonneg (<[i := Finished (create req)]> (tasks st)))
      as Hpos.
    constructor; simpl.
    + by rewrite length_insert.
    + lia.
    + lia.
    + rewrite in_flight_app. simpl. lia.
    + apply bounded_snoc; [done|]. rewrite in_flight_app. simpl. lia.
    + intros ev [Hev|Hev%list_elem_of_singleton]%elem_of_app; [by apply Hgen|].
      subst ev. by exists req.
    + intros j o Hj. apply elem_of_app. destruct (decide (i = j)) as [->|Hne].
      * rewrite list_lookup_insert_eq in Hj by (by eapply lookup_lt_Some).
        injection Hj as <-. right. by apply list_elem_of_singleton.
      * rewrite list_lookup_insert_ne in Hj by done. left. by apply Hfin.
    + intros j o [Hj|Hj%list_elem_of_singleton]%elem_of_app.
      * apply Hcom in Hj. destruct (decide (i = j)) as [->|Hne]; [congruence|].
        by rewrite list_lookup_insert_ne.
      * injection Hj as -> ->.
        apply list_lookup_insert_eq. by eapply lookup_lt_Some.
    + rewrite first_raised_app, <- Hfst. simpl.
      by destruct (first_exception st), (create req).
Qed.

Lemma run_inv (K : Z) (sched : list nat) (st : gather_state R) :
  gather_inv K st ->
  gather_inv K (run create coros sched st).
Proof.
  revert st. induction sched as [|i sched IH]; intros st Hinv; simpl; [done|].
  apply IH. by apply step_task_inv.
Qed.

Lemma run_app (s1 s2 : list nat) (st : gather_state R) :
  run create coros (s1 ++ s2) st = run create coros s2 (run create coros s1 st).
Proof. unfold run. apply foldl_app. Qed.

(** A returned list holds, in argument order, the reply of every
    coroutine's call, and every call has been made and has returned. *)
Lemma gather_result_Returned (K : Z) (st : gather_state R) (l : list R) :
  gather_inv K st ->
  gather_result st = Some (Returned l) ->
  Forall2 (fun req r => create req = Returned r) coros l
  /\ first_raised (trace st) = None.
Proof.
  intros Hinv. pose proof Hinv as [Hlen _ _ _ _ Hgen Hfin _ Hfst].
  unfold gather_result. rewrite Hfst.
  destruct (first_raised (trace st)) eqn:Hfr; [discriminate|].
  destruct (mapM finished_value (tasks st)) as [l'|] eqn:Hm; [|discriminate].
  intros [= ->]. split; [|done].
  apply mapM_Some in Hm.
  apply Forall2_same_length_lookup. split.
  - apply Forall2_length in Hm. lia.
  - intros i req r Hreq Hr.
    destruct (Forall2_lookup_r _ _ _ _ _ Hm Hr) as (t & Ht & Hfv).
    destruct t as [| |[r'|e]]; simpl in Hfv; try discriminate.
    injection Hfv as ->.
    apply Hfin, Hgen in Ht as (req' & Hreq' & ->). congruence.
Qed.

(** [gather] fails exactly with the exception of the first call to fail. *)
Lemma gather_result_Raised (K : Z) (st : gather_state R) (e : exn) :
  gather_inv K st ->
  gather_result st = Some (Raised e) <-> first_raised (trace st) = Some e.
Proof.
  intros [_ _ _ _ _ _ _ _ Hfst]. unfold gather_result. rewrite Hfst.
  destruct (first_raised (trace st)) as [e'|].
  - split; congruence.
  - destruct (mapM finished_value (tasks st)); simpl; split; discriminate.
Qed.

(** Once every coroutine has finished, [gather] has resolved. *)
Lemma gather_result_resolved (K : Z) (st : gather_state R) :
  gather_inv K st ->
  Forall (fun t => exists o, t = Finished o) (tasks st) ->
  is_Some (gather_result st).
Proof.
  intros Hinv Hall. pose proof Hinv as [_ _ _ _ _ _ Hfin _ Hfst].
  unfold gather_result. rewrite Hfst.
  destruct (first_raised (trace st)) eqn:Hfr; [by eexists|].
  assert (is_Some (mapM finished_value (tasks st))) as [l ->]; [|by eexists].
  apply mapM_is_Some. apply Forall_lookup. intros i t Ht.
  destruct (proj1 (Forall_lookup _ _) Hall i t Ht) as [o ->].
  destruct o as [r|e]; [by eexists|].
  apply Hfin in Ht. exfalso.
  by eapply (proj1 (first_raised_None _) Hfr).
Qed.

Lemma fifo_tasks_lookup (i : nat) :
  i < length coros -> fifo_tasks i !! i = Some Pending.
Proof.
  intros Hi. unfold fifo_tasks.
  rewrite lookup_app_r; rewrite length_fmap, length_take; [|lia].
  apply lookup_replicate. split; [done|lia].
Qed.

Lemma fifo_tasks_S (i : nat) (req : request) :
  coros !! i = Some req ->
  <[i := Finished (create req)]> (fifo_tasks i) = fifo_tasks (S i).
Proof.
  intros Hreq. pose proof (lookup_lt_Some _ _ _ Hreq) as Hi.
  unfold fifo_tasks.
  rewrite insert_app_r_alt; rewrite length_fmap, length_take; [|lia].
  rewrite (take_S_r _ _ _ Hreq), fmap_app, <- app_assoc. simpl.
  replace (length coros - i) with (S (length coros - S i)) by lia.
  replace (i - i `min` length coros) with 0 by lia.
  done.
Qed.

Lemma fifo_schedule_S (i : nat) :
  fifo_schedule (S i) = fifo_schedule i ++ [i; i].
Proof.
  unfold fifo_schedule. rewrite seq_S, flat_map_app. simpl. done.
Qed.

Lemma step_task_acquire (i : nat) (st : gather_state R) (req : request) :
  tasks st !! i = Some Pending -> coros !! i = Some req ->
  (0 < sem_value st)%Z ->
  step_task create coros i st =
  {| sem_value := sem_value st - 1;
     tasks := <[i := InFlight]> (tasks st);
     first_exception := first_exception st;
     trace := trace st ++ [Issued i req] |}.
Proof.
  intros Ht Hreq Hslot. unfold step_task. rewrite Ht, Hreq.
  apply Z.ltb_lt in Hslot. by rewrite Hslot.
Qed.

Lemma step_task_blocked (i : nat) (st : gather_state R) :
  tasks st !! i = Some Pending -> (sem_value st <= 0)%Z ->
  step_task create coros i st = st.
Proof.
  intros Ht Hslot. unfold step_task. rewrite Ht.
  destruct (coros !! i); [|done].
  apply Z.ltb_ge in Hslot. by rewrite Hslot.
Qed.

Lemma step_task_complete (i : nat) (st : gather_state R) (req : request) :
  tasks st !! i = Some InFlight -> coros !! i = Some req ->
  step_task create coros i st =
  {| sem_value := sem_value st + 1;
     tasks := <[i := Finished (create req)]> (tasks st);
     first_exception :=
       match first_exception st, create req with
       | None, Raised e => Some e
       | fe, _ => fe
       end;
     trace := trace st ++ [Completed i (create req)] |}.
Proof.
  intros Ht Hreq. unfold step_task. by rewrite Ht, Hreq.
Qed.

Lemma run_fifo (K : Z) (i : nat) :
  (0 < K)%Z -> i <= length coros ->
  tasks (run create coros (fifo_schedule i) (gather_init coros K)) = fifo_tasks i
  /\ sem_value (run create coros (fifo_schedule i) (gather_init coros K)) = K.
Proof.
  intros HK. induction i as [|i IH]; intros Hi.
  - split; [|done]. simpl. unfold fifo_tasks.
    by rewrite take_0, Nat.sub_0_r.
  - destruct IH as [Hts Hsem]; [lia|].
    destruct (lookup_lt_is_Some_2 coros i) as [req Hreq]; [lia|].
    rewrite fifo_schedule_S, run_app.
    set (st := run create coros (fifo_schedule i) (gather_init coros K)) in *.
    assert (tasks st !! i = Some Pending) as Hpending
      by (rewrite Hts; apply fifo_tasks_lookup; lia).
    simpl. rewrite (step_task_acquire i st req) by (done || lia).
    rewrite (step_task_complete i _ req); simpl; [|by apply list_lookup_insert_eq;
      eapply lookup_lt_Some|done].
    rewrite list_insert_insert_eq, Hts. split; [by apply fifo_tasks_S|lia].
Qed.

(** With at least one slot, the fifo schedule brings [gather] to its
    result. *)
Lemma run_fifo_resolved (K : Z) :
  (0 < K)%Z ->
  is_Some (gather_result
             (run create coros (fifo_schedule (length coros))
                  (gather_init coros K))).
Proof.
  intros HK.
  apply (gather_result_resolved K); [apply run_inv, gather_init_inv; lia|].
  destruct (run_fifo K (length coros) HK) as [-> _]; [done|].
  unfold fifo_tasks. rewrite Nat.sub_diag, firstn_all, app_nil_r.
  apply Forall_fmap, Forall_forall. intros req _. by eexists.
Qed.
End Machine.
End GatherFacts.

(** ** The two stages of reasoning.py *)
Module ReasoningFacts.
Import Reasoning GatherSpec Mock GatherFacts.

Example classify_two_rows :
  classify_reasoning_questions mock_create (fifo_schedule 2) [row_a; row_b] 30
  = (Some (Returned [T1; T4]),
     [ Issued 0 (run_model_with_instructor_request
                   system_prompt_classification_reasoning
                   (classify_user_message row_a));
       Completed 0 (Returned {| classification := T1 |});
       Issued 1 (classify_request row_b);
       Completed 1 (Returned {| classification := T4 |}) ]).
Proof. vm_compute. reflexivity. Qed.

Example classify_reversed_completion :
  fst (classify_reasoning_questions mock_create [0; 1; 1; 0] [row_a; row_b] 30)
  = Some (Returned [T1; T4]).
Proof. vm_compute. reflexivity. Qed.

Example classify_one_slot_blocks :
  fst (classify_reasoning_questions mock_create [0; 1; 1; 1] [row_a; row_b] 1)
  = None.
Proof. vm_compute. reflexivity. Qed.

Example classify_failure :
  fst (classify_reasoning_questions mock_create (fifo_schedule 3)
         [row_a; row_bad; row_b] 30)
  = Some (Raised (SchemaViolation "classification")).
Proof. vm_compute. reflexivity. Qed.

Lemma getitem_format_mapping (t : FormatType) :
  getitem format_mapping (name t) =
  match t with
  | T1 => Returned "Put your answer as a single phrase (for example, sphere)."
  | T2 => Returned "Put your answer as a list of three words, yes or no (for example, yes, no, yes)."
  | T3 => Returned "Put your answer as a single integer (for example, 0)."
  | T4 => Returned "Return a single digit number, in the following format: N, where N is the position."
  | T5 => Returned "Return your answer as a single word, in the following format: X, where X is the answer."
  | OTHER => Raised (KeyError "OTHER")
  end.
Proof. destruct t; vm_compute; reflexivity. Qed.


Lemma Semaphore_ok (K : Z) : (0 <= K)%Z -> Semaphore K = Returned K.
Proof.
  intros HK. unfold Semaphore.
  destruct (K <? 0)%Z eqn:H; [apply Z.ltb_lt in H; lia|done].
Qed.

Lemma Semaphore_negative (K : Z) :
  (K < 0)%Z ->
  Semaphore K = Raised (ValueError "Semaphore initial value must be >= 0").
Proof.
  intros HK. unfold Semaphore. apply Z.ltb_lt in HK. by rewrite HK.
Qed.

Lemma mapM_Returned {A B : Type} (f : A -> outcome B) (l : list A) (k : list B) :
  mapM f l = Returned k <-> Forall2 (fun x y => f x = Returned y) l k.
Proof.
  revert k. induction l as [|x l IH]; intros k; simpl.
  - split; [intros [= <-]; constructor|by inversion 1].
  - unfold mbind, outcome_bind, mret, outcome_ret in *.
    destruct (f x) as [y|e] eqn:Hx.
    + destruct (mapM f l) as [k'|e'] eqn:Hl.
      * split.
        -- intros [= <-]. constructor; [done|by apply IH].
        -- inversion 1 as [|? y' ? k'' Hy Hrest]; subst.
           apply IH in Hrest. congruence.
      * split; [discriminate|].
        inversion 1 as [|? y' ? k'' Hy Hrest]; subst.
        apply IH in Hrest. discriminate.
    + split; [discriminate|]. inversion 1; congruence.
Qed.

Lemma mapM_Raised {A B : Type} (f : A -> outcome B) (l : list A) (e : exn) :
  mapM f l = Raised e -> exists x, x ∈ l /\ f x = Raised e.
Proof.
  induction l as [|x l IH]; simpl; [discriminate|].
  unfold mbind, outcome_bind, mret, outcome_ret in *.
  destruct (f x) as [y|e'] eqn:Hx.
  - destruct (mapM f l) as [k'|e''] eqn:Hl; [discriminate|].
    intros [= ->]. destruct IH as (x' & Hin & Hx'); [done|].
    exists x'. split; [by right|done].
  - intros [= ->]. exists x. split; [by left|done].
Qed.

Lemma replace_request_label (row : classified_row) :
  (row_classification row = OTHER ->
   replace_request row = Raised (KeyError "OTHER"))
  /\ (row_classification row <> OTHER ->
      exists req, replace_request row = Returned req).
Proof.
  unfold replace_request, replace_user_message.
  rewrite getitem_format_mapping.
  destruct (row_classification row); split; intros H; try done;
    by eexists.
Qed.

Lemma replace_request_Raised (row : classified_row) (e : exn) :
  replace_request row = Raised e ->
  row_classification row = OTHER /\ e = KeyError "OTHER".
Proof.
  unfold replace_request, replace_user_message.
  rewrite getitem_format_mapping.
  destruct (row_classification row); simpl; try discriminate.
  by intros [= <-].
Qed.

(** The list comprehension of the rewrite stage stops at the first row
    labelled [OTHER]. *)
Lemma replace_tasks_OTHER (df : list classified_row) :
  (exists row, row ∈ df /\ row_classification row = OTHER) ->
  mapM replace_request df = Raised (KeyError "OTHER").
Proof.
  intros (row & Hin & Hrow).
  destruct (mapM replace_request df) as [tasks|e] eqn:Hm.
  - apply mapM_Returned in Hm.
    apply list_elem_of_lookup in Hin as [i Hi].
    destruct (Forall2_lookup_l _ _ _ _ _ Hm Hi) as (req & _ & Hreq).
    destruct (replace_request_label row) as [Hother _].
    rewrite Hother in Hreq by done. discriminate.
  - apply mapM_Raised in Hm as (row' & _ & Hrow').
    apply replace_request_Raised in Hrow' as [_ ->]. done.
Qed.

Lemma replace_tasks_ok (df : list classified_row) :
  Forall (fun row => row_classification row <> OTHER) df ->
  exists tasks, mapM replace_request df = Returned tasks
                /\ length tasks = length df.
Proof.
  intros Hall.
  destruct (mapM replace_request df) as [tasks|e] eqn:Hm.
  - exists tasks. split; [done|].
    apply mapM_Returned, Forall2_length in Hm. done.
  - apply mapM_Raised in Hm as (row & Hin & Hrow).
    apply replace_request_Raised in Hrow as [Hrow _].
    by apply (proj1 (Forall_forall _ _) Hall) in Hin.
Qed.

Section Gathered.
Context {R A : Type}.
Variable call : request -> outcome R.
Variable proj : R -> A.

Lemma gathered_bounded sched coros K :
  (0 <= K)%Z -> bounded K (gathered call proj sched coros K).2.
Proof.
  intros HK. simpl.
  by apply (inv_bounded call coros K), run_inv, gather_init_inv.
Qed.

Lemma gathered_genuine sched coros K :
  (0 <= K)%Z -> genuine call coros (gathered call proj sched coros K).2.
Proof.
  intros HK. simpl.
  by apply (inv_genuine call coros K), run_inv, gather_init_inv.
Qed.

Lemma gathered_Raised sched coros K e :
  (0 <= K)%Z ->
  (gathered call proj sched coros K).1 = Some (Raised e)
  <-> first_raised (gathered call proj sched coros K).2 = Some e.
Proof.
  intros HK. simpl.
  rewrite <- (gather_result_Raised call coros K)
    by (by apply run_inv, gather_init_inv).
  destruct (gather_result _) as [[l|e']|]; simpl; split; congruence.
Qed.

Lemma gathered_Returned sched coros K l :
  (0 <= K)%Z ->
  (gathered call proj sched coros K).1 = Some (Returned l) ->
  Forall2 (fun req a => exists r, call req = Returned r /\ proj r = a) coros l
  /\ first_raised (gathered call proj sched coros K).2 = None.
Proof.
  intros HK. simpl.
  destruct (gather_result _) as [[l0|e']|] eqn:Hg; simpl; try discriminate.
  intros [= <-].
  apply (gather_result_Returned call coros K) in Hg as [Hall Hnone];
    [|by apply run_inv, gather_init_inv].
  split; [|done].
  apply Forall2_fmap_r. eapply Forall2_impl; [exact Hall|].
  intros req r Hr. by exists r.
Qed.

Lemma gathered_failed_call sched coros K i e :
  (0 <= K)%Z ->
  Completed i (Raised e) ∈ (gathered call proj sched coros K).2 ->
  exists e', (gathered call proj sched coros K).1 = Some (Raised e')
             /\ first_raised (gathered call proj sched coros K).2 = Some e'.
Proof.
  intros HK Hin.
  destruct (first_raised (gathered call proj sched coros K).2) as [e'|] eqn:Hfr.
  - exists e'. split; [by apply gathered_Raised|done].
  - exfalso. by eapply (proj1 (first_raised_None _) Hfr).
Qed.

Lemma gathered_fifo_resolved coros K :
  (0 < K)%Z ->
  is_Some (gathered call proj (fifo_schedule (length coros)) coros K).1.
Proof.
  intros HK. simpl.
  destruct (run_fifo_resolved call coros K HK) as [o ->]. by eexists.
Qed.
End Gathered.

Section StageFacts.
Variable create : forall R : Type, response_model R -> request -> outcome R.

Lemma classify_gathered sched df K :
  (0 <= K)%Z ->
  classify_reasoning_questions create sched df K
  = gathered (create _ FormatClassification_model) classification sched
             (classify_request <$> df) K.
Proof.
  intros HK. unfold classify_reasoning_questions.
  by rewrite Semaphore_ok.
Qed.

Lemma classify_negative sched df K :
  (K < 0)%Z ->
  classify_reasoning_questions create sched df K
  = (Some (Raised (ValueError "Semaphore initial value must be >= 0")), []).
Proof.
  intros HK. unfold classify_reasoning_questions.
  by rewrite Semaphore_negative.
Qed.

Lemma replace_gathered sched df K tasks :
  (0 <= K)%Z -> mapM replace_request df = Returned tasks ->
  replace_reasoning_questions_format create sched df K
  = gathered (create _ UpdatedQuestion_model) updated_question sched tasks K.
Proof.
  intros HK Htasks. unfold replace_reasoning_questions_format.
  by rewrite Semaphore_ok, Htasks.
Qed.

Lemma replace_not_started sched df K :
  (K < 0)%Z \/ (exists e, mapM replace_request df = Raised e) ->
  exists e, replace_reasoning_questions_format create sched df K
            = (Some (Raised e), []).
Proof.
  unfold replace_reasoning_questions_format.
  destruct (Z.lt_ge_cases K 0) as [Hneg|Hpos].
  - intros _. rewrite Semaphore_negative by done. by eexists.
  - intros [Hneg|[e He]]; [lia|].
    rewrite Semaphore_ok, He by done. by eexists.
Qed.

Lemma classify_Returned sched df K l :
  (classify_reasoning_questions create sched df K).1 = Some (Returned l) ->
  (0 <= K)%Z
  /\ first_raised (classify_reasoning_questions create sched df K).2 = None
  /\ Forall2 (classified_as create) df l.
Proof.
  destruct (Z.lt_ge_cases K 0) as [Hneg|Hpos].
  { by rewrite classify_negative. }
  rewrite classify_gathered by done. intros Hl.
  apply gathered_Returned in Hl as [Hall Hnone]; [|done].
  repeat split; try done. by apply Forall2_fmap_l in Hall.
Qed.

Lemma classify_Raised sched df K e :
  (0 <= K)%Z ->
  (classify_reasoning_questions create sched df K).1 = Some (Raised e) ->
  exists row, row ∈ df
    /\ create _ FormatClassification_model (classify_request row) = Raised e.
Proof.
  intros HK. rewrite classify_gathered by done. intros He.
  apply gathered_Raised, first_raised_Some in He as [i Hi]; [|done].
  apply gathered_genuine in Hi as (req & Hreq & Hcall); [|done].
  apply list_lookup_fmap_Some in Hreq as (row & -> & Hrow).
  exists row. split; [by eapply list_elem_of_lookup_2|done].
Qed.

Lemma replace_Returned sched df K l :
  (replace_reasoning_questions_format create sched df K).1 = Some (Returned l) ->
  (0 <= K)%Z
  /\ first_raised (replace_reasoning_questions_format create sched df K).2 = None
  /\ Forall2 (rewritten_as create) df l.
Proof.
  destruct (Z.lt_ge_cases K 0) as [Hneg|Hpos].
  { destruct (replace_not_started sched df K) as [e ->]; [by left|done]. }
  destruct (mapM replace_request df) as [tasks|e0] eqn:Htasks.
  2:{ destruct (replace_not_started sched df K) as [e ->];
        [right; by eexists|done]. }
  rewrite (replace_gathered _ df K tasks) by done. intros Hl.
  apply gathered_Returned in Hl as [Hall Hnone]; [|done].
  repeat split; try done.
  apply mapM_Returned in Htasks.
  apply Forall2_same_length_lookup. split.
  { apply Forall2_length in Htasks, Hall. lia. }
  intros i row q Hrow Hq.
  destruct (Forall2_lookup_l _ _ _ _ _ Htasks Hrow) as (req & Hreq & Hb).
  destruct (Forall2_lookup_l _ _ _ _ _ Hall Hreq) as (q' & Hq' & resp & Hr).
  exists req, resp. destruct Hr. repeat split; congruence.
Qed.

Lemma replace_Raised sched df K e :
  (0 <= K)%Z ->
  (replace_reasoning_questions_format create sched df K).1 = Some (Raised e) ->
  exists row, row ∈ df
    /\ (replace_request row = Raised e
        \/ exists req, replace_request row = Returned req
                       /\ create _ UpdatedQuestion_model req = Raised e).
Proof.
  intros HK.
  destruct (mapM replace_request df) as [tasks|e0] eqn:Htasks.
  - rewrite (replace_gathered _ df K tasks) by done. intros He.
    apply gathered_Raised, first_raised_Some in He as [i Hi]; [|done].
    apply gathered_genuine in Hi as (req & Hreq & Hcall); [|done].
    apply mapM_Returned in Htasks.
    destruct (Forall2_lookup_r _ _ _ _ _ Htasks Hreq) as (row & Hrow & Hb).
    exists row. split; [by eapply list_elem_of_lookup_2|].
    right. by exists req.
  - unfold replace_reasoning_questions_format.
    rewrite Semaphore_ok, Htasks by done. simpl. intros [= ->].
    apply mapM_Raised in Htasks as (row & Hin & Hrow).
    exists row. split; [done|by left].
Qed.

Lemma classified_as_functional row t t' :
  classified_as create row t -> classified_as create row t' -> t = t'.
Proof. intros (r & Hr & <-) (r' & Hr' & <-). congruence. Qed.

Lemma rewritten_as_functional row q q' :
  rewritten_as create row q -> rewritten_as create row q' -> q = q'.
Proof.
  intros (req & r & Hreq & Hr & <-) (req' & r' & Hreq' & Hr' & <-). congruence.
Qed.
End StageFacts.

(** *** Shuffled inputs *)
Lemma permute_lookup {A : Type} (p : list nat) (l : list A) (j : nat) :
  Forall (fun i => i < length l) p ->
  permute p l !! j = p !! j ≫= (l !!.).
Proof.
  intros Hp. revert j. induction Hp as [|i p Hi Hp IH]; intros j; [done|].
  simpl. destruct (lookup_lt_is_Some_2 l i Hi) as [x Hx]. rewrite Hx.
  destruct j as [|j]; simpl; [done|apply IH].
Qed.

Lemma permute_length {A : Type} (p : list nat) (l : list A) :
  Forall (fun i => i < length l) p -> length (permute p l) = length p.
Proof.
  induction 1 as [|i p Hi Hp IH]; [done|].
  simpl. destruct (lookup_lt_is_Some_2 l i Hi) as [x ->]. simpl. by rewrite IH.
Qed.

Lemma permute_elem_of {A : Type} (p : list nat) (l : list A) (x : A) :
  x ∈ permute p l -> x ∈ l.
Proof.
  induction p as [|i p IH]; simpl; [by inversion 1|].
  destruct (l !! i) as [y|] eqn:Hy; [|done].
  intros [->|Hin]%elem_of_cons; [by eapply list_elem_of_lookup_2|by apply IH].
Qed.

Lemma Permutation_seq_bound (p : list nat) (n : nat) :
  p ≡ₚ seq 0 n -> Forall (fun i => i < n) p.
Proof.
  intros Hp. apply Forall_forall. intros i Hi.
  rewrite Hp in Hi. apply elem_of_seq in Hi. lia.
Qed.

(** Results that each row determines follow the rows through a shuffle. *)
Lemma Forall2_permute {A B : Type} (P : A -> B -> Prop)
    (p : list nat) (df : list A) (l l' : list B) :
  (forall x y y', P x y -> P x y' -> y = y') ->
  Forall (fun i => i < length df) p ->
  Forall2 P df l -> Forall2 P (permute p df) l' ->
  l' = permute p l.
Proof.
  intros Hfun Hp Hl Hl'.
  pose proof (Forall2_length _ _ _ Hl) as Hlen.
  apply list_eq. intros j.
  rewrite (permute_lookup p l) by (by rewrite <- Hlen).
  destruct (p !! j) as [i|] eqn:Hj; simpl.
  - pose proof (proj1 (Forall_lookup _ _) Hp j i Hj) as Hi. simpl in Hi.
    destruct (lookup_lt_is_Some_2 df i Hi) as [x Hx].
    destruct (Forall2_lookup_l _ _ _ _ _ Hl Hx) as (y & Hy & Pxy).
    assert (permute p df !! j = Some x) as Hx'
      by (by rewrite permute_lookup, Hj by done).
    destruct (Forall2_lookup_l _ _ _ _ _ Hl' Hx') as (y' & Hy' & Pxy').
    rewrite Hy, Hy'. f_equal. by eapply Hfun.
  - apply lookup_ge_None. apply lookup_ge_None in Hj.
    rewrite <- (Forall2_length _ _ _ Hl'), permute_length by done. done.
Qed.

End ReasoningFacts.

(** ** More about the runs of the two stages *)
Module CallLogFacts.
Import Reasoning GatherSpec Mock CallLog GatherFacts ReasoningFacts.

Section Log.
Context {R : Type}.
Variable create : request -> outcome R.
Variable coros : list request.

Local Abbreviation log_inv := (log_inv coros).

Lemma issued_app (t1 t2 : list (event R)) :
  issued (t1 ++ t2) = issued t1 ++ issued t2.
Proof. induction t1 as [|[i req|i o] t1 IH]; simpl; by rewrite ?IH. Qed.

Lemma completed_app (t1 t2 : list (event R)) :
  completed (t1 ++ t2) = completed t1 ++ completed t2.
Proof. induction t1 as [|[i req|i o] t1 IH]; simpl; by rewrite ?IH. Qed.

Lemma in_flight_count (t : list (event R)) :
  in_flight t
  = (Z.of_nat (length (issued t)) - Z.of_nat (length (completed t)))%Z.
Proof. induction t as [|[i req|i o] t IH]; simpl; lia. Qed.

Lemma NoDup_snoc (l : list nat) (i : nat) : NoDup l -> i ∉ l -> NoDup (l ++ [i]).
Proof.
  intros Hl Hi. apply NoDup_app. split; [done|]. split.
  - intros x Hx Hx'. apply list_elem_of_singleton in Hx' as ->. done.
  - apply NoDup_singleton.
Qed.

Lemma gather_init_log (K : Z) : log_inv (gather_init (R := R) coros K).
Proof.
  constructor; simpl.
  - apply length_replicate.
  - constructor.
  - constructor.
  - intros i. split; [by inversion 1|].
    intros [H|[o H]]; apply lookup_replicate in H as [? _]; done.
  - intros i. split; [by inversion 1|].
    intros [o H]. apply lookup_replicate in H as [? _]. done.
Qed.

Lemma step_task_log (i : nat) (st : gather_state R) :
  log_inv st -> log_inv (step_task create coros i st).
Proof.
  intros [Hlen Hi Hc Hiss Hcom]. unfold step_task.
  destruct (tasks st !! i) as [[| |o]|] eqn:Ht; try done;
    destruct (coros !! i) as [req|] eqn:Hreq; try done.
  - destruct (0 <? sem_value st)%Z; [|done].
    pose proof (lookup_lt_Some _ _ _ Ht) as Hlt.
    assert (i ∉ issued (trace st)) as Hfresh.
    { rewrite Hiss, Ht. intros [?|[o ?]]; done. }
    constructor; simpl; rewrite ?issued_app, ?completed_app; simpl;
      rewrite ?app_nil_r.
    + by rewrite length_insert.
    + by apply NoDup_snoc.
    + done.
    + intros j. rewrite elem_of_app, list_elem_of_singleton, Hiss.
      destruct (decide (i = j)) as [->|Hne].
      * rewrite list_lookup_insert_eq by done. split; [by left|by right].
      * rewrite list_lookup_insert_ne by done. split; [|by left].
        by intros [?|?].
    + intros j. rewrite Hcom. destruct (decide (i = j)) as [->|Hne].
      * rewrite list_lookup_insert_eq, Ht by done. split; intros [o ?]; done.
      * by rewrite list_lookup_insert_ne.
  - pose proof (lookup_lt_Some _ _ _ Ht) as Hlt.
    assert (i ∉ completed (trace st)) as Hfresh.
    { rewrite Hcom, Ht. intros [o ?]. done. }
    constructor; simpl; rewrite ?issued_app, ?completed_app; simpl;
      rewrite ?app_nil_r.
    + by rewrite length_insert.
    + done.
    + by apply NoDup_snoc.
    + intros j. rewrite Hiss. destruct (decide (i = j)) as [->|Hne].
      * rewrite list_lookup_insert_eq, Ht by done.
        split; [intros _; right; by eexists|intros _; by left].
      * by rewrite list_lookup_insert_ne.
    + intros j. rewrite elem_of_app, list_elem_of_singleton, Hcom.
      destruct (decide (i = j)) as [->|Hne].
      * rewrite list_lookup_insert_eq by done. split; [by eexists|by right].
      * rewrite list_lookup_insert_ne by done. split; [|by left].
        by intros [?|?].
Qed.

Lemma run_log (sched : list nat) (st : gather_state R) :
  log_inv st -> log_inv (run create coros sched st).
Proof.
  revert st. induction sched as [|i sched IH]; intros st Hinv; simpl; [done|].
  apply IH. by apply step_task_log.
Qed.

Lemma NoDup_seq_Permutation (l : list nat) (n : nat) :
  NoDup l -> (forall i, i ∈ l <-> i < n) -> l ≡ₚ seq 0 n.
Proof.
  intros Hl Hin. apply NoDup_Permutation; [done|apply NoDup_seq|].
  intros i. rewrite Hin, elem_of_seq. lia.
Qed.

Lemma issued_bound (st : gather_state R) (i : nat) :
  log_inv st -> i ∈ issued (trace st) -> i < length coros.
Proof.
  intros Hinv Hi. rewrite <- (log_length _ _ Hinv).
  apply (log_issued _ _ Hinv) in Hi as [Hi|[o Hi]];
    by eapply lookup_lt_Some.
Qed.

Lemma completed_issued (st : gather_state R) (i : nat) :
  log_inv st -> i ∈ completed (trace st) -> i ∈ issued (trace st).
Proof.
  intros Hinv Hi. apply (log_issued _ _ Hinv). right.
  by apply (log_completed _ _ Hinv).
Qed.

(** When [gather] returns a list every coroutine has finished. *)
Lemma gather_result_finished (st : gather_state R) (l : list R) (i : nat) :
  gather_result st = Some (Returned l) -> i < length (tasks st) ->
  exists r, tasks st !! i = Some (Finished (Returned r)).
Proof.
  unfold gather_result. destruct (first_exception st); [discriminate|].
  destruct (mapM finished_value (tasks st)) as [l'|] eqn:Hm; [|discriminate].
  intros _ Hi. apply mapM_Some in Hm.
  destruct (lookup_lt_is_Some_2 _ _ Hi) as [t Ht].
  destruct (Forall2_lookup_l _ _ _ _ _ Hm Ht) as (r & _ & Hr).
  exists r. destruct t as [| |[r'|e]]; simpl in Hr; try discriminate.
  by injection Hr as ->.
Qed.

Lemma gather_result_log (st : gather_state R) (l : list R) :
  log_inv st -> gather_result st = Some (Returned l) ->
  issued (trace st) ≡ₚ seq 0 (length coros)
  /\ completed (trace st) ≡ₚ seq 0 (length coros)
  /\ in_flight (trace st) = 0%Z.
Proof.
  intros Hinv Hl.
  assert (forall i, i < length coros ->
            exists o, tasks st !! i = Some (Finished o)) as Hfin.
  { intros i Hi. rewrite <- (log_length _ _ Hinv) in Hi.
    destruct (gather_result_finished st l i Hl Hi) as [r Hr]. by eexists. }
  assert (issued (trace st) ≡ₚ seq 0 (length coros)) as Hiss.
  { apply NoDup_seq_Permutation; [apply (log_issued_once _ _ Hinv)|].
    intros i. split; [by apply issued_bound|].
    intros Hi. apply (log_issued _ _ Hinv). right. by apply Hfin. }
  assert (completed (trace st) ≡ₚ seq 0 (length coros)) as Hcom.
  { apply NoDup_seq_Permutation; [apply (log_completed_once _ _ Hinv)|].
    intros i. split.
    - intros Hi. by apply (issued_bound st), completed_issued.
    - intros Hi. apply (log_completed _ _ Hinv). by apply Hfin. }
  repeat split; try done.
  rewrite in_flight_count, Hiss, Hcom. lia.
Qed.

(** Without coroutines there is nothing to run. *)
Lemma run_no_tasks (sched : list nat) (st : gather_state R) :
  coros = [] -> run create coros sched st = st.
Proof.
  intros ->. revert st. induction sched as [|i sched IH]; intros st; [done|].
  change (run create [] (i :: sched) st)
    with (run create [] sched (step_task create [] i st)).
  assert (step_task create [] i st = st) as ->; [|apply IH].
  unfold step_task. rewrite lookup_nil.
  by destruct (tasks st !! i) as [[| |?]|].
Qed.

(** Without a slot no coroutine ever leaves the semaphore's queue. *)
Lemma run_no_slot (sched : list nat) :
  run create coros sched (gather_init coros 0) = gather_init coros 0.
Proof.
  induction sched as [|i sched IH]; [done|].
  change (run create coros (i :: sched) (gather_init coros 0))
    with (run create coros sched
            (step_task create coros i (gather_init coros 0))).
  assert (step_task create coros i (gather_init coros 0)
          = gather_init coros 0) as ->; [|apply IH].
  unfold step_task. simpl.
  destruct (replicate (length coros) Pending !! i) as [t|] eqn:Ht; [|done].
  apply lookup_replicate in Ht as [-> _].
  by destruct (coros !! i).
Qed.

Lemma gather_result_waiting (K : Z) :
  coros <> [] -> gather_result (gather_init (R := R) coros K) = None.
Proof.
  intros Hne. unfold gather_result. simpl.
  destruct coros as [|req coros']; [done|]. done.
Qed.

(** *** A result, once there, stays *)
Lemma gather_result_step (i : nat) (st : gather_state R) o :
  gather_result st = Some o ->
  gather_result (step_task create coros i st) = Some o.
Proof.
  unfold gather_result.
  destruct (first_exception st) as [e|] eqn:Hfe.
  - intros [= <-]. unfold step_task.
    destruct (tasks st !! i) as [[| |?]|]; destruct (coros !! i);
      try destruct (0 <? sem_value st)%Z; simpl; by rewrite ?Hfe.
  - destruct (mapM finished_value (tasks st)) as [l|] eqn:Hm; [|discriminate].
    intros [= <-]. apply mapM_Some in Hm.
    assert (step_task create coros i st = st) as ->.
    { unfold step_task. destruct (tasks st !! i) as [t|] eqn:Ht; [|done].
      destruct (Forall2_lookup_l _ _ _ _ _ Hm Ht) as (r & _ & Hr).
      destruct t as [| |[r'|e]]; simpl in Hr; try discriminate.
      destruct (coros !! i); done. }
    rewrite Hfe. apply mapM_Some in Hm. by rewrite Hm.
Qed.

Lemma gather_result_run (sched : list nat) (st : gather_state R) o :
  gather_result st = Some o ->
  gather_result (run create coros sched st) = Some o.
Proof.
  revert st. induction sched as [|i sched IH]; intros st Ho; [done|].
  simpl. by apply IH, gather_result_step.
Qed.

(** *** The slots of the semaphore *)
Lemma count_in_flight_finished (ts : list (task_state R)) :
  Forall (fun t => is_finished t = true) ts -> count_in_flight ts = 0%Z.
Proof.
  induction 1 as [|t ts Ht _ IH]; [done|].
  destruct t; simpl in *; try discriminate. done.
Qed.

(** *** The fifo schedule *)
Lemma fifo_trace_snoc (j : nat) (reqs : list request) (req : request) :
  fifo_trace create j (reqs ++ [req])
  = fifo_trace create j reqs
    ++ [Issued (j + length reqs) req;
        Completed (j + length reqs) (create req)].
Proof.
  revert j. induction reqs as [|r reqs IH]; intros j; simpl.
  - by rewrite Nat.add_0_r.
  - rewrite IH. by replace (S j + length reqs) with (j + S (length reqs)) by lia.
Qed.

Lemma run_fifo_trace (K : Z) (i : nat) :
  (0 < K)%Z -> i <= length coros ->
  trace (run create coros (fifo_schedule i) (gather_init coros K))
  = fifo_trace create 0 (take i coros).
Proof.
  intros HK. induction i as [|i IH]; intros Hi.
  - by rewrite take_0.
  - destruct (lookup_lt_is_Some_2 coros i) as [req Hreq]; [lia|].
    pose proof (run_fifo create coros K i HK ltac:(lia)) as [Hts Hsem].
    rewrite fifo_schedule_S, run_app.
    set (st := run create coros (fifo_schedule i) (gather_init coros K)) in *.
    assert (tasks st !! i = Some Pending) as Hpending
      by (rewrite Hts; apply fifo_tasks_lookup; lia).
    simpl. rewrite (step_task_acquire create coros i st req) by (done || lia).
    rewrite (step_task_complete create coros i _ req); simpl;
      [|by apply list_lookup_insert_eq; eapply lookup_lt_Some|done].
    rewrite IH by lia. rewrite (take_S_r _ _ _ Hreq), fifo_trace_snoc.
    rewrite length_take, <- app_assoc. simpl.
    by replace (i `min` length coros) with i by lia.
Qed.

Lemma first_raised_fifo_trace (j : nat) (reqs : list request) :
  first_raised (fifo_trace create j reqs)
  = match mapM create reqs with
    | Returned _ => None
    | Raised e => Some e
    end.
Proof.
  revert j. induction reqs as [|req reqs IH]; intros j; simpl; [done|].
  unfold mbind, outcome_bind, mret, outcome_ret.
  destruct (create req) as [r|e]; [|done].
  rewrite IH. by destruct (mapM create reqs).
Qed.

(** Under the fifo schedule [gather] resolves as the calls made one after
    the other do. *)
Lemma run_fifo_result (K : Z) :
  (0 < K)%Z ->
  gather_result (run create coros (fifo_schedule (length coros))
                     (gather_init coros K))
  = Some (mapM create coros).
Proof.
  intros HK.
  set (st := run create coros (fifo_schedule (length coros))
                 (gather_init coros K)).
  assert (gather_inv create coros K st) as Hinv
    by (apply run_inv, gather_init_inv; lia).
  pose proof (run_fifo_trace K (length coros) HK ltac:(lia)) as Htr.
  rewrite firstn_all in Htr. fold st in Htr.
  destruct (run_fifo_resolved create coros K HK) as [o Ho]. fold st in Ho.
  rewrite Ho. f_equal. destruct o as [l|e].
  - apply (gather_result_Returned create coros K) in Ho as [Hall _]; [|done].
    symmetry. by apply mapM_Returned.
  - apply (gather_result_Raised create coros K) in Ho; [|done].
    rewrite Htr, first_raised_fifo_trace in Ho.
    destruct (mapM create coros); congruence.
Qed.

(** *** Draining a run *)
Lemma not_in_flight_count (ts : list (task_state R)) :
  Forall (fun t => t <> InFlight) ts -> count_in_flight ts = 0%Z.
Proof.
  induction 1 as [|t ts Ht _ IH]; [done|].
  destruct t; simpl in *; done.
Qed.

Lemma step_task_idle (i : nat) (st : gather_state R) :
  match tasks st !! i with
  | Some Pending | Some InFlight => False
  | _ => True
  end ->
  step_task create coros i st = st.
Proof.
  unfold step_task.
  destruct (tasks st !! i) as [[| |o]|]; try done; by destruct (coros !! i).
Qed.

(** Resuming coroutine [i] twice: a call in flight comes back, a waiting
    coroutine with a free slot sends and receives, and nothing else moves. *)
Lemma pair_step_tasks (i : nat) (st : gather_state R) :
  length (tasks st) = length coros ->
  match tasks st !! i with
  | Some InFlight =>
      exists o, tasks (run create coros [i; i] st) = <[i := Finished o]> (tasks st)
  | Some Pending =>
      if (0 <? sem_value st)%Z
      then exists o,
             tasks (run create coros [i; i] st) = <[i := Finished o]> (tasks st)
      else run create coros [i; i] st = st
  | _ => run create coros [i; i] st = st
  end.
Proof.
  intros Hlen.
  change (run create coros [i; i] st)
    with (step_task create coros i (step_task create coros i st)).
  destruct (tasks st !! i) as [t|] eqn:Ht.
  2:{ rewrite !(step_task_idle i st); by rewrite ?Ht. }
  pose proof (lookup_lt_Some _ _ _ Ht) as Hlt.
  destruct (lookup_lt_is_Some_2 coros i) as [req Hreq]; [lia|].
  destruct t as [| |o].
  - destruct (0 <? sem_value st)%Z eqn:Hsem.
    + apply Z.ltb_lt in Hsem.
      rewrite (step_task_acquire create coros i st req) by done.
      rewrite (step_task_complete create coros i _ req); simpl;
        [|by apply list_lookup_insert_eq|done].
      exists (create req). by rewrite list_insert_insert_eq.
    + apply Z.ltb_ge in Hsem.
      by rewrite !(step_task_blocked create coros i st).
  - rewrite (step_task_complete create coros i st req) by done.
    exists (create req).
    rewrite step_task_idle; [done|].
    simpl. by rewrite list_lookup_insert_eq.
  - rewrite !(step_task_idle i st); by rewrite ?Ht.
Qed.

(** After a first round no call is in flight. *)
Lemma run_fifo_lands (K : Z) (st0 : gather_state R) (i : nat) :
  gather_inv create coros K st0 -> i <= length coros ->
  forall j, j < i ->
    tasks (run create coros (fifo_schedule i) st0) !! j <> Some InFlight.
Proof.
  intros Hinv0. induction i as [|i IH]; intros Hi j Hj; [lia|].
  rewrite fifo_schedule_S, run_app.
  set (st := run create coros (fifo_schedule i) st0) in *.
  assert (gather_inv create coros K st) as Hinv by by apply run_inv.
  pose proof (pair_step_tasks i st (inv_length _ _ _ _ Hinv)) as Hpair.
  destruct (tasks st !! i) as [[| |o]|] eqn:Ht.
  - destruct (0 <? sem_value st)%Z.
    + destruct Hpair as [o ->]. destruct (decide (i = j)) as [->|Hne].
      * rewrite list_lookup_insert_eq by by eapply lookup_lt_Some. done.
      * rewrite list_lookup_insert_ne by done. apply IH; lia.
    + rewrite Hpair. destruct (decide (i = j)) as [->|Hne];
        [by rewrite Ht|apply IH; lia].
  - destruct Hpair as [o ->]. destruct (decide (i = j)) as [->|Hne].
    + rewrite list_lookup_insert_eq by by eapply lookup_lt_Some. done.
    + rewrite list_lookup_insert_ne by done. apply IH; lia.
  - rewrite Hpair. destruct (decide (i = j)) as [->|Hne];
      [by rewrite Ht|apply IH; lia].
  - rewrite Hpair. destruct (decide (i = j)) as [->|Hne];
      [by rewrite Ht|apply IH; lia].
Qed.

(** With no call in flight and a slot to give, a second round finishes
    every coroutine. *)
Lemma run_fifo_finishes (K : Z) (st1 : gather_state R) (i : nat) :
  (0 < K)%Z -> gather_inv create coros K st1 ->
  Forall (fun t => t <> InFlight) (tasks st1) ->
  i <= length coros ->
  Forall (fun t => t <> InFlight)
    (tasks (run create coros (fifo_schedule i) st1))
  /\ forall j, j < i ->
       exists o, tasks (run create coros (fifo_schedule i) st1) !! j
                 = Some (Finished o).
Proof.
  intros HK Hinv1 Hland. induction i as [|i IH]; intros Hi.
  { split; [done|]. intros j Hj. lia. }
  destruct IH as [Hnone Hdone]; [lia|].
  rewrite fifo_schedule_S, run_app.
  set (st := run create coros (fifo_schedule i) st1) in *.
  assert (gather_inv create coros K st) as Hinv by by apply run_inv.
  pose proof (inv_length _ _ _ _ Hinv) as Hlen.
  pose proof (pair_step_tasks i st Hlen) as Hpair.
  assert (0 < sem_value st)%Z as Hsem.
  { pose proof (inv_sem _ _ _ _ Hinv) as Hs.
    rewrite (not_in_flight_count _ Hnone) in Hs. lia. }
  destruct (lookup_lt_is_Some_2 (tasks st) i) as [t Ht]; [lia|].
  rewrite Ht in Hpair.
  assert (forall o, tasks (run create coros [i; i] st)
                    = <[i := Finished o]> (tasks st) ->
          Forall (fun t => t <> InFlight) (tasks (run create coros [i; i] st))
          /\ forall j, j < S i ->
               exists o', tasks (run create coros [i; i] st) !! j
                          = Some (Finished o')) as Hmoved.
  { intros o ->. split.
    - apply Forall_insert; done.
    - intros j Hj. destruct (decide (i = j)) as [->|Hne].
      + exists o. apply list_lookup_insert_eq. lia.
      + rewrite list_lookup_insert_ne by done. apply Hdone. lia. }
  destruct t as [| |o].
  - apply Z.ltb_lt in Hsem. rewrite Hsem in Hpair.
    destruct Hpair as [o Ho]. by apply (Hmoved o).
  - destruct Hpair as [o Ho]. by apply (Hmoved o).
  - rewrite Hpair. split; [done|].
    intros j Hj. destruct (decide (i = j)) as [->|Hne];
      [by exists o|apply Hdone; lia].
Qed.

(** With at least one slot, a run can always be brought to [gather]'s
    result. *)
Lemma run_drain_resolved (K : Z) (sched : list nat) :
  (0 < K)%Z ->
  is_Some (gather_result
             (run create coros (sched ++ drain (length coros))
                  (gather_init coros K))).
Proof.
  intros HK. unfold drain. rewrite !run_app.
  set (st0 := run create coros sched (gather_init coros K)).
  assert (gather_inv create coros K st0) as Hinv0
    by (apply run_inv, gather_init_inv; lia).
  set (st1 := run create coros (fifo_schedule (length coros)) st0).
  assert (gather_inv create coros K st1) as Hinv1 by by apply run_inv.
  assert (Forall (fun t => t <> InFlight) (tasks st1)) as Hland.
  { apply Forall_lookup. intros j t Ht ->.
    pose proof (lookup_lt_Some _ _ _ Ht) as Hj.
    rewrite (inv_length _ _ _ _ Hinv1) in Hj.
    by apply (run_fifo_lands K st0 (length coros) Hinv0 ltac:(lia) j Hj). }
  destruct (run_fifo_finishes K st1 (length coros) HK Hinv1 Hland ltac:(lia))
    as [_ Hdone].
  apply (gather_result_resolved create coros K); [by apply run_inv|].
  apply Forall_lookup. intros j t Ht.
  pose proof (lookup_lt_Some _ _ _ Ht) as Hj.
  rewrite (inv_length _ _ _ _ (run_inv create coros K _ _ Hinv1)) in Hj.
  destruct (Hdone j Hj) as [o Ho]. exists o. congruence.
Qed.
End Log.

Section GatheredLog.
Context {R A : Type}.
Variable call : request -> outcome R.
Variable proj : R -> A.

Lemma calls_once_not_started (n : nat) (o : option (outcome (list A))) :
  (forall l, o <> Some (Returned l)) ->
  calls_once (R := R) n (o, []).
Proof.
  intros Ho. unfold calls_once. simpl.
  split; [constructor|]. split; [constructor|].
  split; [intros i; by inversion 1|]. split; [intros i; by inversion 1|].
  intros l Hl. by apply Ho in Hl.
Qed.

Lemma gathered_calls_once sched coros K :
  calls_once (length coros) (gathered call proj sched coros K).
Proof.
  assert (log_inv coros (run call coros sched (gather_init coros K))) as Hinv
    by apply (run_log call coros), gather_init_log.
  unfold calls_once. simpl. split; [apply (log_issued_once _ _ Hinv)|].
  split; [apply (log_completed_once _ _ Hinv)|].
  split; [intros i; by apply (completed_issued coros)|].
  split; [intros i; by apply (issued_bound coros)|].
  intros l Hl.
  destruct (gather_result _) as [[l0|e]|] eqn:Hg; simpl in Hl; try discriminate.
  by apply (gather_result_log coros _ l0).
Qed.

Lemma gathered_final s1 s2 coros K o :
  (gathered call proj s1 coros K).1 = Some o ->
  (gathered call proj (s1 ++ s2) coros K).1 = Some o.
Proof.
  simpl. rewrite run_app.
  destruct (gather_result (run call coros s1 _)) as [o'|] eqn:Hg;
    [|discriminate].
  intros Ho. by rewrite (gather_result_run call coros s2 _ o' Hg).
Qed.

Lemma gathered_no_slot sched coros :
  coros <> [] -> gathered call proj sched coros 0 = (None, []).
Proof.
  intros Hne. unfold gathered.
  by rewrite run_no_slot, gather_result_waiting.
Qed.

Lemma gathered_empty sched K :
  gathered call proj sched [] K = (Some (Returned []), []).
Proof. unfold gathered. by rewrite run_no_tasks. Qed.

Lemma gathered_drain sched coros K :
  (0 < K)%Z ->
  is_Some (gathered call proj (sched ++ drain (length coros)) coros K).1.
Proof.
  intros HK. simpl.
  destruct (run_drain_resolved call coros K sched HK) as [o ->]. by eexists.
Qed.

Lemma gathered_slots sched coros K :
  (0 <= K)%Z ->
  let st := run call coros sched (gather_init coros K) in
  (0 <= sem_value st <= K)%Z
  /\ sem_value st = (K - in_flight (trace st))%Z
  /\ (Forall (fun t => is_finished t = true) (tasks st) -> sem_value st = K).
Proof.
  intros HK st.
  assert (gather_inv call coros K st) as Hinv
    by by apply run_inv, gather_init_inv.
  pose proof (inv_sem _ _ _ _ Hinv) as Hsem.
  pose proof (inv_nonneg _ _ _ _ Hinv) as Hnn.
  pose proof (inv_flight _ _ _ _ Hinv) as Hfl.
  pose proof (count_in_flight_nonneg (tasks st)) as Hc.
  split; [lia|]. split; [lia|].
  intros Hfin. rewrite (count_in_flight_finished _ Hfin) in Hsem. lia.
Qed.

Lemma gathered_fifo coros K :
  (0 < K)%Z ->
  gathered call proj (fifo_schedule (length coros)) coros K
  = (Some (fmap (M := outcome) (map proj) (mapM call coros)),
     fifo_trace call 0 coros).
Proof.
  intros HK. unfold gathered.
  rewrite run_fifo_result by done.
  pose proof (run_fifo_trace call coros K (length coros) HK ltac:(lia)) as ->.
  by rewrite firstn_all.
Qed.
End GatheredLog.

Section Drained.
Variable create : forall R : Type, response_model R -> request -> outcome R.

(** With a slot to give and every call answered, a drained run of the
    classify stage returns the labels of the replies, in record order. *)
Lemma classify_drained sched df K l :
  (0 < K)%Z -> Forall2 (classified_as create) df l ->
  (classify_reasoning_questions create (sched ++ drain (length df)) df K).1
  = Some (Returned l).
Proof.
  intros HK Hall.
  assert (is_Some (classify_reasoning_questions create
                     (sched ++ drain (length df)) df K).1) as [o Ho].
  { rewrite classify_gathered by lia.
    rewrite <- (length_fmap classify_request df). by apply gathered_drain. }
  rewrite Ho. f_equal. destruct o as [l'|e].
  - apply classify_Returned in Ho as (_ & _ & Hall'). f_equal.
    eapply Forall2_unique; eauto using classified_as_functional.
  - apply classify_Raised in Ho as (row & Hin & Hrow); [|lia].
    apply list_elem_of_lookup in Hin as [i Hi].
    destruct (Forall2_lookup_l _ _ _ _ _ Hall Hi) as (t & _ & resp & Hresp & _).
    congruence.
Qed.

Lemma replace_drained sched df K l :
  (0 < K)%Z -> Forall2 (rewritten_as create) df l ->
  (replace_reasoning_questions_format create (sched ++ drain (length df))
     df K).1
  = Some (Returned l).
Proof.
  intros HK Hall.
  assert (is_Some (replace_reasoning_questions_format create
                     (sched ++ drain (length df)) df K).1) as [o Ho].
  { destruct (mapM replace_request df) as [tasks|e] eqn:Htasks.
    - rewrite (replace_gathered create _ df K tasks) by (done || lia).
      apply mapM_Returned, Forall2_length in Htasks. rewrite Htasks.
      by apply gathered_drain.
    - unfold replace_reasoning_questions_format.
      rewrite Semaphore_ok, Htasks by lia. by eexists. }
  rewrite Ho. f_equal. destruct o as [l'|e].
  - apply replace_Returned in Ho as (_ & _ & Hall'). f_equal.
    eapply Forall2_unique; eauto using rewritten_as_functional.
  - apply replace_Raised in Ho as (row & Hin & Hrow); [|lia].
    apply list_elem_of_lookup in Hin as [i Hi].
    destruct (Forall2_lookup_l _ _ _ _ _ Hall Hi)
      as (t & _ & req & resp & Hreq & Hresp & _).
    destruct Hrow as [Hrow|(req' & Hreq' & Hrow)]; congruence.
Qed.
End Drained.

(** Shuffling the records and their results alike keeps them paired. *)
Lemma Forall2_permute_both {A B : Type} (P : A -> B -> Prop)
    (p : list nat) (l : list A) (k : list B) :
  Forall2 P l k -> Forall2 P (permute p l) (permute p k).
Proof.
  intros Hall. induction p as [|i p IH]; simpl; [constructor|].
  destruct (l !! i) as [x|] eqn:Hx.
  - destruct (Forall2_lookup_l _ _ _ _ _ Hall Hx) as (y & -> & Hxy).
    by constructor.
  - destruct (k !! i) as [y|] eqn:Hy; [|done].
    destruct (Forall2_lookup_r _ _ _ _ _ Hall Hy) as (x & Hx' & _).
    congruence.
Qed.
End CallLogFacts.

(** ** The claims about reasoning.py *)
Module ReasoningClaims.
Import Reasoning GatherSpec Mock CallLog GatherFacts ReasoningFacts CallLogFacts.

(** C1. The specification wants the label-to-template mapping total over
    every label the classifier can emit, [OTHER] included. In the code
    [OTHER] is a member of the enumeration, and every other member has a
    template, but [format_mapping] has no entry for [OTHER]: the rewriter's
    lookup [format_mapping[row.classification.name]] raises [KeyError] there. *)
Theorem format_mapping_lacks_OTHER :
  OTHER ∈ FormatType_members
  /\ (forall t, t ∈ FormatType_members -> t <> OTHER ->
                is_Some (format_mapping !! name t))
  /\ format_mapping !! name OTHER = None
  /\ getitem format_mapping (name OTHER) = Raised (KeyError "OTHER")
  /\ replace_request (crow "What is 1 + 1?" OTHER) = Raised (KeyError "OTHER").
Proof.
  split; [unfold FormatType_members; repeat constructor|].
  split.
  - intros t _ Ht. pose proof (getitem_format_mapping t) as H.
    unfold getitem in H.
    destruct (format_mapping !! name t); [by eexists|].
    destruct t; try discriminate. done.
  - pose proof (getitem_format_mapping OTHER) as H. unfold getitem in H.
    destruct (format_mapping !! name OTHER) eqn:Hl; [discriminate|].
    split; [done|]. split.
    + unfold getitem. by rewrite Hl.
    + by apply replace_request_label.
Qed.

Section Claims.
Variable create : forall R : Type, response_model R -> request -> outcome R.

(** C2. Batch failure is all-or-nothing, for the classify and for the
    rewrite stage, under every schedule of the event loop: once the call of
    any record has failed, the stage has failed, with the exception of the
    first call that failed; a list is returned only when the call of every
    record has succeeded (no call has failed, and each element is the reply
    to its record); and unless the semaphore has no slot at all, the stage
    does come to a result under the fifo schedule. *)
Theorem batch_failure_all_or_nothing
    (sched : list nat) (dfq : list question_row) (dfc : list classified_row)
    (K : Z) :
  let c := classify_reasoning_questions create sched dfq K in
  let r := replace_reasoning_questions_format create sched dfc K in
  (forall i e, Completed i (Raised e) ∈ c.2 ->
     exists e', c.1 = Some (Raised e') /\ first_raised c.2 = Some e')
  /\ (forall i e, Completed i (Raised e) ∈ r.2 ->
        exists e', r.1 = Some (Raised e') /\ first_raised r.2 = Some e')
  /\ (forall l, c.1 = Some (Returned l) ->
        first_raised c.2 = None /\ Forall2 (classified_as create) dfq l)
  /\ (forall l, r.1 = Some (Returned l) ->
        first_raised r.2 = None /\ Forall2 (rewritten_as create) dfc l)
  /\ (K <> 0%Z ->
      is_Some (classify_reasoning_questions create
                 (fifo_schedule (length dfq)) dfq K).1
      /\ is_Some (replace_reasoning_questions_format create
                    (fifo_schedule (length dfc)) dfc K).1).
Proof.
  intros c r.
  assert (forall l, c.1 = Some (Returned l) ->
            first_raised c.2 = None /\ Forall2 (classified_as create) dfq l)
    as Hc by (intros l Hl; by apply classify_Returned in Hl as (_ & ? & ?)).
  assert (forall l, r.1 = Some (Returned l) ->
            first_raised r.2 = None /\ Forall2 (rewritten_as create) dfc l)
    as Hr by (intros l Hl; by apply replace_Returned in Hl as (_ & ? & ?)).
  subst c r.
  destruct (Z.lt_ge_cases K 0) as [Hneg|Hpos].
  - (* the semaphore is refused: nothing runs *)
    clear Hc Hr. rewrite !classify_negative by done.
    destruct (replace_not_started create sched dfc K) as [e1 ->]; [by left|].
    destruct (replace_not_started create (fifo_schedule (length dfc)) dfc K)
      as [e2 ->]; [by left|].
    simpl. repeat split; try (intros ? ? H; inversion H); try discriminate;
      by eexists.
  - split.
    { rewrite classify_gathered by done.
      intros i e. by apply gathered_failed_call. }
    split; [|split; [exact Hc|split; [exact Hr|]]]; clear Hc Hr.
    + destruct (mapM replace_request dfc) as [tasks|e0] eqn:Htasks.
      * rewrite (replace_gathered create _ dfc K tasks) by done.
        intros i e. by apply gathered_failed_call.
      * destruct (replace_not_started create sched dfc K) as [e1 ->];
          [right; by eexists|].
        intros ? ? H; inversion H.
    + intros HK. assert (0 < K)%Z as HK' by lia. split.
      * rewrite classify_gathered, <- (length_fmap classify_request dfq) by done.
        by apply gathered_fifo_resolved.
      * destruct (mapM replace_request dfc) as [tasks|e0] eqn:Htasks.
        -- rewrite (replace_gathered create _ dfc K tasks) by done.
           apply mapM_Returned, Forall2_length in Htasks. rewrite Htasks.
           by apply gathered_fifo_resolved.
        -- destruct (replace_not_started create
                       (fifo_schedule (length dfc)) dfc K) as [e2 ->];
             [right; by eexists|by eexists].
Qed.

(** C3. With a bound [K] that the semaphore accepts, at no point of a run
    of the classify or of the rewrite stage, whatever the schedule, are more
    than [K] calls in flight; and a coroutine that would be the [K+1]-th
    stays suspended, entering (and sending its request) only once fewer
    than [K] calls are in flight, that is after a release. *)
Theorem concurrency_bound
    (sched : list nat) (dfq : list question_row) (dfc : list classified_row)
    (K : Z) :
  (0 <= K)%Z ->
  bounded K (classify_reasoning_questions create sched dfq K).2
  /\ bounded K (replace_reasoning_questions_format create sched dfc K).2
  /\ (forall (R : Type) (call : request -> outcome R) (coros : list request)
             (i : nat) (req : request),
        let st := run call coros sched (gather_init coros K) in
        tasks st !! i = Some Pending -> coros !! i = Some req ->
        (in_flight (trace st) = K -> step_task call coros i st = st)
        /\ ((in_flight (trace st) < K)%Z ->
            tasks (step_task call coros i st) !! i = Some InFlight
            /\ trace (step_task call coros i st) = trace st ++ [Issued i req])).
Proof.
  intros HK. split; [|split].
  - rewrite classify_gathered by done. by apply gathered_bounded.
  - destruct (mapM replace_request dfc) as [tasks|e0] eqn:Htasks.
    + rewrite (replace_gathered create _ dfc K tasks) by done.
      by apply gathered_bounded.
    + destruct (replace_not_started create sched dfc K) as [e1 ->];
        [right; by eexists|].
      intros t' Ht'. apply prefix_nil_inv in Ht' as ->. simpl. lia.
  - intros R call coros i req st Hpending Hreq.
    assert (gather_inv call coros K st) as Hinv
      by (by apply run_inv, gather_init_inv).
    destruct Hinv as [Hlen Hsem _ Hfl _ _ _ _ _].
    split; intros Hfull.
    + apply step_task_blocked; [done|lia].
    + rewrite (step_task_acquire call coros i st req) by (done || lia).
      simpl. split; [|done].
      apply list_lookup_insert_eq. by eapply lookup_lt_Some.
Qed.

(** C4. For a client that answers every record, with at least one slot.
    Each stage, run under any schedule and drained, returns the list of the
    replies, its i-th element the reply to the i-th record whatever the
    completion order; run again on the records shuffled by a permutation [p]
    of their indices, under any other schedule, it returns the same results
    shuffled by [p]: every record keeps its result. And under whatever
    schedule, drained or not, a run can return no other list and cannot
    raise. *)
Theorem order_independence
    (sched sched' : list nat) (dfq : list question_row)
    (dfc : list classified_row) (p q : list nat) (K : Z)
    (lq : list FormatType) (lc : list string) :
  p ≡ₚ seq 0 (length dfq) -> q ≡ₚ seq 0 (length dfc) -> (0 < K)%Z ->
  Forall2 (classified_as create) dfq lq ->
  Forall2 (rewritten_as create) dfc lc ->
  (classify_reasoning_questions create
     (sched ++ drain (length dfq)) dfq K).1 = Some (Returned lq)
  /\ (classify_reasoning_questions create
        (sched' ++ drain (length dfq)) (permute p dfq) K).1
     = Some (Returned (permute p lq))
  /\ (replace_reasoning_questions_format create
        (sched ++ drain (length dfc)) dfc K).1 = Some (Returned lc)
  /\ (replace_reasoning_questions_format create
        (sched' ++ drain (length dfc)) (permute q dfc) K).1
     = Some (Returned (permute q lc))
  /\ (forall o, (classify_reasoning_questions create sched dfq K).1 = Some o ->
        o = Returned lq)
  /\ (forall o,
        (classify_reasoning_questions create sched' (permute p dfq) K).1
        = Some o -> o = Returned (permute p lq))
  /\ (forall o,
        (replace_reasoning_questions_format create sched dfc K).1 = Some o ->
        o = Returned lc)
  /\ (forall o,
        (replace_reasoning_questions_format create sched' (permute q dfc) K).1
        = Some o -> o = Returned (permute q lc)).
Proof.
  intros Hp Hq HK Hlq Hlc.
  pose proof (Permutation_length Hp) as Hlp.
  pose proof (Permutation_length Hq) as Hlq'.
  rewrite length_seq in Hlp, Hlq'.
  apply Permutation_seq_bound in Hp, Hq.
  pose proof (Forall2_permute_both _ p _ _ Hlq) as Hplq.
  pose proof (Forall2_permute_both _ q _ _ Hlc) as Hqlc.
  assert (length (permute p dfq) = length dfq) as Hlenq
    by (by rewrite permute_length).
  assert (length (permute q dfc) = length dfc) as Hlenc
    by (by rewrite permute_length).
  assert (forall s df l o,
            Forall2 (classified_as create) df l ->
            (classify_reasoning_questions create s df K).1 = Some o ->
            o = Returned l) as Hclassify.
  { intros s df l o Hall Ho.
    pose proof (gathered_final
                  (create _ FormatClassification_model) classification
                  s (drain (length df)) (classify_request <$> df) K) as Hfinal.
    rewrite <- classify_gathered in Hfinal by lia.
    rewrite <- classify_gathered in Hfinal by lia.
    specialize (Hfinal _ Ho).
    rewrite (classify_drained create s df K l HK Hall) in Hfinal. congruence. }
  assert (forall s df l o,
            Forall2 (rewritten_as create) df l ->
            (replace_reasoning_questions_format create s df K).1 = Some o ->
            o = Returned l) as Hreplace.
  { intros s df l o Hall Ho.
    pose proof (replace_drained create s df K l HK Hall) as Hdrained.
    unfold replace_reasoning_questions_format in Ho, Hdrained.
    destruct (Semaphore K) as [sem|e]; [|simpl in *; congruence].
    destruct (mapM replace_request df) as [tasks|e]; [|simpl in *; congruence].
    pose proof (gathered_final
                  (create _ UpdatedQuestion_model) updated_question
                  s (drain (length df)) tasks sem _ Ho) as Hfinal.
    unfold gathered in Hfinal. simpl in *. congruence. }
  split; [by apply classify_drained|].
  split; [rewrite <- Hlenq; by apply classify_drained|].
  split; [by apply replace_drained|].
  split; [rewrite <- Hlenc; by apply replace_drained|].
  split; [intros o; by apply Hclassify|].
  split; [intros o; by apply Hclassify|].
  split; [intros o; by apply Hreplace|].
  intros o; by apply Hreplace.
Qed.

(** C5. When the classify stage returns, it returns exactly one label per
    record, in record order; each is the label of the client's validated
    reply for that record, and each is a member of the [FormatType]
    enumeration. *)
Theorem classification_in_closed_set
    (sched : list nat) (df : list question_row) (K : Z)
    (l : list FormatType) :
  (classify_reasoning_questions create sched df K).1 = Some (Returned l) ->
  length l = length df
  /\ Forall2 (classified_as create) df l
  /\ Forall (fun t => t ∈ FormatType_members) l.
Proof.
  intros Hl. apply classify_Returned in Hl as (_ & _ & Hall).
  split; [by apply Forall2_length in Hall|]. split; [done|].
  apply Forall_forall. intros t _. unfold FormatType_members.
  destruct t; repeat constructor.
Qed.

(** C9. With a bound the semaphore accepts: when some record is labelled
    [OTHER], the rewrite stage fails with [KeyError] while its prompts are
    being built, and no request at all has been sent; when every label is
    one of T1..T5, the template lookup succeeds for every record and every
    coroutine is built. *)
Theorem rewrite_stage_KeyError_on_OTHER
    (sched : list nat) (df : list classified_row) (K : Z) :
  (0 <= K)%Z ->
  ((exists row, row ∈ df /\ row_classification row = OTHER) ->
   replace_reasoning_questions_format create sched df K
   = (Some (Raised (KeyError "OTHER")), []))
  /\ (Forall (fun row => row_classification row ∈ [T1; T2; T3; T4; T5]) df ->
      Forall (fun row =>
                exists template,
                  getitem format_mapping (name (row_classification row))
                  = Returned template) df
      /\ exists tasks, mapM replace_request df = Returned tasks
                       /\ length tasks = length df).
Proof.
  intros HK. split.
  - intros Hother. unfold replace_reasoning_questions_format.
    by rewrite Semaphore_ok, replace_tasks_OTHER.
  - intros Hall. split.
    + eapply Forall_impl; [exact Hall|]. intros row Hrow. simpl in Hrow.
      rewrite getitem_format_mapping.
      destruct (row_classification row); try (by eexists).
      by repeat (apply elem_of_cons in Hrow as [Hrow|Hrow]; [discriminate|]);
         apply elem_of_nil in Hrow.
    + apply replace_tasks_ok. eapply Forall_impl; [exact Hall|].
      intros row Hrow Heq. simpl in Hrow. rewrite Heq in Hrow.
      by repeat (apply elem_of_cons in Hrow as [Hrow|Hrow]; [discriminate|]);
         apply elem_of_nil in Hrow.
Qed.
End Claims.


(** C2 on a batch of three records whose second call is refused. *)
Lemma batch_failure_all_or_nothing_witness :
  In (Completed 1 (Raised (SchemaViolation "classification")))
     (classify_reasoning_questions mock_create (fifo_schedule 3)
        [row_a; row_bad; row_b] 30).2
  /\ exists e',
       (classify_reasoning_questions mock_create (fifo_schedule 3)
          [row_a; row_bad; row_b] 30).1 = Some (Raised e')
       /\ first_raised
            (classify_reasoning_questions mock_create (fifo_schedule 3)
               [row_a; row_bad; row_b] 30).2 = Some e'.
Proof.
  assert (In (Completed 1 (Raised (SchemaViolation "classification")))
            (classify_reasoning_questions mock_create (fifo_schedule 3)
               [row_a; row_bad; row_b] 30).2) as Hin
    by (vm_compute; tauto).
  split; [exact Hin|].
  apply (proj1 (batch_failure_all_or_nothing mock_create (fifo_schedule 3)
                  [row_a; row_bad; row_b] [] 30)
           1 (SchemaViolation "classification")).
  by apply list_elem_of_In.
Defined.

(** The bound of C3 on a run with the default concurrency in which the second
    reply comes back first. *)
Lemma concurrency_bound_witness :
  (0 <= default_concurrency)%Z
  /\ bounded default_concurrency
       (classify_reasoning_questions mock_create [0; 1; 1; 0] [row_a; row_b]
          default_concurrency).2.
Proof.
  split; [unfold default_concurrency; lia|].
  apply (concurrency_bound mock_create [0; 1; 1; 0] [row_a; row_b] []
           default_concurrency).
  unfold default_concurrency. lia.
Defined.

(** C4 on the two records of the end-to-end scenario, with one slot: both
    stages, the first runs started in record order and the shuffled runs
    from the other end. *)
Lemma order_independence_witness :
  [1; 0] ≡ₚ seq 0 (length [row_a; row_b])
  /\ (0 < 1)%Z
  /\ (classify_reasoning_questions mock_create ([0; 1] ++ drain 2)
        [row_a; row_b] 1).1 = Some (Returned [T1; T4])
  /\ (classify_reasoning_questions mock_create ([1; 0] ++ drain 2)
        (permute [1; 0] [row_a; row_b]) 1).1
     = Some (Returned (permute [1; 0] [T1; T4]))
  /\ (replace_reasoning_questions_format mock_create ([0; 1] ++ drain 2)
        [crow_a; crow_b] 1).1
     = Some (Returned [mock_rewrite crow_a; mock_rewrite crow_b])
  /\ (replace_reasoning_questions_format mock_create ([1; 0] ++ drain 2)
        (permute [1; 0] [crow_a; crow_b]) 1).1
     = Some (Returned
               (permute [1; 0] [mock_rewrite crow_a; mock_rewrite crow_b])).
Proof.
  assert ([1; 0] ≡ₚ seq 0 2) as Hp by apply Permutation_swap.
  assert (Forall2 (classified_as mock_create) [row_a; row_b] [T1; T4]) as Hlq.
  { repeat constructor.
    - exists {| classification := T1 |}. split; vm_compute; reflexivity.
    - exists {| classification := T4 |}. split; vm_compute; reflexivity. }
  assert (Forall2 (rewritten_as mock_create) [crow_a; crow_b]
            [mock_rewrite crow_a; mock_rewrite crow_b]) as Hlc.
  { repeat constructor.
    - exists (run_model_with_instructor_request
                system_prompt_replace_reasoning_format
                (mock_rewrite crow_a)),
        {| updated_question := mock_rewrite crow_a |}.
      repeat split; vm_compute; reflexivity.
    - exists (run_model_with_instructor_request
                system_prompt_replace_reasoning_format
                (mock_rewrite crow_b)),
        {| updated_question := mock_rewrite crow_b |}.
      repeat split; vm_compute; reflexivity. }
  split; [exact Hp|]. split; [lia|].
  destruct (order_independence mock_create [0; 1] [1; 0]
              [row_a; row_b] [crow_a; crow_b] [1; 0] [1; 0] 1
              [T1; T4] [mock_rewrite crow_a; mock_rewrite crow_b]
              Hp Hp ltac:(lia) Hlq Hlc)
    as (H1 & H2 & H3 & H4 & _).
  exact (conj H1 (conj H2 (conj H3 H4))).
Defined.

(** C5 on the two records of the end-to-end scenario. *)
Lemma classification_in_closed_set_witness :
  (classify_reasoning_questions mock_create (fifo_schedule 2)
     [row_a; row_b] 30).1 = Some (Returned [T1; T4])
  /\ length [T1; T4] = length [row_a; row_b]
  /\ Forall2 (classified_as mock_create) [row_a; row_b] [T1; T4]
  /\ Forall (fun t => t ∈ FormatType_members) [T1; T4].
Proof.
  split; [vm_compute; reflexivity|].
  apply (classification_in_closed_set mock_create (fifo_schedule 2) _ 30).
  vm_compute. reflexivity.
Defined.

(** C9 on a frame whose second record is labelled [OTHER]. *)
Lemma rewrite_stage_KeyError_on_OTHER_witness :
  (0 <= 30)%Z
  /\ replace_reasoning_questions_format mock_create (fifo_schedule 2)
       [crow "What is 2 + 2?" T3; crow "Name a colour." OTHER] 30
     = (Some (Raised (KeyError "OTHER")), []).
Proof.
  split; [lia|].
  apply (rewrite_stage_KeyError_on_OTHER mock_create (fifo_schedule 2)
           [crow "What is 2 + 2?" T3; crow "Name a colour." OTHER] 30);
    [lia|].
  exists (crow "Name a colour." OTHER).
  split; [apply list_elem_of_further, list_elem_of_here|reflexivity].
Defined.

Example rewrite_two_rows :
  (replace_reasoning_questions_format mock_create (fifo_schedule 2)
     [crow "What is 2 + 2?" T3; crow "Pick one." T5] 30).1
  = Some (Returned
            [ "Question:" +:+ nl +:+ "What is 2 + 2?" +:+ nl +:+ "Old formatting:"
              +:+ nl +:+ value T3 +:+ nl
              +:+ "New formatting:Put your answer as a single integer (for example, 0)."
              +:+ nl;
              "Question:" +:+ nl +:+ "Pick one." +:+ nl +:+ "Old formatting:"
              +:+ nl +:+ value T5 +:+ nl
              +:+ "New formatting:Return your answer as a single word, in the following format: X, where X is the answer."
              +:+ nl ]).
Proof. vm_compute. reflexivity. Qed.

End ReasoningClaims.

(** ** Further properties of the two stages of reasoning.py *)
Module ReasoningExtras.
Import Reasoning GatherSpec Mock CallLog GatherFacts ReasoningFacts CallLogFacts.

Section Stages.
Variable create : forall R : Type, response_model R -> request -> outcome R.

(** X1. On a frame without rows either stage returns the empty list without
    calling the model, whatever the schedule: [asyncio.gather()] of no
    coroutine returns [[]]. *)
Theorem empty_frame_no_call (sched : list nat) (K : Z) :
  (0 <= K)%Z ->
  classify_reasoning_questions create sched [] K = (Some (Returned []), [])
  /\ replace_reasoning_questions_format create sched [] K
     = (Some (Returned []), []).
Proof.
  intros HK. split.
  - rewrite classify_gathered by done. apply gathered_empty.
  - rewrite (replace_gathered create sched [] K []) by done.
    apply gathered_empty.
Qed.

(** X2. With a concurrency that is not positive neither stage ever sends a
    request, under any schedule. A negative one is refused by [Semaphore]
    with [ValueError], before the rewrite stage looks up any template. With
    zero every coroutine waits for a slot that never comes: the classify
    stage never resolves, and the rewrite stage resolves only by the
    [KeyError] of its list comprehension. *)
Theorem nonpositive_concurrency_no_call
    (sched : list nat) (dfq : list question_row) (dfc : list classified_row)
    (K : Z) :
  (K <= 0)%Z -> dfq <> [] -> dfc <> [] ->
  classify_reasoning_questions create sched dfq K
  = (if (K <? 0)%Z
     then Some (Raised (ValueError "Semaphore initial value must be >= 0"))
     else None, [])
  /\ replace_reasoning_questions_format create sched dfc K
     = (if (K <? 0)%Z
        then Some (Raised (ValueError "Semaphore initial value must be >= 0"))
        else match mapM replace_request dfc with
             | Returned _ => None
             | Raised e => Some (Raised e)
             end, []).
Proof.
  intros HK Hq Hc. destruct (K <? 0)%Z eqn:Hneg.
  - apply Z.ltb_lt in Hneg. split; [by apply classify_negative|].
    unfold replace_reasoning_questions_format.
    by rewrite Semaphore_negative.
  - apply Z.ltb_ge in Hneg. assert (K = 0%Z) as -> by lia. split.
    + rewrite classify_gathered by done. apply gathered_no_slot.
      by destruct dfq.
    + destruct (mapM replace_request dfc) as [tasks|e] eqn:Htasks.
      * rewrite (replace_gathered create sched dfc 0 tasks) by done.
        apply gathered_no_slot. apply mapM_Returned, Forall2_length in Htasks.
        destruct tasks; [|done]. by destruct dfc.
      * unfold replace_reasoning_questions_format.
        by rewrite Semaphore_ok, Htasks.
Qed.

(** X3. Neither stage retries or repeats a call: along every run a record's
    request is sent at most once and answered at most once, only requests
    that were sent are answered, and when the stage returns its list exactly
    one request per record has been sent and answered and none is left in
    flight. *)
Theorem one_call_per_record
    (sched : list nat) (dfq : list question_row) (dfc : list classified_row)
    (K : Z) :
  calls_once (length dfq) (classify_reasoning_questions create sched dfq K)
  /\ calls_once (length dfc)
       (replace_reasoning_questions_format create sched dfc K).
Proof.
  split.
  - destruct (Z.lt_ge_cases K 0) as [Hneg|Hpos].
    + rewrite classify_negative by done. by apply calls_once_not_started.
    + rewrite classify_gathered by done.
      rewrite <- (length_fmap classify_request dfq).
      apply gathered_calls_once.
  - destruct (Z.lt_ge_cases K 0) as [Hneg|Hpos].
    { destruct (replace_not_started create sched dfc K) as [e ->];
        [by left|by apply calls_once_not_started]. }
    destruct (mapM replace_request dfc) as [tasks|e0] eqn:Htasks.
    + rewrite (replace_gathered create sched dfc K tasks) by done.
      apply mapM_Returned, Forall2_length in Htasks. rewrite Htasks.
      apply gathered_calls_once.
    + destruct (replace_not_started create sched dfc K) as [e ->];
        [right; by eexists|by apply calls_once_not_started].
Qed.

(** X5. With at least one slot and the coroutines run one after the other,
    either stage gives what the plain loop over the records gives: the list
    of the replies' fields, or the exception of the first record, in record
    order, whose call fails; the classify stage sends its requests in record
    order, each answered before the next is sent. *)
Theorem fifo_schedule_sequential
    (dfq : list question_row) (dfc : list classified_row) (K : Z) :
  (0 < K)%Z ->
  classify_reasoning_questions create (fifo_schedule (length dfq)) dfq K
  = (Some (fmap (M := outcome) (map classification)
             (mapM (create _ FormatClassification_model)
                   (classify_request <$> dfq))),
     fifo_trace (create _ FormatClassification_model) 0
       (classify_request <$> dfq))
  /\ (replace_reasoning_questions_format create (fifo_schedule (length dfc))
        dfc K).1
     = Some (match mapM replace_request dfc with
             | Returned tasks =>
                 fmap (M := outcome) (map updated_question)
                   (mapM (create _ UpdatedQuestion_model) tasks)
             | Raised e => Raised e
             end).
Proof.
  intros HK. split.
  - rewrite classify_gathered by lia.
    rewrite <- (length_fmap classify_request dfq). by apply gathered_fifo.
  - destruct (mapM replace_request dfc) as [tasks|e] eqn:Htasks.
    + rewrite (replace_gathered create _ dfc K tasks) by (done || lia).
      apply mapM_Returned, Forall2_length in Htasks. rewrite Htasks.
      by rewrite gathered_fifo.
    + unfold replace_reasoning_questions_format.
      by rewrite Semaphore_ok, Htasks by lia.
Qed.

(** X6. Once [gather] has resolved, with a list or with an exception, no
    later event changes what the stage gives: a reply that arrives after a
    failure does not replace the exception, and neither stage resolves
    twice. *)
Theorem resolved_is_final
    (s1 s2 : list nat) (dfq : list question_row) (dfc : list classified_row)
    (K : Z) oq oc :
  (classify_reasoning_questions create s1 dfq K).1 = Some oq ->
  (replace_reasoning_questions_format create s1 dfc K).1 = Some oc ->
  (classify_reasoning_questions create (s1 ++ s2) dfq K).1 = Some oq
  /\ (replace_reasoning_questions_format create (s1 ++ s2) dfc K).1 = Some oc.
Proof.
  intros Hq Hc. split.
  - destruct (Z.lt_ge_cases K 0) as [Hneg|Hpos].
    + rewrite classify_negative in * by done. done.
    + rewrite classify_gathered in * by done. by apply gathered_final.
  - unfold replace_reasoning_questions_format in *.
    destruct (Semaphore K) as [sem|e]; [|done].
    destruct (mapM replace_request dfc) as [tasks|e]; [|done].
    by apply (gathered_final _ updated_question).
Qed.

(** X7. With at least one slot no run of either stage is stuck: from
    wherever a schedule has brought it, two more rounds over the coroutines
    bring [gather] to its result. *)
Theorem no_deadlock
    (sched : list nat) (dfq : list question_row) (dfc : list classified_row)
    (K : Z) :
  (0 < K)%Z ->
  is_Some (classify_reasoning_questions create
             (sched ++ drain (length dfq)) dfq K).1
  /\ is_Some (replace_reasoning_questions_format create
                (sched ++ drain (length dfc)) dfc K).1.
Proof.
  intros HK. split.
  - rewrite classify_gathered by lia.
    rewrite <- (length_fmap classify_request dfq). by apply gathered_drain.
  - destruct (mapM replace_request dfc) as [tasks|e] eqn:Htasks.
    + rewrite (replace_gathered create _ dfc K tasks) by (done || lia).
      apply mapM_Returned, Forall2_length in Htasks. rewrite Htasks.
      by apply gathered_drain.
    + unfold replace_reasoning_questions_format.
      rewrite Semaphore_ok, Htasks by lia. by eexists.
Qed.
End Stages.

Section Slots.
Context {R : Type}.
Variable create : request -> outcome R.

(** X4. The semaphore of [run_model_with_instructor]: at every point of a
    run over a semaphore of [K] slots the free slots are [K] less the calls
    in flight, never fewer than none nor more than [K], and once every
    coroutine has finished, its call answered or failed, all [K] are free
    again: [async with] releases the slot of a call that raises. *)
Theorem semaphore_slots_accounted
    (coros : list request) (sched : list nat) (K : Z) :
  (0 <= K)%Z ->
  let st := run create coros sched (gather_init coros K) in
  (0 <= sem_value st <= K)%Z
  /\ sem_value st = (K - in_flight (trace st))%Z
  /\ (Forall (fun t => is_finished t = true) (tasks st) -> sem_value st = K).
Proof. intros HK. by apply (gathered_slots create). Qed.
End Slots.

(** X1 at the default concurrency. *)
Lemma empty_frame_no_call_witness :
  (0 <= default_concurrency)%Z
  /\ classify_reasoning_questions mock_create [0; 0] [] default_concurrency
     = (Some (Returned []), []).
Proof.
  split; [unfold default_concurrency; lia|].
  apply (proj1 (empty_frame_no_call mock_create [0; 0] default_concurrency
                  ltac:(unfold default_concurrency; lia))).
Defined.

(** X2 with no slot at all, on the two records of the end-to-end scenario. *)
Lemma nonpositive_concurrency_no_call_witness :
  (0 <= 0)%Z /\ [row_a; row_b] <> [] /\ [crow "q" T1] <> []
  /\ classify_reasoning_questions mock_create (fifo_schedule 2) [row_a; row_b] 0
     = (None, []).
Proof.
  split; [lia|]. split; [done|]. split; [done|].
  apply (proj1 (nonpositive_concurrency_no_call mock_create (fifo_schedule 2)
                  [row_a; row_b] [crow "q" T1] 0
                  ltac:(lia) ltac:(done) ltac:(done))).
Defined.

(** X4 on a run in which the second call fails. *)
Lemma semaphore_slots_accounted_witness :
  (0 <= 2)%Z
  /\ sem_value
       (run (mock_create _ FormatClassification_model)
            (classify_request <$> [row_a; row_bad])
            [0; 1; 1; 0]
            (gather_init (classify_request <$> [row_a; row_bad]) 2)) = 2%Z.
Proof.
  split; [lia|].
  destruct (semaphore_slots_accounted
              (mock_create _ FormatClassification_model)
              (classify_request <$> [row_a; row_bad]) [0; 1; 1; 0] 2
              ltac:(lia)) as (_ & _ & Hfree).
  apply Hfree. vm_compute. repeat constructor.
Defined.

(** X5 with one slot, on a batch whose second call is refused. *)
Lemma fifo_schedule_sequential_witness :
  (0 < 1)%Z
  /\ (classify_reasoning_questions mock_create (fifo_schedule 3)
        [row_a; row_bad; row_b] 1).1
     = Some (Raised (SchemaViolation "classification")).
Proof.
  split; [lia|].
  exact (f_equal fst
           (proj1 (fifo_schedule_sequential mock_create
                     [row_a; row_bad; row_b] [] 1 ltac:(lia)))).
Defined.

(** X6 on a batch whose second call is refused first: the replies that
    come back afterwards do not change the exception. *)
Lemma resolved_is_final_witness :
  (classify_reasoning_questions mock_create ([1; 1] ++ [0; 0; 2; 2])
     [row_a; row_bad; row_b] 30).1
  = Some (Raised (SchemaViolation "classification")).
Proof.
  apply (proj1 (resolved_is_final mock_create [1; 1] [0; 0; 2; 2]
                  [row_a; row_bad; row_b] [] 30
                  (Raised (SchemaViolation "classification")) (Returned [])
                  ltac:(vm_compute; reflexivity)
                  ltac:(vm_compute; reflexivity))).
Defined.

(** X7 with one slot, from a run stopped while its first call is in flight. *)
Lemma no_deadlock_witness :
  (0 < 1)%Z
  /\ is_Some (classify_reasoning_questions mock_create ([0; 1] ++ drain 2)
                [row_a; row_b] 1).1.
Proof.
  split; [lia|].
  apply (proj1 (no_deadlock mock_create [0; 1] [row_a; row_b] [] 1
                  ltac:(lia))).
Defined.
End ReasoningExtras.

(** ** Python string methods *)
Module StringFacts.
Import StringSpec.

#[local] Arguments String.append !_ _ / : simpl nomatch.

Example replace_ex1 : replace "**" "" "a ***b** c****" = "a *b c".
Proof. reflexivity. Qed.
Example replace_ex2 : replace "" "-" "abc" = "-a-b-c-".
Proof. reflexivity. Qed.
Example replace_ex3 : replace "aa" "b" "aaaaa" = "bba".
Proof. reflexivity. Qed.
Example strip_ex1 : strip "  a b 	
" = "a b".
Proof. reflexivity. Qed.

Lemma append_assoc (a b c : string) : (a +:+ b) +:+ c = a +:+ (b +:+ c).
Proof. induction a as [|x a IH]; simpl; [done|by rewrite IH]. Qed.

Lemma append_nil_r (a : string) : a +:+ "" = a.
Proof. induction a as [|x a IH]; simpl; [done|by rewrite IH]. Qed.

Lemma startswith_cons (a b : ascii) (p s : string) :
  startswith (String a p) (String b s)
  = if ascii_dec a b then startswith p s else false.
Proof. reflexivity. Qed.

Lemma prefix_spec (p s : string) :
  startswith p s = true <-> exists r, s = p +:+ r.
Proof.
  revert s. induction p as [|a p IH]; intros s; simpl.
  - split; [intros _; by exists s|done].
  - destruct s as [|b s]; [split; [done|intros [r Hr]; discriminate]|].
    destruct (ascii_dec a b) as [->|Hne].
    + rewrite IH. split; intros [r Hr]; exists r; simpl in *; congruence.
    + split; [done|]. intros [r Hr]. simpl in Hr. congruence.
Qed.

Lemma contains_spec (old s : string) :
  contains old s = true <-> exists a b, s = a +:+ old +:+ b.
Proof.
  induction s as [|c s IH].
  - simpl. rewrite orb_false_r, prefix_spec. split.
    + intros [r Hr]. by exists "", r.
    + intros (a & b & Hab). destruct a; [by exists b|discriminate].
  - simpl. rewrite orb_true_iff, IH, prefix_spec. split.
    + intros [[r Hr]|(a & b & Hab)].
      * by exists "", r.
      * exists (String c a), b. simpl. by rewrite Hab.
    + intros (a & b & Hab). destruct a as [|c' a]; simpl in Hab.
      * left. by exists b.
      * right. exists a, b. congruence.
Qed.

(** An occurrence of [a +:+ x +:+ b] holds an occurrence of [x]. *)
Lemma contains_inner (a x b s : string) :
  contains (a +:+ x +:+ b) s = true -> contains x s = true.
Proof.
  rewrite !contains_spec. intros (u & v & ->).
  exists (u +:+ a), (b +:+ v). by rewrite !append_assoc.
Qed.

(** *** [replace] *)
Lemma replace_scan_skip (old new t r : string) :
  replace_scan old new (String.length t) (t +:+ r) = replace_scan old new 0 r.
Proof. induction t as [|c t IH]; simpl; [by destruct r|done]. Qed.

Lemma replace_scan_0 (old new s : string) (c : ascii) :
  replace_scan old new 0 (String c s)
  = if startswith old (String c s)
    then new +:+ replace_scan old new (String.length old - 1) s
    else String c (replace_scan old new 0 s).
Proof. reflexivity. Qed.

Lemma replace_scan_match (old new r : string) (c : ascii) :
  replace_scan (String c old) new 0 (String c old +:+ r)
  = new +:+ replace_scan (String c old) new 0 r.
Proof.
  assert (startswith (String c old) (String c old +:+ r) = true) as Hp
    by (apply prefix_spec; by exists r).
  change (String c old +:+ r) with (String c (old +:+ r)) in *.
  rewrite replace_scan_0, Hp.
  change (String.length (String c old) - 1) with (String.length old - 0).
  by rewrite Nat.sub_0_r, replace_scan_skip.
Qed.

Lemma replace_scan_no_match (old new s : string) (c : ascii) :
  startswith old (String c s) = false ->
  replace_scan old new 0 (String c s) = String c (replace_scan old new 0 s).
Proof. intros Hp. by rewrite replace_scan_0, Hp. Qed.

Lemma replace_absent (old new s : string) :
  old <> "" -> contains old s = false -> replace old new s = s.
Proof.
  intros Hold. unfold replace. destruct old as [|a old]; [done|]. clear Hold.
  induction s as [|c s IH]; [done|].
  intros Hc. cbn [contains] in Hc. apply orb_false_iff in Hc as [Hp Hc].
  rewrite replace_scan_no_match by done. by rewrite IH.
Qed.

(** *** Removing every [**] *)

Lemma unstar_pair (s : string) : unstar ("**" +:+ s) = unstar s.
Proof. apply (replace_scan_match "*" "" s "*"%char). Qed.

Lemma unstar_other (c : ascii) (s : string) :
  startswith "**" (String c s) = false ->
  unstar (String c s) = String c (unstar s).
Proof. apply replace_scan_no_match. Qed.

Lemma prefix_star_other (c : ascii) (p s : string) :
  c <> "*"%char -> startswith (String "*" p) (String c s) = false.
Proof.
  intros Hc. rewrite startswith_cons. destruct (ascii_dec "*" c); congruence.
Qed.

Lemma prefix_pair_single (c : ascii) (s : string) :
  c <> "*"%char -> startswith "**" (String "*" (String c s)) = false.
Proof.
  intros Hc. rewrite !startswith_cons.
  destruct (ascii_dec "*" "*"); [|done].
  destruct (ascii_dec "*" c); [congruence|done].
Qed.

Lemma unstar_no_pair (n : nat) (s : string) :
  String.length s <= n ->
  contains "**" (unstar s) = false
  /\ (startswith "*" s = false -> startswith "*" (unstar s) = false).
Proof.
  revert s. induction n as [|n IH]; intros s Hn.
  { destruct s; [done|simpl in Hn; lia]. }
  destruct (star_split s) as [|c s Hc| |c s Hc|s].
  - done.
  - destruct (IH s) as [IH1 IH2]; [simpl in Hn; lia|].
    rewrite unstar_other by (by apply prefix_star_other).
    split; [|intros _; by apply prefix_star_other].
    cbn [contains]. rewrite IH1, orb_false_r. by apply prefix_star_other.
  - done.
  - destruct (IH s) as [IH1 IH2]; [simpl in Hn; lia|].
    rewrite unstar_other by (by apply prefix_pair_single).
    rewrite unstar_other by (by apply prefix_star_other).
    split; [|done].
    cbn [contains].
    by rewrite IH1, (prefix_star_other c "*"), prefix_pair_single.
  - destruct (IH s) as [IH1 IH2]; [simpl in Hn; lia|].
    rewrite unstar_pair. split; [done|]. simpl. done.
Qed.

Lemma replace_stars_absent (s : string) :
  contains "**" (replace "**" "" s) = false.
Proof. apply (unstar_no_pair (String.length s)). done. Qed.

(** *** [strip] *)
Lemma lstrip_suffix (s : string) : exists p, s = p +:+ lstrip s.
Proof.
  induction s as [|c s [p IH]]; [by exists ""|]. simpl.
  destruct (isspace c); [|by exists ""].
  exists (String c p). simpl. by rewrite <- IH.
Qed.

Lemma rstrip_prefix (s : string) : exists q, s = rstrip s +:+ q.
Proof.
  induction s as [|c s [q IH]]; [by exists ""|]. simpl.
  destruct (rstrip s) as [|d r] eqn:Hr.
  - destruct (isspace c); [by exists (String c s)|].
    exists s. done.
  - exists q. simpl in *. by rewrite <- IH.
Qed.

Lemma strip_contains (x s : string) :
  contains x (strip s) = true -> contains x s = true.
Proof.
  rewrite !contains_spec. intros (a & b & Hab).
  destruct (lstrip_suffix s) as [p Hp].
  destruct (rstrip_prefix (lstrip s)) as [q Hq].
  exists (p +:+ a), (b +:+ q).
  rewrite Hp at 1. rewrite Hq at 1. fold (strip s). rewrite Hab.
  by rewrite !append_assoc.
Qed.

Lemma rstrip_idemp (s : string) : rstrip (rstrip s) = rstrip s.
Proof.
  induction s as [|c s IH]; [done|]. simpl.
  destruct (rstrip s) as [|d r] eqn:Hr.
  - destruct (isspace c) eqn:Hc; [done|]. simpl. by rewrite Hc.
  - change (rstrip (String c (String d r))) with
      (match rstrip (String d r) with
       | "" => if isspace c then "" else String c ""
       | r' => String c r'
       end).
    by rewrite IH.
Qed.

Lemma rstrip_head (c : ascii) (s : string) :
  isspace c = false -> exists r, rstrip (String c s) = String c r.
Proof.
  intros Hc. simpl. destruct (rstrip s); rewrite ?Hc; by eexists.
Qed.

Lemma lstrip_head (s : string) :
  lstrip s = "" \/ exists c r, lstrip s = String c r /\ isspace c = false.
Proof.
  induction s as [|c s IH]; [by left|]. simpl.
  destruct (isspace c) eqn:Hc; [done|]. right. by exists c, s.
Qed.

Lemma rstrip_last (s r : string) (c : ascii) :
  rstrip s = r +:+ String c "" -> isspace c = false.
Proof.
  revert r. induction s as [|d s IH]; intros r; simpl.
  - by destruct r.
  - destruct (rstrip s) as [|e t] eqn:Ht.
    + destruct (isspace d) eqn:Hd; [by destruct r|].
      destruct r as [|x [|y r]]; simpl; intros [= <-]; done.
    + destruct r as [|x r]; simpl; [discriminate|].
      intros [= <- Hr]. by eapply IH.
Qed.

Lemma strip_idemp (s : string) : strip (strip s) = strip s.
Proof.
  unfold strip.
  destruct (lstrip_head s) as [->|(c & r & -> & Hc)]; [done|].
  destruct (rstrip_head c r Hc) as [r' Hr']. rewrite Hr'.
  simpl lstrip. rewrite Hc, <- Hr'. apply rstrip_idemp.
Qed.

Lemma strip_first (s r : string) (c : ascii) :
  strip s = String c r -> isspace c = false.
Proof.
  unfold strip.
  destruct (lstrip_head s) as [->|(d & t & -> & Hd)]; [done|].
  destruct (rstrip_head d t Hd) as [r' ->]. by intros [= <- _].
Qed.

Lemma strip_last (s r : string) (c : ascii) :
  strip s = r +:+ String c "" -> isspace c = false.
Proof. apply rstrip_last. Qed.
End StringFacts.

(** ** Frames and the update scripts *)
Module FrameFacts.
Import Pandas Livebench FrameSpec.

(** *** Primitives *)
Lemma getattr_Returned df k s :
  getattr df k = Returned s <-> find_column k (columns df) = Some s.
Proof.
  unfold getattr. destruct (find_column k (columns df)); split; congruence.
Qed.

Lemma str_method_Returned f s s' :
  str_method f s = Returned s' -> s' = f <$> s.
Proof.
  unfold str_method, str_accessor.
  destruct s as [|c s]; [by intros [= <-]|].
  destruct (forallb is_numeric (c :: s)); [discriminate|by intros [= <-]].
Qed.

Lemma find_column_set_cols_eq k s cols :
  find_column k (set_cols k s cols) = Some s.
Proof.
  induction cols as [|[k' s'] cols IH]; simpl.
  - by rewrite decide_True.
  - destruct (decide (k = k')) as [->|Hne]; simpl.
    + by rewrite decide_True.
    + by rewrite decide_False.
Qed.

Lemma find_column_set_cols_ne k k' s cols :
  k <> k' -> find_column k (set_cols k' s cols) = find_column k cols.
Proof.
  intros Hne. induction cols as [|[k'' s''] cols IH]; simpl.
  - by rewrite decide_False.
  - destruct (decide (k' = k'')) as [->|Hne']; simpl.
    + by rewrite !decide_False.
    + destruct (decide (k = k'')); [done|apply IH].
Qed.

Lemma find_column_rename_ne k old new cols :
  k <> old -> k <> new ->
  find_column k ((fun c : string * list cell =>
                    (if decide (c.1 = old) then new else c.1, c.2)) <$> cols)
  = find_column k cols.
Proof.
  intros Ho Hn. induction cols as [|[k' s'] cols IH]; simpl; [done|].
  destruct (decide (k' = old)) as [->|Hne].
  - by rewrite !decide_False.
  - destruct (decide (k = k')); [done|apply IH].
Qed.

(** *** Records and frames *)
Lemma first_seen_elem_of k seen ks :
  k ∈ first_seen seen ks <-> k ∈ ks /\ k ∉ seen.
Proof.
  revert seen. induction ks as [|k' ks IH]; intros seen; simpl.
  - split; [by inversion 1|intros [H _]; by inversion H].
  - destruct (decide (k' ∈ seen)) as [Hin|Hnin].
    + rewrite IH. split.
      * intros [Hk Hs]. split; [by right|done].
      * intros [Hk Hs]. split; [|done].
        apply elem_of_cons in Hk as [->|Hk]; [by destruct Hs|done].
    + rewrite !elem_of_cons, IH. split.
      * intros [->|[Hk Hs]]; [split; [by left|done]|].
        split; [by right|]. intros Hseen. apply Hs. by right.
      * intros [[->|Hk] Hs]; [by left|].
        destruct (decide (k = k')) as [->|Hne]; [by left|right].
        split; [done|]. by intros [?|?]%elem_of_cons.
Qed.

Lemma first_seen_NoDup seen ks : NoDup (first_seen seen ks).
Proof.
  revert seen. induction ks as [|k ks IH]; intros seen; simpl; [constructor|].
  destruct (decide (k ∈ seen)); [apply IH|].
  constructor; [|apply IH].
  rewrite first_seen_elem_of. intros [_ Hk]. apply Hk. by left.
Qed.

Lemma keys_of_elem_of k recs :
  k ∈ keys_of recs <-> exists r, r ∈ recs /\ k ∈ r.*1.
Proof.
  unfold keys_of. rewrite first_seen_elem_of. split.
  - intros [Hin _]. apply list_elem_of_In, in_concat in Hin as (ks & Hks & Hk).
    apply in_map_iff in Hks as (r & <- & Hr).
    exists r. split; by apply list_elem_of_In.
  - intros (r & Hr & Hk). split; [|by inversion 1].
    apply list_elem_of_In, in_concat. exists (map fst r). split.
    + apply in_map. by apply list_elem_of_In.
    + by apply list_elem_of_In.
Qed.

Lemma cell_of_absent k (r : record) : k ∉ r.*1 -> cell_of k r = NaN.
Proof.
  induction r as [|[k' c] r IH]; simpl; [done|].
  rewrite not_elem_of_cons. intros [Hne Hnin]. by rewrite decide_False, IH.
Qed.

Lemma find_column_keyed (f : string -> list cell) k ks :
  find_column k ((fun k => (k, f k)) <$> ks)
  = if decide (k ∈ ks) then Some (f k) else None.
Proof.
  induction ks as [|k' ks IH].
  - destruct (decide (k ∈ [])) as [H|_]; [by inversion H|done].
  - rewrite fmap_cons. cbn [find_column]. rewrite IH.
    destruct (decide (k = k')) as [->|Hne].
    + destruct (decide (k' ∈ k' :: ks)) as [_|H]; [done|].
      destruct H. by left.
    + destruct (decide (k ∈ ks)) as [Hin|Hnin];
        destruct (decide (k ∈ k' :: ks)) as [Hin'|Hnin']; try done.
      * destruct Hnin'. by right.
      * by apply elem_of_cons in Hin' as [?|?].
Qed.

Lemma frame_of_records_column k recs :
  k ∈ keys_of recs ->
  find_column k (columns (frame_of_records recs)) = Some (cell_of k <$> recs).
Proof. intros Hk. simpl. by rewrite find_column_keyed, decide_True. Qed.

Lemma frame_of_records_cell k i recs r :
  recs !! i = Some r -> frame_cell (frame_of_records recs) k i = cell_of k r.
Proof.
  intros Hr. unfold frame_cell. simpl. rewrite find_column_keyed.
  destruct (decide (k ∈ keys_of recs)) as [Hin|Hnin].
  - by rewrite list_lookup_fmap, Hr.
  - symmetry. apply cell_of_absent. intros Hk. apply Hnin.
    apply keys_of_elem_of. exists r. split; [by eapply list_elem_of_lookup_2|done].
Qed.

Lemma frame_of_records_backed recs : backed_by [] recs (frame_of_records recs).
Proof.
  split.
  - simpl. by rewrite length_fmap, length_seq.
  - intros k i r _ Hr. by apply frame_of_records_cell.
Qed.

Lemma backed_by_weaken ex ex' rs df :
  ex ⊆ ex' -> backed_by ex rs df -> backed_by ex' rs df.
Proof.
  intros Hsub [Hlen Hcell]. split; [done|].
  intros k i r Hk. apply Hcell. intros Hin. by apply Hk, Hsub.
Qed.

(** *** The rows written out *)
Lemma to_records_length df : length (to_records df) = length (index df).
Proof. unfold to_records. by rewrite length_fmap, length_seq. Qed.

Lemma to_lines_length df : length (to_lines df) = length (index df).
Proof. unfold to_lines. by rewrite length_fmap, length_seq. Qed.

Lemma cell_of_zip_row k cols i :
  cell_of k (zip (cols.*1) (row_cells cols i))
  = match find_column k cols with
    | Some s => default NaN (s !! i)
    | None => NaN
    end.
Proof.
  induction cols as [|[k' s] cols IH]; simpl; [done|].
  destruct (decide (k = k')); [done|apply IH].
Qed.

Lemma to_records_lookup df i o :
  to_records df !! i = Some o ->
  i < length (index df)
  /\ o.*1 = (fst <$> columns df)
  /\ forall k, cell_of k o = frame_cell df k i.
Proof.
  unfold to_records. rewrite list_lookup_fmap.
  destruct (seq 0 (length (index df)) !! i) as [j|] eqn:Hj; [|done].
  apply lookup_seq in Hj as [-> Hi]. simpl. intros [= <-].
  split; [done|]. split.
  - rewrite fst_zip; [done|]. unfold row_cells. by rewrite !length_fmap.
  - intros k. apply cell_of_zip_row.
Qed.

(** *** The steps of the scripts *)
Lemma str_method_ok f s c :
  c ∈ s -> is_numeric c = false -> str_method f s = Returned (f <$> s).
Proof.
  intros Hin Hc. unfold str_method, str_accessor.
  destruct s as [|c' s]; [by inversion Hin|].
  destruct (forallb is_numeric (c' :: s)) eqn:Hall; [|done].
  rewrite forallb_forall in Hall.
  rewrite (Hall c) in Hc by (by apply list_elem_of_In). discriminate.
Qed.

Lemma backed_by_step ex rs df df' :
  length (index df') = length (index df) ->
  (forall k, k ∉ ex ->
     find_column k (columns df') = find_column k (columns df)) ->
  backed_by ex rs df -> backed_by ex rs df'.
Proof.
  intros Hidx Hcols [Hlen Hcell]. split; [congruence|].
  intros k i r Hk Hr. unfold frame_cell. rewrite Hcols by done.
  by apply Hcell.
Qed.

Lemma assign_inv df df' :
  assign_turns_str_ground_truth df = Returned df' ->
  exists turns gt,
    find_column "turns" (columns df) = Some turns
    /\ find_column "ground_truth"
         (set_cols "turns_str" (get0 <$> turns) (columns df)) = Some gt
    /\ df' = set_column "ground_truth" (on_str strip <$> gt)
               (set_column "turns_str" (get0 <$> turns) df).
Proof.
  unfold assign_turns_str_ground_truth, mbind, outcome_bind, mret, outcome_ret.
  destruct (getattr df "turns") as [turns|] eqn:Ht; [|done].
  destruct (str_get0 turns) as [ts|] eqn:Hts; [|done].
  destruct (getattr _ "ground_truth") as [gt|] eqn:Hg; [|done].
  destruct (str_strip gt) as [gs|] eqn:Hgs; [|done].
  intros [= <-]. apply getattr_Returned in Ht, Hg.
  apply str_method_Returned in Hts as ->. apply str_method_Returned in Hgs as ->.
  by exists turns, gt.
Qed.

Lemma assign_columns df df' k :
  assign_turns_str_ground_truth df = Returned df' ->
  index df' = index df
  /\ (k <> "turns_str" -> k <> "ground_truth" ->
      find_column k (columns df') = find_column k (columns df))
  /\ (exists turns, find_column "turns" (columns df) = Some turns
                    /\ find_column "turns_str" (columns df')
                       = Some (get0 <$> turns)).
Proof.
  intros H. apply assign_inv in H as (turns & gt & Ht & Hg & ->).
  simpl. split; [done|]. split.
  - intros H1 H2. by rewrite !find_column_set_cols_ne.
  - exists turns. split; [done|].
    rewrite find_column_set_cols_ne by done. apply find_column_set_cols_eq.
Qed.

Lemma assign_ok df turns gt c1 c2 :
  find_column "turns" (columns df) = Some turns ->
  find_column "ground_truth" (columns df) = Some gt ->
  c1 ∈ turns -> is_numeric c1 = false ->
  c2 ∈ gt -> is_numeric c2 = false ->
  exists df', assign_turns_str_ground_truth df = Returned df'.
Proof.
  intros Ht Hg H1 Hn1 H2 Hn2.
  unfold assign_turns_str_ground_truth, mbind, outcome_bind, mret, outcome_ret.
  rewrite (proj2 (getattr_Returned _ _ _) Ht).
  unfold str_get0. rewrite (str_method_ok _ _ c1) by done.
  unfold getattr at 1. simpl. rewrite find_column_set_cols_ne, Hg by done.
  unfold str_strip. rewrite (str_method_ok _ _ c2) by done. by eexists.
Qed.

Lemma reset_index_inv df df' :
  reset_index df = Returned df' ->
  exists kk, (kk = "index" \/ kk = "level_0")
    /\ (kk ∉ fst <$> columns df)
    /\ ("index" ∉ (fst <$> columns df) -> kk = "index")
    /\ df' = {| index := Z.of_nat <$> seq 0 (length (index df));
                columns := (kk, Int <$> index df) :: columns df |}.
Proof.
  unfold reset_index.
  destruct (decide ("index" ∈ (fst <$> columns df))) as [Hin|Hnin].
  - destruct (decide ("level_0" ∈ (fst <$> columns df))); [done|].
    intros [= <-]. exists "level_0". split; [by right|]. by repeat split.
  - destruct (decide ("index" ∈ (fst <$> columns df))); [done|].
    intros [= <-]. exists "index". split; [by left|]. by repeat split.
Qed.

Lemma reset_index_ok df :
  "level_0" ∉ (fst <$> columns df) -> exists df', reset_index df = Returned df'.
Proof.
  intros H0. unfold reset_index.
  destruct (decide ("index" ∈ (fst <$> columns df))) as [Hin|Hnin].
  - rewrite decide_False by done. by eexists.
  - rewrite decide_False by done. by eexists.
Qed.

Lemma find_column_cons_ne k k' s cols :
  k <> k' -> find_column k ((k', s) :: cols) = find_column k cols.
Proof. intros Hne. simpl. by rewrite decide_False. Qed.

Lemma turns_len_inv df b :
  turns_len_eq_1_all df = Returned b ->
  exists turns, find_column "turns" (columns df) = Some turns
                /\ b = eq1_all (len <$> turns).
Proof.
  unfold turns_len_eq_1_all, mbind, outcome_bind, mret, outcome_ret.
  destruct (getattr df "turns") as [turns|] eqn:Ht; [|done].
  destruct (str_len turns) as [lens|] eqn:Hl; [|done].
  intros [= <-]. apply getattr_Returned in Ht.
  apply str_method_Returned in Hl as ->. by exists turns.
Qed.

Lemma turns_len_ok df turns c :
  find_column "turns" (columns df) = Some turns ->
  c ∈ turns -> is_numeric c = false ->
  turns_len_eq_1_all df = Returned (eq1_all (len <$> turns)).
Proof.
  intros Ht Hc Hn.
  unfold turns_len_eq_1_all, mbind, outcome_bind, mret, outcome_ret.
  rewrite (proj2 (getattr_Returned _ _ _) Ht).
  unfold str_len. by rewrite (str_method_ok _ _ c).
Qed.

Lemma eq1_all_true (s : list cell) :
  eq1_all s = true <-> forall c, c ∈ s -> c = Int 1.
Proof.
  unfold eq1_all. rewrite forallb_forall. split.
  - intros H c Hc. apply list_elem_of_In, H in Hc. by apply bool_decide_eq_true in Hc.
  - intros H c Hc. apply bool_decide_eq_true, H. by apply list_elem_of_In.
Qed.

Lemma set_cols_names k s cols :
  (set_cols k s cols).*1
  = if decide (k ∈ cols.*1) then cols.*1 else cols.*1 ++ [k].
Proof.
  induction cols as [|[k' s'] cols IH].
  - simpl. destruct (decide (k ∈ [])) as [H|_]; [by inversion H|done].
  - cbn [set_cols]. destruct (decide (k = k')) as [->|Hne].
    + rewrite !fmap_cons. simpl.
      destruct (decide (k' ∈ k' :: cols.*1)) as [_|H]; [done|].
      destruct H. by left.
    + rewrite !fmap_cons, IH. simpl.
      destruct (decide (k ∈ cols.*1)) as [Hin|Hnin];
        destruct (decide (k ∈ k' :: cols.*1)) as [Hin'|Hnin']; try done.
      * destruct Hnin'. by right.
      * by apply elem_of_cons in Hin' as [?|?].
Qed.

Lemma set_cols_NoDup k s cols : NoDup cols.*1 -> NoDup (set_cols k s cols).*1.
Proof.
  intros Hnd. rewrite set_cols_names.
  destruct (decide (k ∈ cols.*1)); [done|].
  apply NoDup_app. split; [done|]. split.
  - intros x Hx Hk. apply list_elem_of_singleton in Hk as ->. done.
  - apply NoDup_singleton.
Qed.

(** *** [select] and the query *)
Lemma select_fmap {A B : Type} (f : A -> B) mask (l : list A) :
  select mask (f <$> l) = f <$> select mask l.
Proof.
  revert l. induction mask as [|[|] mask IH]; intros [|x l]; simpl; try done.
  by rewrite IH.
Qed.

Lemma select_filter {A : Type} (p : A -> bool) (l : list A) :
  select (p <$> l) l = List.filter p l.
Proof.
  induction l as [|x l IH]; [done|].
  rewrite fmap_cons. cbn [select List.filter].
  destruct (p x); by rewrite IH.
Qed.

Lemma select_length {A B : Type} (p : A -> bool) (l : list A) (l' : list B) :
  length l' = length l ->
  length (select (p <$> l) l') = length (List.filter p l).
Proof.
  revert l'. induction l as [|x l IH]; intros [|y l'] Hlen; try done.
  rewrite fmap_cons. cbn [select List.filter].
  injection Hlen as Hlen.
  destruct (p x); cbn [length]; by rewrite IH.
Qed.

Lemma query_task_raw recs :
  "task" ∈ keys_of recs ->
  exists df,
    query_ne "task" "AMPS_Hard" (frame_of_records recs) = Returned df
    /\ length (index df) = length (List.filter kept recs)
    /\ (fst <$> columns df) = keys_of recs
    /\ forall k, find_column k (columns df)
                 = if decide (k ∈ keys_of recs)
                   then Some (cell_of k <$> List.filter kept recs) else None.
Proof.
  intros Htask. unfold query_ne.
  rewrite frame_of_records_column by done.
  eexists. split; [done|]. simpl.
  assert ((fun c : cell => bool_decide (c <> Str "AMPS_Hard")) <$>
            (cell_of "task" <$> recs) = kept <$> recs) as ->.
  { rewrite <- list_fmap_compose. done. }
  split; [|split].
  - apply select_length. by rewrite length_fmap, length_seq.
  - rewrite <- !list_fmap_compose.
    rewrite <- (list_fmap_id (keys_of recs)) at 2. by apply list_fmap_ext.
  - intros k. rewrite <- list_fmap_compose.
    rewrite <- (find_column_keyed (fun k => cell_of k <$> List.filter kept recs)).
    f_equal. apply list_fmap_ext. intros _ k' _. simpl.
    by rewrite select_fmap, select_filter.
Qed.

Lemma query_task_missing recs :
  "task" ∉ keys_of recs ->
  query_ne "task" "AMPS_Hard" (frame_of_records recs) = Raised (NameError "task").
Proof.
  intros Htask. unfold query_ne. simpl.
  rewrite find_column_keyed. by rewrite decide_False.
Qed.

Lemma filter_lookup_elem {A : Type} (p : A -> bool) (l : list A) i x :
  List.filter p l !! i = Some x -> x ∈ l /\ p x = true.
Proof.
  intros Hx. apply list_elem_of_lookup_2, list_elem_of_In, filter_In in Hx.
  destruct Hx. split; [by apply list_elem_of_In|done].
Qed.

Lemma query_backed recs df :
  (forall k, find_column k (columns df)
             = if decide (k ∈ keys_of recs)
               then Some (cell_of k <$> List.filter kept recs) else None) ->
  length (index df) = length (List.filter kept recs) ->
  backed_by [] (List.filter kept recs) df.
Proof.
  intros Hcols Hlen. split; [done|].
  intros k i r _ Hr. unfold frame_cell. rewrite Hcols.
  destruct (decide (k ∈ keys_of recs)) as [Hin|Hnin].
  - by rewrite list_lookup_fmap, Hr.
  - symmetry. apply cell_of_absent. intros Hk. apply Hnin.
    apply keys_of_elem_of. exists r.
    split; [by apply filter_lookup_elem in Hr as [? _]|done].
Qed.

(** *** The file system *)
Lemma read_json_inv path fs o fs' :
  read_json path fs = (o, fs') ->
  fs' = fs
  /\ forall df, o = Returned df ->
       exists recs, fs !! path = Some (Jsonl recs) /\ df = frame_of_records recs.
Proof.
  unfold read_json. destruct (fs !! path) as [[recs|h l]|]; intros [= <- <-];
    (split; [done|]); try done.
  intros df [= <-]. by exists recs.
Qed.

Lemma lift_inv {A : Type} (o o' : outcome A) fs fs' :
  lift o fs = (o', fs') -> o' = o /\ fs' = fs.
Proof. by intros [= <- <-]. Qed.

Lemma to_json_inv df path fs o fs' :
  to_json df path fs = (o, fs') ->
  (o = Returned tt /\ NoDup (fst <$> columns df)
   /\ fs' = <[path := Jsonl (to_records df)]> fs)
  \/ (exists e, o = Raised e /\ fs' = fs).
Proof.
  unfold to_json. destruct (decide (NoDup (fst <$> columns df))); intros [= <- <-].
  - by left.
  - right. by eexists.
Qed.

Lemma to_csv_inv df path fs o fs' :
  to_csv df path fs = (o, fs') ->
  o = Returned tt
  /\ fs' = <[path := Csv (fst <$> columns df) (to_lines df)]> fs.
Proof. by intros [= <- <-]. Qed.

Lemma joinpath_inj dir a b : joinpath dir a = joinpath dir b -> a = b.
Proof.
  unfold joinpath. intros H.
  apply (inj (String.app dir)) in H. by apply (inj (String.app "/")) in H.
Qed.
End FrameFacts.

(** ** Running the update scripts *)
Module ScriptFacts.
Import Pandas Livebench FrameSpec FrameFacts.

(** Splits a run that is known to have ended into its steps. *)
Ltac io_inv H :=
  unfold mbind, io_bind, assert_ in H;
  repeat match type of H with
    | context [match ?x with (_, _) => _ end] =>
        lazymatch x with
        | (_, _) => fail
        | lift _ _ => unfold lift at 1 in H
        | _ => destruct x as [[?|?] ?] eqn:?
        end
    | context [match ?x with Returned _ => _ | Raised _ => _ end] =>
        destruct x eqn:?
    end.

(** What has ended: the file system of every step but a successful
    [to_json] or [to_csv] is the one before. *)
Ltac fs_unchanged :=
  repeat match goal with
    | H : read_json _ _ = _ |- _ => apply read_json_inv in H as [-> _]
    | H : to_json _ _ _ = (Raised _, _) |- _ =>
        apply to_json_inv in H as [(? & _)|(? & _ & ->)]; [discriminate|]
    end.

Lemma on_str_compose (f g : string -> string) (s : list cell) :
  on_str f <$> (on_str g <$> s) = on_str (f ∘ g) <$> s.
Proof.
  rewrite <- list_fmap_compose. apply list_fmap_ext. by intros _ [] _.
Qed.

Lemma on_str_is_str f c : is_str (on_str f c) = is_str c.
Proof. by destruct c. Qed.

Lemma is_str_not_numeric c : is_str c = true -> is_numeric c = false.
Proof. by destruct c. Qed.

Lemma str_method_str f s c :
  c ∈ s -> is_str c = true ->
  str_method (on_str f) s = Returned (on_str f <$> s)
  /\ on_str f c ∈ on_str f <$> s /\ is_str (on_str f c) = true.
Proof.
  intros Hin Hc. split; [|split].
  - eapply str_method_ok; [done|by apply is_str_not_numeric].
  - by apply list_elem_of_fmap_2.
  - by rewrite on_str_is_str.
Qed.

(** *** An abort writes nothing *)
Lemma scripts_reasoning_abort d fs e fs' :
  Scripts.process_reasoning_questions d fs = (Raised e, fs') -> fs' = fs.
Proof.
  intros H. unfold Scripts.process_reasoning_questions in H.
  io_inv H; fs_unchanged; try (by injection H as _ <-).
  by apply to_csv_inv in H as [? _].
Qed.

Lemma extras_reasoning_abort d fs e fs' :
  Extras.process_reasoning_questions d fs = (Raised e, fs') -> fs' = fs.
Proof.
  intros H. unfold Extras.process_reasoning_questions in H.
  io_inv H; fs_unchanged; try (by injection H as _ <-).
  by apply to_csv_inv in H as [? _].
Qed.

Lemma extras_math_abort d fs e fs' :
  Extras.process_math_questions d fs = (Raised e, fs') -> fs' = fs.
Proof.
  intros H. unfold Extras.process_math_questions in H.
  io_inv H; fs_unchanged; try (by injection H as _ <-).
  by apply to_csv_inv in H as [? _].
Qed.

(** *** A run that returns, step by step *)
Lemma assert_passed (b : bool) (u : unit) :
  (if b then Returned tt else Raised AssertionError) = Returned u -> b = true.
Proof. by destruct b. Qed.

Lemma scripts_reasoning_Returned d fs fs' :
  Scripts.process_reasoning_questions d fs = (Returned tt, fs') ->
  exists recs A B T,
    fs !! joinpath (reasoning_dir d) "question.jsonl" = Some (Jsonl recs)
    /\ assign_turns_str_ground_truth (frame_of_records recs) = Returned A
    /\ reset_index A = Returned B
    /\ turns_len_eq_1_all (rename "index" "data_point_id" B) = Returned true
    /\ find_column "turns_str" (columns (rename "index" "data_point_id" B))
       = Some T
    /\ let df := set_column "updated_question"
                   (on_str Scripts.reasoning_updated_question <$> T)
                   (rename "index" "data_point_id" B) in
       NoDup (fst <$> columns df)
       /\ fs' = <[joinpath (reasoning_dir d) "updated_questions.csv" :=
                    Csv (fst <$> columns df) (to_lines df)]>
                  (<[joinpath (reasoning_dir d) "updated_questions.jsonl" :=
                       Jsonl (to_records df)]> fs).
Proof.
  intros H. unfold Scripts.process_reasoning_questions in H.
  io_inv H; try discriminate.
  match goal with H : read_json _ _ = _ |- _ =>
    apply read_json_inv in H as [-> Hread];
    destruct (Hread _ eq_refl) as (recs & Hrecs & ->) end.
  match goal with H : (if _ then _ else _) = _ |- _ =>
    apply assert_passed in H as -> end.
  repeat match goal with H : str_replace _ _ _ = Returned _ |- _ =>
    apply str_method_Returned in H as -> end.
  match goal with H : str_strip _ = Returned _ |- _ =>
    apply str_method_Returned in H as -> end.
  rewrite !on_str_compose in *.
  match goal with H : getattr _ _ = Returned _ |- _ =>
    apply getattr_Returned in H end.
  match goal with H : to_json _ _ _ = _ |- _ =>
    apply to_json_inv in H as [(_ & Hnd & ->)|(? & ? & _)]; [|discriminate] end.
  apply to_csv_inv in H as [_ ->].
  eexists recs, _, _, _. repeat split; eauto.
Qed.

Lemma extras_reasoning_Returned d fs fs' :
  Extras.process_reasoning_questions d fs = (Returned tt, fs') ->
  exists recs A T,
    fs !! joinpath (reasoning_dir d) "question.jsonl" = Some (Jsonl recs)
    /\ assign_turns_str_ground_truth (frame_of_records recs) = Returned A
    /\ turns_len_eq_1_all A = Returned true
    /\ find_column "turns_str" (columns A) = Some T
    /\ let df := set_column "updated_question"
                   (on_str Extras.reasoning_updated_question <$> T) A in
       NoDup (fst <$> columns df)
       /\ fs' = <[joinpath (reasoning_dir d) "updated_questions.csv" :=
                    Csv (fst <$> columns df) (to_lines df)]>
                  (<[joinpath (reasoning_dir d) "updated_questions.jsonl" :=
                       Jsonl (to_records df)]> fs).
Proof.
  intros H. unfold Extras.process_reasoning_questions in H.
  io_inv H; try discriminate.
  match goal with H : read_json _ _ = _ |- _ =>
    apply read_json_inv in H as [-> Hread];
    destruct (Hread _ eq_refl) as (recs & Hrecs & ->) end.
  match goal with H : (if _ then _ else _) = _ |- _ =>
    apply assert_passed in H as -> end.
  repeat match goal with H : str_replace _ _ _ = Returned _ |- _ =>
    apply str_method_Returned in H as -> end.
  match goal with H : str_strip _ = Returned _ |- _ =>
    apply str_method_Returned in H as -> end.
  rewrite !on_str_compose in *.
  match goal with H : getattr _ _ = Returned _ |- _ =>
    apply getattr_Returned in H end.
  match goal with H : to_json _ _ _ = _ |- _ =>
    apply to_json_inv in H as [(_ & Hnd & ->)|(? & ? & _)]; [|discriminate] end.
  apply to_csv_inv in H as [_ ->].
  eexists recs, _, _. repeat split; eauto.
Qed.

Lemma extras_math_Returned d fs fs' :
  Extras.process_math_questions d fs = (Returned tt, fs') ->
  exists recs Q A T,
    fs !! joinpath (math_dir d) "question.jsonl" = Some (Jsonl recs)
    /\ query_ne "task" "AMPS_Hard" (frame_of_records recs) = Returned Q
    /\ assign_turns_str_ground_truth Q = Returned A
    /\ find_column "turns_str" (columns A) = Some T
    /\ let df := set_column "updated_question"
                   (on_str Extras.math_updated_question <$> T) A in
       turns_len_eq_1_all df = Returned true
       /\ NoDup (fst <$> columns df)
       /\ fs' = <[joinpath (math_dir d) "updated_questions.csv" :=
                    Csv (fst <$> columns df) (to_lines df)]>
                  (<[joinpath (math_dir d) "updated_questions.jsonl" :=
                       Jsonl (to_records df)]> fs).
Proof.
  intros H. unfold Extras.process_math_questions in H.
  io_inv H; try discriminate.
  match goal with H : read_json _ _ = _ |- _ =>
    apply read_json_inv in H as [-> Hread];
    destruct (Hread _ eq_refl) as (recs & Hrecs & ->) end.
  match goal with H : (if _ then _ else _) = _ |- _ =>
    apply assert_passed in H as -> end.
  repeat match goal with H : str_replace _ _ _ = Returned _ |- _ =>
    apply str_method_Returned in H as -> end.
  repeat match goal with H : str_strip _ = Returned _ |- _ =>
    apply str_method_Returned in H as -> end.
  rewrite !on_str_compose in *.
  match goal with H : getattr _ _ = Returned _ |- _ =>
    apply getattr_Returned in H end.
  match goal with H : to_json _ _ _ = _ |- _ =>
    apply to_json_inv in H as [(_ & Hnd & ->)|(? & ? & _)]; [|discriminate] end.
  apply to_csv_inv in H as [_ ->].
  eexists recs, _, _, _. repeat split; eauto.
Qed.

(** *** From the records read to the frame written *)
Lemma frame_of_records_keyed recs :
  keyed (keys_of recs) recs (frame_of_records recs).
Proof.
  split; [|split].
  - simpl. by rewrite length_fmap, length_seq.
  - simpl. rewrite <- list_fmap_compose.
    rewrite <- (list_fmap_id (keys_of recs)) at 2. by apply list_fmap_ext.
  - intros k. simpl. apply find_column_keyed.
Qed.

Lemma query_task_keyed recs Q :
  query_ne "task" "AMPS_Hard" (frame_of_records recs) = Returned Q ->
  keyed (keys_of recs) (List.filter kept recs) Q.
Proof.
  intros HQ. destruct (decide ("task" ∈ keys_of recs)) as [Hin|Hnin].
  - destruct (query_task_raw recs Hin) as (Q' & HQ' & Hlen & Hnames & Hcols).
    rewrite HQ in HQ'. injection HQ' as <-. by split.
  - by rewrite query_task_missing in HQ.
Qed.

Lemma keyed_backed ks rs df :
  keyed ks rs df ->
  (forall r k, r ∈ rs -> k ∈ r.*1 -> k ∈ ks) ->
  backed_by [] rs df.
Proof.
  intros (Hlen & _ & Hcols) Hcover. split; [done|].
  intros k i r _ Hr. unfold frame_cell. rewrite Hcols.
  destruct (decide (k ∈ ks)) as [Hin|Hnin].
  - by rewrite list_lookup_fmap, Hr.
  - symmetry. apply cell_of_absent. intros Hk. apply Hnin.
    eapply Hcover; [by eapply list_elem_of_lookup_2|done].
Qed.

Lemma keyed_column ks rs df k s :
  keyed ks rs df -> find_column k (columns df) = Some s ->
  k ∈ ks /\ s = cell_of k <$> rs.
Proof.
  intros (_ & _ & Hcols). rewrite Hcols.
  destruct (decide (k ∈ ks)); [|done]. by intros [= <-].
Qed.

Lemma assign_keyed ks rs df A :
  keyed ks rs df -> assign_turns_str_ground_truth df = Returned A ->
  index A = index df
  /\ find_column "turns" (columns A) = Some (cell_of "turns" <$> rs)
  /\ find_column "turns_str" (columns A)
     = Some (get0 <$> (cell_of "turns" <$> rs))
  /\ (forall k, k <> "turns_str" -> k <> "ground_truth" ->
        find_column k (columns A) = find_column k (columns df))
  /\ (forall k, k ∈ fst <$> columns A ->
        k ∈ ks \/ k = "turns_str" \/ k = "ground_truth")
  /\ (NoDup ks -> NoDup (fst <$> columns A)).
Proof.
  intros Hkeyed HA. pose proof Hkeyed as (Hlen & Hnames & Hcols).
  apply assign_inv in HA as (turns & gt & Ht & Hg & ->).
  apply (keyed_column ks rs) in Ht as [Htk ->]; [|done].
  simpl. split; [done|]. split; [|split; [|split; [|split]]].
  - rewrite !find_column_set_cols_ne by done. rewrite Hcols. by rewrite decide_True.
  - rewrite find_column_set_cols_ne by done. apply find_column_set_cols_eq.
  - intros k H1 H2. by rewrite !find_column_set_cols_ne.
  - intros k. rewrite !set_cols_names, Hnames.
    repeat case_decide; rewrite ?elem_of_app, ?list_elem_of_singleton; tauto.
  - intros Hnd. apply set_cols_NoDup, set_cols_NoDup. by rewrite Hnames.
Qed.

Lemma single_turn_all (rs : list record) :
  eq1_all (len <$> (cell_of "turns" <$> rs)) = true ->
  forall r, r ∈ rs -> single_turn r = true.
Proof.
  intros Hall r Hr. apply bool_decide_eq_true.
  apply (proj1 (eq1_all_true _) Hall).
  by apply list_elem_of_fmap_2, list_elem_of_fmap_2.
Qed.

Lemma not_touched k :
  k ∉ touched ->
  k <> "turns_str" /\ k <> "ground_truth" /\ k <> "updated_question"
  /\ k <> "index" /\ k <> "level_0" /\ k <> "data_point_id".
Proof.
  unfold touched. rewrite !not_elem_of_cons. tauto.
Qed.

Lemma extras_reasoning_carries recs A T :
  assign_turns_str_ground_truth (frame_of_records recs) = Returned A ->
  turns_len_eq_1_all A = Returned true ->
  find_column "turns_str" (columns A) = Some T ->
  carries Extras.reasoning_updated_question recs
    (set_column "updated_question"
       (on_str Extras.reasoning_updated_question <$> T) A).
Proof.
  intros HA Hlen HT.
  pose proof (frame_of_records_keyed recs) as Hkeyed.
  destruct (assign_keyed _ _ _ _ Hkeyed HA) as (Hidx & Hturns & Hts & Hsame & _).
  rewrite Hts in HT. injection HT as <-.
  apply turns_len_inv in Hlen as (turns & Hturns' & Hall).
  rewrite Hturns in Hturns'. injection Hturns' as <-.
  split.
  - eapply backed_by_step; [| |apply (backed_by_weaken []);
      [by intros ? H; inversion H|apply frame_of_records_backed]].
    + simpl. by rewrite Hidx.
    + intros k Hk. apply not_touched in Hk as (? & ? & ? & _). simpl.
      rewrite find_column_set_cols_ne by done. by apply Hsame.
  - by apply single_turn_all.
  - simpl. by rewrite find_column_set_cols_ne.
  - simpl. apply find_column_set_cols_eq.
Qed.

Lemma find_column_renamed k B :
  k <> "index" -> k <> "data_point_id" ->
  find_column k (columns (rename "index" "data_point_id" B))
  = find_column k (columns B).
Proof. intros H1 H2. simpl. by apply find_column_rename_ne. Qed.

Lemma find_column_reset k A B :
  reset_index A = Returned B -> k <> "index" -> k <> "level_0" ->
  find_column k (columns B) = find_column k (columns A)
  /\ length (index B) = length (index A).
Proof.
  intros HB H1 H2.
  apply reset_index_inv in HB as (kk & [->| ->] & _ & _ & ->); simpl;
    rewrite decide_False by done;
    by rewrite length_fmap, length_seq.
Qed.

Lemma scripts_reasoning_carries recs A B T :
  assign_turns_str_ground_truth (frame_of_records recs) = Returned A ->
  reset_index A = Returned B ->
  turns_len_eq_1_all (rename "index" "data_point_id" B) = Returned true ->
  find_column "turns_str" (columns (rename "index" "data_point_id" B)) = Some T ->
  carries Scripts.reasoning_updated_question recs
    (set_column "updated_question"
       (on_str Scripts.reasoning_updated_question <$> T)
       (rename "index" "data_point_id" B)).
Proof.
  intros HA HB Hlen HT.
  pose proof (frame_of_records_keyed recs) as Hkeyed.
  destruct (assign_keyed _ _ _ _ Hkeyed HA) as (Hidx & Hturns & Hts & Hsame & _).
  rewrite find_column_renamed in HT by done.
  destruct (find_column_reset "turns_str" A B HB) as [Hts' Hlen']; [done..|].
  rewrite Hts', Hts in HT. injection HT as <-.
  apply turns_len_inv in Hlen as (turns & Hturns' & Hall).
  rewrite find_column_renamed in Hturns' by done.
  destruct (find_column_reset "turns" A B HB) as [Ht' _]; [done..|].
  rewrite Ht', Hturns in Hturns'. injection Hturns' as <-.
  split.
  - eapply backed_by_step; [| |apply (backed_by_weaken []);
      [by intros ? H; inversion H|apply frame_of_records_backed]].
    + simpl. by rewrite Hlen', Hidx.
    + intros k Hk. apply not_touched in Hk as (? & ? & ? & ? & ? & ?).
      cbn [set_column columns].
      rewrite find_column_set_cols_ne by done.
      rewrite find_column_renamed by done.
      destruct (find_column_reset k A B HB) as [-> _]; [done..|].
      by apply Hsame.
  - by apply single_turn_all.
  - cbn [set_column columns]. rewrite find_column_set_cols_ne by done.
    rewrite find_column_renamed by done. by rewrite Hts'.
  - cbn [set_column columns]. apply find_column_set_cols_eq.
Qed.

Lemma filter_kept_cover recs r k :
  r ∈ List.filter kept recs -> k ∈ r.*1 -> k ∈ keys_of recs.
Proof.
  intros Hr Hk. apply keys_of_elem_of. exists r. split; [|done].
  apply list_elem_of_In, filter_In in Hr as [Hr _]. by apply list_elem_of_In.
Qed.

Lemma extras_math_carries recs Q A T :
  query_ne "task" "AMPS_Hard" (frame_of_records recs) = Returned Q ->
  assign_turns_str_ground_truth Q = Returned A ->
  find_column "turns_str" (columns A) = Some T ->
  turns_len_eq_1_all
    (set_column "updated_question"
       (on_str Extras.math_updated_question <$> T) A) = Returned true ->
  carries Extras.math_updated_question (List.filter kept recs)
    (set_column "updated_question"
       (on_str Extras.math_updated_question <$> T) A).
Proof.
  intros HQ HA HT Hlen.
  pose proof (query_task_keyed recs Q HQ) as Hkeyed.
  destruct (assign_keyed _ _ _ _ Hkeyed HA) as (Hidx & Hturns & Hts & Hsame & _).
  rewrite Hts in HT. injection HT as <-.
  apply turns_len_inv in Hlen as (turns & Hturns' & Hall).
  cbn [set_column columns] in Hturns'.
  rewrite find_column_set_cols_ne, Hturns in Hturns' by done.
  injection Hturns' as <-.
  split.
  - eapply backed_by_step; [| |apply (backed_by_weaken []);
      [by intros ? H; inversion H|
       apply (keyed_backed (keys_of recs)); [done|apply filter_kept_cover]]].
    + simpl. by rewrite Hidx.
    + intros k Hk. apply not_touched in Hk as (? & ? & ? & _). simpl.
      rewrite find_column_set_cols_ne by done. by apply Hsame.
  - by apply single_turn_all.
  - simpl. by rewrite find_column_set_cols_ne.
  - simpl. apply find_column_set_cols_eq.
Qed.

(** *** The records written *)
Lemma find_column_names k cols s :
  find_column k cols = Some s -> k ∈ fst <$> cols.
Proof.
  induction cols as [|[k' s'] cols IH]; simpl; [done|].
  destruct (decide (k = k')) as [->|Hne]; [intros _; by left|].
  intros H. right. by apply IH.
Qed.

Lemma carries_records chain rs df :
  carries chain rs df ->
  length (to_records df) = length rs
  /\ length (to_lines df) = length rs
  /\ Forall2 (carried_through chain) rs (to_records df)
  /\ Forall (fun o => o.*1 = fst <$> columns df) (to_records df).
Proof.
  intros [[Hlen Hcell] Hsingle Hts Huq].
  rewrite to_records_length, to_lines_length.
  split; [done|]. split; [done|]. split.
  - apply Forall2_same_length_lookup. split; [by rewrite to_records_length|].
    intros i r o Hr Ho.
    apply to_records_lookup in Ho as (Hi & Hnames & Hcells).
    split; [|split; [|split; [|split]]].
    + intros k Hk. rewrite Hcells. by apply Hcell.
    + rewrite Hcells. unfold frame_cell. rewrite Hts.
      by rewrite !list_lookup_fmap, Hr.
    + rewrite Hcells. unfold frame_cell. rewrite Huq.
      by rewrite !list_lookup_fmap, Hr.
    + rewrite Hnames. by eapply find_column_names.
    + rewrite Hnames. by eapply find_column_names.
  - apply Forall_lookup. intros i o Ho.
    by apply to_records_lookup in Ho as (_ & Hnames & _).
Qed.

(** *** The cells of a well-formed question *)
Lemma cell_of_present k (r : record) : cell_of k r <> NaN -> k ∈ r.*1.
Proof.
  intros Hc. destruct (decide (k ∈ r.*1)) as [|Hnin]; [done|].
  by apply cell_of_absent in Hnin.
Qed.

Lemma question_like_cells r :
  question_like r = true ->
  is_numeric (cell_of "turns" r) = false
  /\ is_numeric (cell_of "ground_truth" r) = false
  /\ "turns" ∈ r.*1 /\ "ground_truth" ∈ r.*1.
Proof.
  unfold question_like. intros H.
  split; [|split; [|split]]; try apply cell_of_present;
    by destruct (cell_of "turns" r), (cell_of "ground_truth" r).
Qed.

(** *** The two versions side by side *)
Lemma rename_absent old new (cols : list (string * list cell)) :
  old ∉ fst <$> cols ->
  (fun c : string * list cell =>
     (if decide (c.1 = old) then new else c.1, c.2)) <$> cols = cols.
Proof.
  induction cols as [|[k s] cols IH]; [done|].
  rewrite !fmap_cons, not_elem_of_cons. simpl. intros [Hne Hnin].
  rewrite decide_False by done. by rewrite IH.
Qed.

Lemma scripts_frame_explicit recs A B :
  assign_turns_str_ground_truth (frame_of_records recs) = Returned A ->
  reset_index A = Returned B ->
  "index" ∉ keys_of recs ->
  rename "index" "data_point_id" B
  = {| index := Z.of_nat <$> seq 0 (length recs);
       columns := ("data_point_id", Int <$> (Z.of_nat <$> seq 0 (length recs)))
                  :: columns A |}.
Proof.
  intros HA HB Hindex.
  pose proof (frame_of_records_keyed recs) as Hkeyed.
  destruct (assign_keyed _ _ _ _ Hkeyed HA) as (Hidx & _ & _ & _ & Hnames & _).
  assert ("index" ∉ fst <$> columns A) as Hnin.
  { intros Hin. by apply Hnames in Hin as [?|[?|?]]. }
  apply reset_index_inv in HB as (kk & _ & _ & Hkk & ->).
  rewrite (Hkk Hnin). unfold rename. cbn [index columns].
  rewrite fmap_cons. cbn [fst snd]. rewrite decide_True by done.
  rewrite rename_absent by done. rewrite Hidx. simpl.
  by rewrite length_fmap, length_seq.
Qed.

Lemma to_records_lookup_Some df i :
  i < length (index df) ->
  to_records df !! i
  = Some (zip (fst <$> columns df) (row_cells (columns df) i)).
Proof.
  intros Hi. unfold to_records.
  by rewrite list_lookup_fmap, lookup_seq_lt.
Qed.

Lemma on_str_lookup f (T : list cell) i :
  default NaN ((on_str f <$> T) !! i) = on_str f (default NaN (T !! i)).
Proof. rewrite list_lookup_fmap. by destruct (T !! i). Qed.

Lemma zip_row_cons (k : string) (s : list cell) cols i :
  zip (fst <$> ((k, s) :: cols)) (row_cells ((k, s) :: cols) i)
  = (k, default NaN (s !! i)) :: zip (fst <$> cols) (row_cells cols i).
Proof. reflexivity. Qed.

(** *** Well-formed questions with one turn are written *)
Lemma str_method_total f (s : list cell) :
  Forall (fun c => is_numeric c = false) s ->
  str_method f s = Returned (f <$> s).
Proof.
  intros Hall. destruct s as [|c s]; [done|].
  apply (str_method_ok f _ c); [by left|].
  by apply Forall_cons in Hall as [? _].
Qed.

Lemma str_chain_step f (s : list cell) :
  Forall (fun c => is_str c = true) s ->
  str_method (on_str f) s = Returned (on_str f <$> s)
  /\ Forall (fun c => is_str c = true) (on_str f <$> s).
Proof.
  intros Hall. split.
  - apply str_method_total. eapply Forall_impl; [exact Hall|].
    intros c. apply is_str_not_numeric.
  - apply Forall_fmap. eapply Forall_impl; [exact Hall|].
    intros c Hc. simpl. by rewrite on_str_is_str.
Qed.

Lemma single_turn_first (r : record) :
  question_like r = true -> single_turn r = true ->
  is_str (get0 (cell_of "turns" r)) = true.
Proof.
  unfold question_like, single_turn. intros Hq Hs.
  apply bool_decide_eq_true in Hs.
  destruct (cell_of "turns" r) as [| | |[|x l]]; try done.
Qed.

Lemma assign_keyed_total ks rs df :
  keyed ks rs df ->
  Forall (fun r => question_like r = true) rs ->
  "turns" ∈ ks -> "ground_truth" ∈ ks ->
  exists A, assign_turns_str_ground_truth df = Returned A.
Proof.
  intros (_ & _ & Hcols) Hall Ht Hg.
  unfold assign_turns_str_ground_truth, mbind, outcome_bind, mret, outcome_ret.
  rewrite (proj2 (getattr_Returned df "turns" (cell_of "turns" <$> rs)));
    [|by rewrite Hcols, decide_True].
  unfold str_get0. rewrite str_method_total.
  2:{ apply Forall_fmap. eapply Forall_impl; [exact Hall|].
      intros r Hr. simpl. by apply question_like_cells in Hr as (? & _). }
  unfold getattr. cbn [set_column columns].
  rewrite find_column_set_cols_ne, Hcols, decide_True by done.
  unfold str_strip. rewrite str_method_total; [by eexists|].
  apply Forall_fmap. eapply Forall_impl; [exact Hall|].
  intros r Hr. simpl. by apply question_like_cells in Hr as (_ & ? & _).
Qed.

Lemma turns_len_true df rs :
  find_column "turns" (columns df) = Some (cell_of "turns" <$> rs) ->
  Forall (fun r => question_like r = true) rs ->
  Forall (fun r => single_turn r = true) rs ->
  turns_len_eq_1_all df = Returned true.
Proof.
  intros Hcol Hq Hs.
  unfold turns_len_eq_1_all, mbind, outcome_bind, mret, outcome_ret.
  rewrite (proj2 (getattr_Returned _ _ _) Hcol).
  unfold str_len. rewrite str_method_total.
  2:{ apply Forall_fmap. eapply Forall_impl; [exact Hq|].
      intros r Hr. simpl. by apply question_like_cells in Hr as (? & _). }
  f_equal. apply eq1_all_true. intros c Hc.
  apply list_elem_of_fmap in Hc as (c' & -> & Hc').
  apply list_elem_of_fmap in Hc' as (r & -> & Hr).
  apply (proj1 (Forall_forall _ _) Hs) in Hr. by apply bool_decide_eq_true in Hr.
Qed.

Lemma first_turns_str (rs : list record) :
  Forall (fun r => question_like r = true) rs ->
  Forall (fun r => single_turn r = true) rs ->
  Forall (fun c => is_str c = true) (get0 <$> (cell_of "turns" <$> rs)).
Proof.
  intros Hq Hs. rewrite <- list_fmap_compose. apply Forall_fmap.
  apply Forall_forall. intros r Hr. simpl.
  apply single_turn_first.
  - exact (proj1 (Forall_forall _ _) Hq r Hr).
  - exact (proj1 (Forall_forall _ _) Hs r Hr).
Qed.

Lemma keys_of_nonempty k (recs : list record) r :
  r ∈ recs -> cell_of k r <> NaN -> k ∈ keys_of recs.
Proof.
  intros Hr Hc. apply keys_of_elem_of. exists r. split; [done|].
  by apply cell_of_present.
Qed.

End ScriptFacts.

(** ** The claims about the update scripts *)
Module ScriptClaims.
Import Pandas Livebench FrameSpec Samples StringFacts FrameFacts ScriptFacts.

(** C10. The replacement chain of [process_reasoning_questions] (remove
    every [in **bold**], then every [**], then strip) is idempotent, and its
    output holds no [**] and neither starts nor ends with whitespace. *)
Theorem reasoning_chain_idempotent (s : string) :
  let t := Scripts.reasoning_updated_question s in
  Scripts.reasoning_updated_question t = t
  /\ contains "**" t = false
  /\ (forall c r, t = String c r -> isspace c = false)
  /\ (forall c r, t = r +:+ String c "" -> isspace c = false).
Proof.
  intros t.
  assert (contains "**" t = false) as Hstars.
  { destruct (contains "**" t) eqn:Hc; [|done].
    apply strip_contains in Hc. by rewrite replace_stars_absent in Hc. }
  assert (contains "in **bold**" t = false) as Hbold.
  { destruct (contains "in **bold**" t) eqn:Hc; [|done].
    apply (contains_inner "in " "**" "bold**") in Hc. congruence. }
  split; [|split; [done|split]].
  - unfold Scripts.reasoning_updated_question at 1.
    rewrite (replace_absent "in **bold**") by done.
    rewrite (replace_absent "**") by done.
    apply strip_idemp.
  - intros c r Ht. by eapply strip_first.
  - intros c r Ht. by eapply strip_last.
Qed.

(** C6, as the code has it. When a record that the function keeps (the math
    function first drops the records of task AMPS_Hard) has a [turns] that is
    not of length one, the run raises and leaves the file system as it was:
    no output file is written. The exception is the assertion's, unless a
    step before the assertion has raised its own. *)
Theorem failed_assertion_writes_nothing
    (d : string) (fs : gmap string file) (recs : list record) (r : record) :
  r ∈ recs -> single_turn r = false ->
  (fs !! joinpath (reasoning_dir d) "question.jsonl" = Some (Jsonl recs) ->
   exists e, Scripts.process_reasoning_questions d fs = (Raised e, fs))
  /\ (fs !! joinpath (math_dir d) "question.jsonl" = Some (Jsonl recs) ->
      kept r = true ->
      exists e, Extras.process_math_questions d fs = (Raised e, fs)).
Proof.
  intros Hr Hs. split.
  - intros Hfs.
    destruct (Scripts.process_reasoning_questions d fs) as [[[]|e] fs'] eqn:Hrun.
    + apply scripts_reasoning_Returned in Hrun
        as (recs' & A & B & T & Hfs' & HA & HB & Hlen & HT & _).
      rewrite Hfs in Hfs'. injection Hfs' as <-.
      pose proof (scripts_reasoning_carries recs A B T HA HB Hlen HT) as Hc.
      by rewrite (c_single _ _ _ Hc r Hr) in Hs.
    + pose proof (scripts_reasoning_abort _ _ _ _ Hrun) as ->. by exists e.
  - intros Hfs Hkept.
    destruct (Extras.process_math_questions d fs) as [[[]|e] fs'] eqn:Hrun.
    + apply extras_math_Returned in Hrun
        as (recs' & Q & A & T & Hfs' & HQ & HA & HT & Hlen & _).
      rewrite Hfs in Hfs'. injection Hfs' as <-.
      pose proof (extras_math_carries recs Q A T HQ HA HT Hlen) as Hc.
      rewrite (c_single _ _ _ Hc r) in Hs; [done|].
      apply list_elem_of_In, filter_In. split; [by apply list_elem_of_In|done].
    + pose proof (extras_math_abort _ _ _ _ Hrun) as ->. by exists e.
Qed.

(** C7, as the code has it. When a function returns, the JSON-lines file it
    has written holds exactly one record per record it keeps, in order: the
    reasoning function keeps every input record, the math function those
    whose task is not AMPS_Hard. Each output record carries its input record
    through, with [turns_str] and [updated_question] added. The CSV file
    holds the same records: its header is the key list of every JSON record,
    the keys are distinct, and its lines are the records' values. *)
Theorem one_output_record_per_kept_record
    (d : string) (fs : gmap string file) (recs : list record) :
  (fs !! joinpath (reasoning_dir d) "question.jsonl" = Some (Jsonl recs) ->
   forall fs',
     Scripts.process_reasoning_questions d fs = (Returned tt, fs') ->
     exists out header lines,
       fs' !! joinpath (reasoning_dir d) "updated_questions.jsonl"
         = Some (Jsonl out)
       /\ fs' !! joinpath (reasoning_dir d) "updated_questions.csv"
            = Some (Csv header lines)
       /\ length out = length recs /\ length lines = length recs
       /\ Forall2 (carried_through Scripts.reasoning_updated_question) recs out
       /\ Forall (fun o => o.*1 = header) out
       /\ out = zip header <$> lines /\ NoDup header)
  /\ (fs !! joinpath (math_dir d) "question.jsonl" = Some (Jsonl recs) ->
      forall fs',
        Extras.process_math_questions d fs = (Returned tt, fs') ->
        exists out header lines,
          fs' !! joinpath (math_dir d) "updated_questions.jsonl"
            = Some (Jsonl out)
          /\ fs' !! joinpath (math_dir d) "updated_questions.csv"
               = Some (Csv header lines)
          /\ length out = length (List.filter kept recs)
          /\ length lines = length (List.filter kept recs)
          /\ Forall2 (carried_through Extras.math_updated_question)
               (List.filter kept recs) out
          /\ Forall (fun o => o.*1 = header) out
          /\ out = zip header <$> lines /\ NoDup header).
Proof.
  assert (forall df, to_records df = zip (fst <$> columns df) <$> to_lines df)
    as Hlines.
  { intros df. unfold to_records, to_lines. by rewrite <- list_fmap_compose. }
  split; intros Hfs fs' Hrun.
  - apply scripts_reasoning_Returned in Hrun
      as (recs' & A & B & T & Hfs' & HA & HB & Hlen & HT & Hnd & ->).
    rewrite Hfs in Hfs'. injection Hfs' as <-.
    pose proof (scripts_reasoning_carries recs A B T HA HB Hlen HT) as Hc.
    apply carries_records in Hc as (H1 & H2 & H3 & H4).
    eexists _, _, _. split.
    { rewrite lookup_insert_ne; [apply lookup_insert_eq|].
      intros Heq. by apply joinpath_inj in Heq. }
    split; [apply lookup_insert_eq|]. by repeat split.
  - apply extras_math_Returned in Hrun
      as (recs' & Q & A & T & Hfs' & HQ & HA & HT & Hlen & Hnd & ->).
    rewrite Hfs in Hfs'. injection Hfs' as <-.
    pose proof (extras_math_carries recs Q A T HQ HA HT Hlen) as Hc.
    apply carries_records in Hc as (H1 & H2 & H3 & H4).
    eexists _, _, _. split.
    { rewrite lookup_insert_ne; [apply lookup_insert_eq|].
      intros Heq. by apply joinpath_inj in Heq. }
    split; [apply lookup_insert_eq|]. by repeat split.
Qed.

(** C8. The two versions of [process_reasoning_questions] apply different
    replacement chains, and on the same records (none of which has a column
    [index] or [data_point_id] of its own) the scripts/ version writes every
    record with a leading [data_point_id], its position, where the extras/
    version writes no such column; the records agree everywhere else but in
    [updated_question], each version's chain applied to [turns_str]. *)
Theorem script_versions_differ
    (d_s d_e : string) (fs_s fs_e fs_s' fs_e' : gmap string file)
    (recs : list record) :
  fs_s !! joinpath (reasoning_dir d_s) "question.jsonl" = Some (Jsonl recs) ->
  fs_e !! joinpath (reasoning_dir d_e) "question.jsonl" = Some (Jsonl recs) ->
  "index" ∉ keys_of recs -> "data_point_id" ∉ keys_of recs ->
  Scripts.process_reasoning_questions d_s fs_s = (Returned tt, fs_s') ->
  Extras.process_reasoning_questions d_e fs_e = (Returned tt, fs_e') ->
  Scripts.reasoning_updated_question bold_instruction
    <> Extras.reasoning_updated_question bold_instruction
  /\ exists out_s out_e,
       fs_s' !! joinpath (reasoning_dir d_s) "updated_questions.jsonl"
         = Some (Jsonl out_s)
       /\ fs_e' !! joinpath (reasoning_dir d_e) "updated_questions.jsonl"
            = Some (Jsonl out_e)
       /\ length out_s = length recs /\ length out_e = length recs
       /\ forall i o_e, out_e !! i = Some o_e ->
            ("data_point_id" ∉ o_e.*1)
            /\ exists rest,
                 out_s !! i = Some (("data_point_id", Int (Z.of_nat i)) :: rest)
                 /\ rest.*1 = o_e.*1
                 /\ (forall k, k <> "updated_question" ->
                       cell_of k rest = cell_of k o_e)
                 /\ cell_of "updated_question" rest
                    = on_str Scripts.reasoning_updated_question
                        (cell_of "turns_str" o_e)
                 /\ cell_of "updated_question" o_e
                    = on_str Extras.reasoning_updated_question
                        (cell_of "turns_str" o_e).
Proof.
  intros Hs He Hindex Hid Hrun_s Hrun_e.
  split; [by vm_compute|].
  apply scripts_reasoning_Returned in Hrun_s
    as (recs' & A & B & T & Hs' & HA & HB & _ & HT & _ & ->).
  rewrite Hs in Hs'. injection Hs' as <-.
  apply extras_reasoning_Returned in Hrun_e
    as (recs' & A' & T' & He' & HA' & _ & HT' & _ & ->).
  rewrite He in He'. injection He' as <-.
  rewrite HA in HA'. injection HA' as <-.
  rewrite (scripts_frame_explicit recs A B HA HB Hindex) in *.
  cbn [columns] in HT. rewrite find_column_cons_ne, HT' in HT by done.
  injection HT as <-.
  pose proof (frame_of_records_keyed recs) as Hkeyed.
  destruct (assign_keyed _ _ _ _ Hkeyed HA) as (Hidx & _ & _ & _ & Hnames & _).
  assert (length (index A) = length recs) as Hrows
    by (rewrite Hidx; simpl; by rewrite length_fmap, length_seq).
  eexists _, _. split.
  { rewrite lookup_insert_ne; [apply lookup_insert_eq|].
    intros Heq. by apply joinpath_inj in Heq. }
  split.
  { rewrite lookup_insert_ne; [apply lookup_insert_eq|].
    intros Heq. by apply joinpath_inj in Heq. }
  split; [rewrite to_records_length; simpl; by rewrite length_fmap, length_seq|].
  split; [by rewrite to_records_length|].
  intros i o_e Ho.
  pose proof (to_records_lookup _ _ _ Ho) as (Hi & Hkeys & Hcells).
  cbn [set_column columns index] in *.
  split.
  - rewrite Hkeys, set_cols_names. intros Hin.
    assert ("data_point_id" ∈ fst <$> columns A) as Hin'.
    { destruct (decide ("updated_question" ∈ fst <$> columns A)); [done|].
      by apply elem_of_app in Hin as [?|?%list_elem_of_singleton]. }
    by apply Hnames in Hin' as [?|[?|?]].
  - set (cols := set_cols "updated_question"
                   (on_str Scripts.reasoning_updated_question <$> T') (columns A)).
    exists (zip (fst <$> cols) (row_cells cols i)).
    split; [|split; [|split; [|split]]].
    + rewrite to_records_lookup_Some
        by (simpl; rewrite length_fmap, length_seq; lia).
      cbn [set_column columns set_cols]. rewrite decide_False by done.
      fold cols. rewrite zip_row_cons.
      by rewrite !list_lookup_fmap, lookup_seq_lt by lia.
    + rewrite fst_zip by (unfold row_cells; by rewrite !length_fmap).
      unfold cols. by rewrite Hkeys, !set_cols_names.
    + intros k Hk. rewrite Hcells. unfold frame_cell, cols.
      cbn [set_column columns].
      rewrite cell_of_zip_row. by rewrite !find_column_set_cols_ne.
    + unfold cols.
      rewrite cell_of_zip_row, find_column_set_cols_eq, Hcells.
      unfold frame_cell. cbn [set_column columns].
      rewrite find_column_set_cols_ne, HT' by done. apply on_str_lookup.
    + rewrite !Hcells. unfold frame_cell. cbn [set_column columns].
      rewrite find_column_set_cols_eq, find_column_set_cols_ne, HT' by done.
      apply on_str_lookup.
Qed.

(** *** Concrete runs *)
(** C6: a record of task AMPS_Hard with two turns is dropped by the math
    function's filter before the assertion is evaluated: the run returns and
    writes both output files. *)
Lemma math_filter_hides_second_turn :
  q_amps_two_turns ∈ [q_math; q_amps_two_turns]
  /\ single_turn q_amps_two_turns = false
  /\ (Extras.process_math_questions "d" math_disk_two_turns).1 = Returned tt
  /\ written_count (Extras.process_math_questions "d" math_disk_two_turns).2
       "d/math/updated_questions.jsonl" = Some 1
  /\ written_count (Extras.process_math_questions "d" math_disk_two_turns).2
       "d/math/updated_questions.csv" = Some 1.
Proof.
  split; [apply list_elem_of_further, list_elem_of_here|].
  repeat split; vm_compute; reflexivity.
Qed.

(** C6 at a reasoning dataset whose second record has two turns: the
    assertion fails. *)
Lemma failed_assertion_writes_nothing_witness :
  q_two_turns ∈ [q_bold; q_two_turns]
  /\ single_turn q_two_turns = false
  /\ Scripts.process_reasoning_questions "d" reasoning_disk_two_turns
     = (Raised AssertionError, reasoning_disk_two_turns).
Proof.
  assert (q_two_turns ∈ [q_bold; q_two_turns]) as Hin
    by apply list_elem_of_further, list_elem_of_here.
  assert (single_turn q_two_turns = false) as Hs by reflexivity.
  split; [exact Hin|]. split; [exact Hs|].
  destruct (failed_assertion_writes_nothing "d" reasoning_disk_two_turns
              [q_bold; q_two_turns] q_two_turns Hin Hs) as [Hreasoning _].
  destruct Hreasoning as (e & Hrun); [vm_compute; reflexivity|].
  rewrite Hrun. f_equal. f_equal.
  assert ((Scripts.process_reasoning_questions "d"
             reasoning_disk_two_turns).1 = Raised AssertionError) as He
    by (vm_compute; reflexivity).
  rewrite Hrun in He. by injection He.
Defined.

(** C7: of two input records the math function writes one, the record of
    task AMPS_Hard is dropped. *)
Lemma math_drops_AMPS_Hard_record :
  length [q_math; q_amps] = 2
  /\ (Extras.process_math_questions "d" math_disk).1 = Returned tt
  /\ written_count (Extras.process_math_questions "d" math_disk).2
       "d/math/updated_questions.jsonl" = Some 1
  /\ written_count (Extras.process_math_questions "d" math_disk).2
       "d/math/updated_questions.csv" = Some 1.
Proof. repeat split; vm_compute; reflexivity. Qed.

(** C7 at the math dataset above: one record written for the one kept. *)
Lemma one_output_record_per_kept_record_witness :
  exists out header lines,
    (Extras.process_math_questions "d" math_disk).2
      !! joinpath (math_dir "d") "updated_questions.jsonl" = Some (Jsonl out)
    /\ (Extras.process_math_questions "d" math_disk).2
         !! joinpath (math_dir "d") "updated_questions.csv"
       = Some (Csv header lines)
    /\ length out = length (List.filter kept [q_math; q_amps])
    /\ length lines = length (List.filter kept [q_math; q_amps])
    /\ Forall2 (carried_through Extras.math_updated_question)
         (List.filter kept [q_math; q_amps]) out
    /\ Forall (fun o => o.*1 = header) out
    /\ out = zip header <$> lines /\ NoDup header.
Proof.
  destruct (one_output_record_per_kept_record "d" math_disk [q_math; q_amps])
    as [_ Hmath].
  apply Hmath; vm_compute; reflexivity.
Defined.

(** C8 on the two records of the end-to-end scenario. *)
Lemma script_versions_differ_witness :
  ("index" ∉ keys_of [q_bold; q_digit])
  /\ ("data_point_id" ∉ keys_of [q_bold; q_digit])
  /\ (Scripts.process_reasoning_questions "d" reasoning_disk).1 = Returned tt
  /\ (Extras.process_reasoning_questions "d" reasoning_disk).1 = Returned tt
  /\ Scripts.reasoning_updated_question bold_instruction
     <> Extras.reasoning_updated_question bold_instruction.
Proof.
  assert ("index" ∉ keys_of [q_bold; q_digit]) as H1
    by (apply (bool_decide_unpack _); vm_compute; exact I).
  assert ("data_point_id" ∉ keys_of [q_bold; q_digit]) as H2
    by (apply (bool_decide_unpack _); vm_compute; exact I).
  split; [exact H1|]. split; [exact H2|].
  split; [vm_compute; reflexivity|]. split; [vm_compute; reflexivity|].
  apply (script_versions_differ "d" "d" reasoning_disk reasoning_disk
           (Scripts.process_reasoning_questions "d" reasoning_disk).2
           (Extras.process_reasoning_questions "d" reasoning_disk).2
           [q_bold; q_digit]); try exact H1; try exact H2;
    vm_compute; reflexivity.
Defined.

Example scripts_reasoning_output :
  (Scripts.process_reasoning_questions "d" reasoning_disk).2
    !! "d/reasoning/updated_questions.jsonl"
  = Some (Jsonl
      [ [ ("data_point_id", Int 0); ("question_id", Str "q-zebra_puzzle");
          ("task", Str "zebra_puzzle"); ("turns", Arr [bold_instruction]);
          ("ground_truth", Str "sphere"); ("turns_str", Str bold_instruction);
          ("updated_question",
           Str "Think step by step, and answer  as a single phrase (for example, sphere).") ];
        [ ("data_point_id", Int 1); ("question_id", Str "q-spatial");
          ("task", Str "spatial");
          ("turns", Arr ["Return a single digit number, in the following format: **N**."]);
          ("ground_truth", Str "3");
          ("turns_str", Str "Return a single digit number, in the following format: **N**.");
          ("updated_question",
           Str "Return a single digit number, in the following format: N.") ] ]).
Proof. vm_compute. reflexivity. Qed.

Example extras_reasoning_output_first :
  (fun o => cell_of "updated_question" <$> o)
    (match (Extras.process_reasoning_questions "d" reasoning_disk).2
             !! "d/reasoning/updated_questions.jsonl" with
     | Some (Jsonl out) => out
     | _ => []
     end)
  = [ Str "Think step by step, and answer as a single phrase (for example, sphere).";
      Str "Return a single digit number, in the following format: N." ].
Proof. vm_compute. reflexivity. Qed.
End ScriptClaims.

(** ** The update functions as pipelines *)
Module UpdateFacts.
Import Pandas Livebench FrameSpec Updates FrameFacts ScriptFacts.

Ltac build_steps :=
  repeat match goal with
    | |- context [match ?x with Returned _ => _ | Raised _ => _ end] =>
        lazymatch x with
        | context [match _ with Returned _ => _ | Raised _ => _ end] => fail
        | _ => destruct x; simpl; try reflexivity
        end
    | |- context [if ?b then _ else _] =>
        lazymatch b with
        | context [match _ with Returned _ => _ | Raised _ => _ end] => fail
        | decide _ => fail
        | _ => destruct b; simpl; try reflexivity
        end
    end.

Lemma run_update_pipeline (f : update_function) (d : string) fs :
  run_update f d fs = pipeline (update_dir f d) (update_frame f) fs.
Proof.
  destruct f; simpl;
    unfold Scripts.process_reasoning_questions,
      Scripts.process_language_questions, Extras.process_reasoning_questions,
      Extras.process_language_questions, Extras.process_math_questions,
      pipeline, scripts_reasoning_frame, scripts_language_frame,
      extras_reasoning_frame, extras_language_frame, extras_math_frame,
      assert_, assert_ok, lift, mbind, io_bind, outcome_bind, mret, io_ret,
      outcome_ret;
    destruct (read_json _ fs) as [[df|e] fs0]; try reflexivity;
    build_steps.
Qed.

(** A run writes its two files, or raises and writes nothing. *)
Lemma run_update_output (f : update_function) (d : string) fs :
  run_update f d fs
  = match update_output f (fs !! input_path f d) with
    | Returned (j, c) =>
        (Returned tt, <[output_csv f d := c]> (<[output_jsonl f d := j]> fs))
    | Raised e => (Raised e, fs)
    end.
Proof.
  rewrite run_update_pipeline.
  unfold pipeline, update_output, input_path, output_csv, output_jsonl,
    read_json, to_json, to_csv, lift, mbind, io_bind.
  destruct (fs !! joinpath (update_dir f d) "question.jsonl") as [[recs|h l]|];
    try reflexivity.
  destruct (update_frame f (frame_of_records recs)) as [df|e]; [|reflexivity].
  by destruct (decide (NoDup (columns df).*1)).
Qed.

(** *** The paths of the functions *)
Lemma append_inv_l (d x y : string) : d +:+ x = d +:+ y -> x = y.
Proof.
  induction d as [|c d IH]; [done|].
  intros H. apply IH. by injection H.
Qed.

Lemma joinpath_nested (d a n : string) :
  joinpath (joinpath d a) n = d +:+ ("/" +:+ a +:+ "/" +:+ n).
Proof.
  unfold joinpath.
  induction d as [|c d IH]; [done|].
  change (String c d +:+ "/" +:+ a) with (String c (d +:+ "/" +:+ a)).
  change ((String c (d +:+ "/" +:+ a)) +:+ "/" +:+ n)
    with (String c ((d +:+ "/" +:+ a) +:+ "/" +:+ n)).
  by rewrite IH.
Qed.

Lemma joinpath_nested_eq (d a n b m : string) :
  joinpath (joinpath d a) n = joinpath (joinpath d b) m ->
  "/" +:+ a +:+ "/" +:+ n = "/" +:+ b +:+ "/" +:+ m.
Proof. rewrite !joinpath_nested. apply append_inv_l. Qed.

Lemma input_not_output (f : update_function) (d : string) :
  input_path f d ∉ outputs f d.
Proof.
  unfold outputs, input_path, output_jsonl, output_csv.
  intros H. apply elem_of_cons in H as [H|H];
    [|apply list_elem_of_singleton in H];
    apply joinpath_inj in H; discriminate.
Qed.

Lemma outputs_distinct (f : update_function) (d : string) :
  output_jsonl f d <> output_csv f d.
Proof.
  unfold output_jsonl, output_csv. intros H.
  apply joinpath_inj in H. discriminate.
Qed.

Lemma update_dir_cases (f : update_function) (d : string) :
  exists a, update_dir f d = joinpath d a
            /\ (a = "reasoning" \/ a = "language" \/ a = "math").
Proof.
  destruct f; simpl; unfold reasoning_dir, language_dir, math_dir;
    eexists; split; try reflexivity; auto.
Qed.

(** Functions that work in different directories share no path. *)
Lemma paths_apart (f g : update_function) (d n m : string) :
  update_dir f d <> update_dir g d ->
  n = "question.jsonl" \/ n = "updated_questions.jsonl"
  \/ n = "updated_questions.csv" ->
  m = "question.jsonl" \/ m = "updated_questions.jsonl"
  \/ m = "updated_questions.csv" ->
  joinpath (update_dir f d) n <> joinpath (update_dir g d) m.
Proof.
  intros Hdir Hn Hm Heq.
  destruct (update_dir_cases f d) as (a & Ha & Hacases).
  destruct (update_dir_cases g d) as (b & Hb & Hbcases).
  rewrite Ha, Hb in *. apply joinpath_nested_eq in Heq.
  assert (a <> b) as Hab by congruence.
  destruct Hacases as [->|[->| ->]], Hbcases as [->|[->| ->]]; try done;
    destruct Hn as [->|[->| ->]], Hm as [->|[->| ->]];
    vm_compute in Heq; discriminate.
Qed.

Lemma outputs_apart (f g : update_function) (d p : string) :
  update_dir f d <> update_dir g d ->
  p ∈ outputs f d -> (p ∉ outputs g d) /\ p <> input_path g d.
Proof.
  intros Hdir Hp. unfold outputs, output_jsonl, output_csv, input_path in *.
  apply elem_of_cons in Hp as [->|Hp];
    [|apply list_elem_of_singleton in Hp as ->].
  all: split; [intros Hq; apply elem_of_cons in Hq as [Hq|Hq];
                 [|apply list_elem_of_singleton in Hq]|intros Hq].
  all: revert Hq; apply paths_apart; auto.
Qed.

(** *** What a run leaves of the files *)
Lemma run_update_state (f : update_function) (d : string) fs p :
  (run_update f d fs).2 !! p
  = match update_output f (fs !! input_path f d) with
    | Returned (j, c) =>
        if decide (p = output_csv f d) then Some c
        else if decide (p = output_jsonl f d) then Some j
        else fs !! p
    | Raised _ => fs !! p
    end.
Proof.
  rewrite run_update_output.
  destruct (update_output _ _) as [[j c]|e]; [|done]. simpl.
  destruct (decide (p = output_csv f d)) as [->|Hc].
  { by rewrite lookup_insert_eq. }
  rewrite lookup_insert_ne by done.
  destruct (decide (p = output_jsonl f d)) as [->|Hj].
  { by rewrite lookup_insert_eq. }
  by rewrite lookup_insert_ne.
Qed.

Lemma run_update_outcome (f : update_function) (d : string) fs :
  (run_update f d fs).1
  = match update_output f (fs !! input_path f d) with
    | Returned _ => Returned tt
    | Raised e => Raised e
    end.
Proof.
  rewrite run_update_output. by destruct (update_output _ _) as [[j c]|e].
Qed.

Lemma run_update_elsewhere (f : update_function) (d : string) fs p :
  p ∉ outputs f d -> (run_update f d fs).2 !! p = fs !! p.
Proof.
  intros Hp. rewrite run_update_state.
  destruct (update_output _ _) as [[j c]|e]; [|done].
  destruct (decide (p = output_csv f d)) as [->|Hc].
  { exfalso. apply Hp. unfold outputs. by right; left. }
  destruct (decide (p = output_jsonl f d)) as [->|Hj]; [|done].
  exfalso. apply Hp. unfold outputs. by left.
Qed.

Lemma run_update_input (f : update_function) (d : string) fs :
  (run_update f d fs).2 !! input_path f d = fs !! input_path f d.
Proof. apply run_update_elsewhere, input_not_output. Qed.

(** A run sees of the files its input alone. *)
Lemma run_update_local (f : update_function) (d : string) fs1 fs2 :
  fs1 !! input_path f d = fs2 !! input_path f d ->
  (run_update f d fs1).1 = (run_update f d fs2).1
  /\ forall p, fs1 !! p = fs2 !! p ->
       (run_update f d fs1).2 !! p = (run_update f d fs2).2 !! p.
Proof.
  intros Hin. split.
  - by rewrite !run_update_outcome, Hin.
  - intros p Hp. rewrite !run_update_state, Hin.
    destruct (update_output _ _) as [[j c]|e]; [|done].
    by repeat destruct (decide _).
Qed.

Lemma scripts_main_run_all (d : string) fs :
  Scripts.main d fs = run_all scripts_main_calls d fs.
Proof.
  unfold Scripts.main, scripts_main_calls, run_all.
  unfold run_update, mbind, io_bind, mret, io_ret.
  destruct (Scripts.process_reasoning_questions d fs) as [[u1|e] fs1];
    [|done].
  destruct (Scripts.process_language_questions d fs1) as [[u2|e] fs2];
    [by destruct u2|done].
Qed.

Lemma extras_main_run_all (d : string) fs :
  Extras.main d fs = run_all extras_main_calls d fs.
Proof.
  unfold Extras.main, extras_main_calls, run_all.
  unfold run_update, mbind, io_bind, mret, io_ret.
  destruct (Extras.process_reasoning_questions d fs) as [[u1|e] fs1];
    [|done].
  destruct (Extras.process_language_questions d fs1) as [[u2|e] fs2];
    [|done].
  destruct (Extras.process_math_questions d fs2) as [[u3|e] fs3];
    [by destruct u3|done].
Qed.

Lemma run_all_cons (f : update_function) (l : list update_function) d fs :
  run_all (f :: l) d fs
  = match (run_update f d fs).1 with
    | Returned _ => run_all l d (run_update f d fs).2
    | Raised e => (Raised e, fs)
    end.
Proof.
  change (run_all (f :: l) d fs)
    with (match run_update f d fs with
          | (Returned _, fs') => run_all l d fs'
          | (Raised e, fs') => (Raised e, fs')
          end).
  rewrite run_update_output.
  by destruct (update_output _ _) as [[j c]|e].
Qed.

Lemma scripts_main_dirs (d : string) :
  NoDup ((fun f => update_dir f d) <$> scripts_main_calls).
Proof.
  unfold scripts_main_calls. simpl. unfold reasoning_dir, language_dir.
  repeat constructor; rewrite ?elem_of_cons, ?elem_of_nil;
    intros H; repeat destruct H as [H|H]; try done;
    apply joinpath_inj in H; discriminate.
Qed.

Lemma extras_main_dirs (d : string) :
  NoDup ((fun f => update_dir f d) <$> extras_main_calls).
Proof.
  unfold extras_main_calls. simpl.
  unfold reasoning_dir, language_dir, math_dir.
  repeat constructor; rewrite ?elem_of_cons, ?elem_of_nil;
    intros H; repeat destruct H as [H|H]; try done;
    apply joinpath_inj in H; discriminate.
Qed.

(** *** Calls in different directories *)
Lemma run_update_after (f g : update_function) (d : string) fs :
  update_dir f d <> update_dir g d ->
  (run_update g d (run_update f d fs).2).1 = (run_update g d fs).1
  /\ forall p, p ∉ outputs f d ->
       (run_update g d (run_update f d fs).2).2 !! p
       = (run_update g d fs).2 !! p.
Proof.
  intros Hdir.
  assert ((run_update f d fs).2 !! input_path g d = fs !! input_path g d)
    as Hin.
  { apply run_update_elsewhere. intros Hp.
    by apply (outputs_apart f g d _ Hdir) in Hp as [_ Hp]. }
  destruct (run_update_local g d _ _ Hin) as [Ho Hst].
  split; [done|]. intros p Hp. apply Hst. by apply run_update_elsewhere.
Qed.

Lemma returned_tt (o : outcome unit) (u : unit) :
  o = Returned u -> o = Returned tt.
Proof. by destruct u. Qed.

Lemma run_all_elsewhere (l : list update_function) (d : string) fs p :
  (forall f, f ∈ l -> p ∉ outputs f d) -> (run_all l d fs).2 !! p = fs !! p.
Proof.
  revert fs. induction l as [|f l IH]; intros fs Hp; [done|].
  rewrite run_all_cons.
  destruct (run_update f d fs).1 as [u|e]; [|done].
  rewrite IH by (intros g Hg; apply Hp; by right).
  apply run_update_elsewhere, Hp. by left.
Qed.

Lemma dirs_cons (f : update_function) (l : list update_function) d :
  NoDup ((fun f => update_dir f d) <$> f :: l) ->
  (forall g, g ∈ l -> update_dir f d <> update_dir g d)
  /\ NoDup ((fun f => update_dir f d) <$> l).
Proof.
  rewrite fmap_cons. intros Hnd. apply NoDup_cons in Hnd as [Hf Hl].
  split; [|done]. intros g Hg Heq. apply Hf. rewrite Heq.
  by apply (list_elem_of_fmap_2 (fun f => update_dir f d)).
Qed.

Lemma run_all_sum (l : list update_function) (d : string) :
  NoDup ((fun f => update_dir f d) <$> l) ->
  forall fs, sum_of_calls (run_all l d) l d fs.
Proof.
  induction l as [|f l IH]; intros Hnd fs.
  { split; [|split]; simpl.
    - split; [intros _ f Hf; by inversion Hf|done].
    - intros _ f p Hf. by inversion Hf.
    - done. }
  apply dirs_cons in Hnd as [Hf Hnd].
  destruct (IH Hnd (run_update f d fs).2) as (Hiff & Hout & Hother).
  assert (forall g, g ∈ l ->
            (run_update g d (run_update f d fs).2).1 = (run_update g d fs).1)
    as Hsame.
  { intros g Hg. by apply run_update_after, Hf. }
  split; [|split].
  - rewrite run_all_cons.
    destruct (run_update f d fs).1 as [u|e] eqn:Hrun.
    + rewrite Hiff. split.
      * intros Hall g Hg. apply elem_of_cons in Hg as [->|Hg].
        -- by apply (returned_tt _ u).
        -- rewrite <- Hsame by done. by apply Hall.
      * intros Hall g Hg. rewrite Hsame by done. apply Hall. by right.
    + split; [done|]. intros Hall.
      specialize (Hall f ltac:(by left)). congruence.
  - rewrite run_all_cons.
    destruct (run_update f d fs).1 as [u|e] eqn:Hrun; [|done].
    intros Hret g p Hg Hp. apply elem_of_cons in Hg as [->|Hg].
    + apply Hother. intros h Hh Hq.
      by destruct (outputs_apart f h d p (Hf h Hh) Hp) as [? _].
    + rewrite (Hout Hret g p Hg Hp).
      apply run_update_after; [by apply Hf|].
      intros Hq. by destruct (outputs_apart f g d p (Hf g Hg) Hq) as [? _].
  - intros p Hp. by apply run_all_elsewhere.
Qed.

Lemma run_all_stops (l : list update_function) (d : string) :
  NoDup ((fun f => update_dir f d) <$> l) ->
  forall fs, stops_at_first_failure (run_all l d) l d fs.
Proof.
  induction l as [|f l IH]; intros Hnd fs e; [done|].
  apply dirs_cons in Hnd as [Hf Hnd].
  rewrite run_all_cons.
  destruct (run_update f d fs).1 as [u|e'] eqn:Hrun.
  - intros Hraised.
    destruct (IH Hnd _ e Hraised)
      as (before & g & after & -> & Hbefore & Hg & Hwritten & Huntouched).
    assert (forall h, h ∈ before ++ g :: after ->
              (run_update h d (run_update f d fs).2).1
              = (run_update h d fs).1) as Hsame.
    { intros h Hh. by apply run_update_after, Hf. }
    exists (f :: before), g, after. split; [done|].
    split; [|split; [|split]].
    + intros h Hh. apply elem_of_cons in Hh as [->|Hh].
      * by apply (returned_tt _ u).
      * rewrite <- Hsame; [by apply Hbefore|].
        apply elem_of_app. by left.
    + rewrite <- Hsame; [done|]. apply elem_of_app. right. by left.
    + intros h p Hh Hp. apply elem_of_cons in Hh as [->|Hh].
      * apply run_all_elsewhere. intros h' Hh' Hq.
        by destruct (outputs_apart f h' d p (Hf h' Hh') Hp) as [? _].
      * rewrite (Hwritten h p Hh Hp).
        assert (h ∈ before ++ g :: after) as Hin
          by (apply elem_of_app; by left).
        apply run_update_after; [by apply Hf|].
        intros Hq.
        by destruct (outputs_apart f h d p (Hf h Hin) Hq) as [? _].
    + intros h p Hh Hp. rewrite (Huntouched h p Hh Hp).
      assert (h ∈ before ++ g :: after) as Hin
        by (apply elem_of_app; by right).
      apply run_update_elsewhere. intros Hq.
      by destruct (outputs_apart f h d p (Hf h Hin) Hq) as [? _].
  - intros [= ->]. exists [], f, l. split; [done|].
    split; [intros g Hg; by inversion Hg|]. split; [done|].
    split; [intros g p Hg; by inversion Hg|]. done.
Qed.

(** *** Writing the outputs twice *)
Lemma insert_outputs_twice (pj pc : string) (j c j' c' : file)
    (fs : gmap string file) :
  pj <> pc ->
  <[pc := c']> (<[pj := j']> (<[pc := c]> (<[pj := j]> fs)))
  = <[pc := c']> (<[pj := j']> fs).
Proof.
  intros Hne. apply map_eq. intros k.
  destruct (decide (k = pc)) as [->|Hc].
  { by rewrite !lookup_insert_eq. }
  rewrite !(lookup_insert_ne _ pc k) by done.
  destruct (decide (k = pj)) as [->|Hj].
  { by rewrite !lookup_insert_eq. }
  rewrite !(lookup_insert_ne _ pj k) by done.
  rewrite !(lookup_insert_ne _ pc k) by done.
  by rewrite !(lookup_insert_ne _ pj k) by done.
Qed.
End UpdateFacts.

(** ** The frame an update function writes *)
Module WrittenFacts.
Import Pandas Livebench FrameSpec Updates FrameFacts ScriptFacts UpdateFacts.

Ltac out_inv H :=
  unfold mbind, outcome_bind, mret, outcome_ret, assert_ok in H;
  repeat match type of H with
    | context [match ?x with Returned _ => _ | Raised _ => _ end] =>
        lazymatch x with
        | context [match _ with Returned _ => _ | Raised _ => _ end] => fail
        | _ => destruct x eqn:?; try discriminate H
        end
    | context [if ?b then _ else _] => destruct b eqn:?; try discriminate H
    end;
  repeat match goal with
    | H' : (if ?b then Returned _ else Raised _) = Returned _ |- _ =>
        destruct b; [clear H'|discriminate H']
    end.

Lemma filter_all {A : Type} (l : list A) : List.filter (fun _ => true) l = l.
Proof. induction l as [|x l IH]; simpl; by rewrite ?IH. Qed.

Lemma keeps_all (f : update_function) (recs : list record) :
  f <> ExtrasMath -> List.filter (keeps f) recs = recs.
Proof. destruct f; try done; intros _; apply filter_all. Qed.

Lemma assign_ground_truth ks rs df A :
  keyed ks rs df -> assign_turns_str_ground_truth df = Returned A ->
  find_column "ground_truth" (columns A)
  = Some (on_str strip <$> (cell_of "ground_truth" <$> rs)).
Proof.
  intros Hkeyed HA.
  apply assign_inv in HA as (turns & gt & Hturns & Hgt & ->).
  rewrite find_column_set_cols_ne in Hgt by done.
  apply (keyed_column _ _ _ _ _ Hkeyed) in Hgt as [_ ->].
  cbn [set_column columns]. apply find_column_set_cols_eq.
Qed.

(** The frame read, with the records dropped by the function's query. *)
Lemma update_frame_keyed (f : update_function) (recs : list record) Q :
  (if decide (f = ExtrasMath)
   then query_ne "task" "AMPS_Hard" (frame_of_records recs)
   else Returned (frame_of_records recs)) = Returned Q ->
  keyed (keys_of recs) (List.filter (keeps f) recs) Q.
Proof.
  destruct (decide (f = ExtrasMath)) as [->|Hf].
  - apply query_task_keyed.
  - intros [= <-]. rewrite keeps_all by done. apply frame_of_records_keyed.
Qed.

Lemma result_column_written (f : update_function) :
  result_column f ∈ written_columns f /\ result_column f <> "turns_str"
  /\ result_column f <> "ground_truth" /\ result_column f <> "turns".
Proof.
  unfold written_columns. split; [|by destruct f].
  apply elem_of_app. left. by do 2 right; left.
Qed.

Lemma written_columns_cases (f : update_function) k :
  k ∉ written_columns f ->
  k <> "turns_str" /\ k <> "ground_truth" /\ k <> result_column f
  /\ (numbers_records f = true ->
      k <> "index" /\ k <> "level_0" /\ k <> "data_point_id").
Proof.
  unfold written_columns. intros Hk.
  split; [intros ->; apply Hk, elem_of_app; left; by left|].
  split; [intros ->; apply Hk, elem_of_app; left; by right; left|].
  split; [intros ->; apply Hk, elem_of_app; left; by do 2 right; left|].
  intros Hn. rewrite Hn in Hk.
  split; [intros ->; apply Hk, elem_of_app; right; by left|].
  split; [intros ->; apply Hk, elem_of_app; right; by right; left|].
  intros ->; apply Hk, elem_of_app; right; by do 2 right; left.
Qed.

(** From the steps a function has gone through to what its frame holds. *)
Lemma written_core (f : update_function) (recs : list record) Q A B T df :
  keyed (keys_of recs) (List.filter (keeps f) recs) Q ->
  assign_turns_str_ground_truth Q = Returned A ->
  (numbers_records f = false /\ B = A)
  \/ (numbers_records f = true
      /\ exists B0, reset_index A = Returned B0
                    /\ B = rename "index" "data_point_id" B0) ->
  turns_len_eq_1_all B = Returned true
  \/ turns_len_eq_1_all df = Returned true ->
  find_column "turns_str" (columns B) = Some T ->
  df = set_column (result_column f) (on_str (update_chain f) <$> T) B ->
  written_frame f recs df.
Proof.
  intros Hkeyed HA HB Hlen HT ->.
  set (rs := List.filter (keeps f) recs) in *.
  destruct (assign_keyed _ _ _ _ Hkeyed HA)
    as (Hidx & Hturns & Hts & Hsame & Hnames & Hnd).
  pose proof (assign_ground_truth _ _ _ _ Hkeyed HA) as Hgt.
  destruct Hkeyed as (Hlength & Hks & Hcols).
  destruct (result_column_written f) as (_ & Hr1 & Hr2 & Hr3).
  assert (length (index B) = length rs
          /\ forall k, (numbers_records f = true ->
                        k <> "index" /\ k <> "level_0"
                        /\ k <> "data_point_id") ->
               find_column k (columns B) = find_column k (columns A))
    as [HlenB HcolB].
  { destruct HB as [[Hn ->]|(Hn & B0 & HB0 & ->)].
    - split; [congruence|done].
    - split.
      + cbn [rename index].
        destruct (find_column_reset "turns" A B0 HB0) as [_ ->]; [done..|].
        congruence.
      + intros k Hk. destruct (Hk Hn) as (H1 & H2 & H3).
        rewrite find_column_renamed by done.
        by destruct (find_column_reset k A B0 HB0). }
  assert (find_column "turns" (columns B) = Some (cell_of "turns" <$> rs))
    as HturnsB by (rewrite HcolB; [done|by intros _]).
  assert (T = get0 <$> (cell_of "turns" <$> rs)) as ->.
  { rewrite HcolB in HT by (by intros _). congruence. }
  constructor; cbn [set_column columns index].
  - done.
  - apply Forall_forall. apply single_turn_all.
    assert (turns_len_eq_1_all B = Returned true) as Hlen'.
    { destruct Hlen as [Hlen|Hlen]; [done|].
      unfold turns_len_eq_1_all, getattr in *.
      cbn [set_column columns] in Hlen.
      by rewrite find_column_set_cols_ne in Hlen. }
    apply turns_len_inv in Hlen' as (turns & Hturns' & Heq).
    rewrite HturnsB in Hturns'. injection Hturns' as <-. done.
  - rewrite find_column_set_cols_ne by done.
    rewrite HcolB by (by intros _). done.
  - apply find_column_set_cols_eq.
  - rewrite find_column_set_cols_ne by done.
    rewrite HcolB by (by intros _). done.
  - intros k Hk. apply written_columns_cases in Hk as (H1 & H2 & H3 & H4).
    rewrite find_column_set_cols_ne by done.
    rewrite HcolB by done. rewrite Hsame by done. apply Hcols.
Qed.

Ltac chain_inv :=
  unfold str_replace, str_strip in *;
  repeat match goal with
    | H : str_method _ _ = Returned _ |- _ =>
        apply str_method_Returned in H; subst
    end;
  rewrite ?on_str_compose in *.

Lemma update_frame_written (f : update_function) (recs : list record) df :
  update_frame f (frame_of_records recs) = Returned df ->
  written_frame f recs df.
Proof.
  intros H.
  destruct f; simpl in H;
    unfold scripts_reasoning_frame, scripts_language_frame,
      extras_reasoning_frame, extras_language_frame, extras_math_frame in H;
    out_inv H; injection H as <-; chain_inv.
  - eapply (written_core ScriptsReasoning recs (frame_of_records recs)).
    + by apply (update_frame_keyed ScriptsReasoning).
    + eassumption.
    + right. split; [done|]. eexists. split; [eassumption|reflexivity].
    + left. eassumption.
    + apply getattr_Returned. eassumption.
    + reflexivity.
  - eapply (written_core ScriptsLanguage recs (frame_of_records recs)).
    + by apply (update_frame_keyed ScriptsLanguage).
    + eassumption.
    + right. split; [done|]. eexists. split; [eassumption|reflexivity].
    + left. eassumption.
    + apply getattr_Returned. eassumption.
    + reflexivity.
  - eapply (written_core ExtrasReasoning recs (frame_of_records recs)).
    + by apply (update_frame_keyed ExtrasReasoning).
    + eassumption.
    + left. split; reflexivity.
    + left. eassumption.
    + apply getattr_Returned. eassumption.
    + reflexivity.
  - eapply (written_core ExtrasLanguage recs (frame_of_records recs)).
    + by apply (update_frame_keyed ExtrasLanguage).
    + eassumption.
    + left. split; reflexivity.
    + left. eassumption.
    + apply getattr_Returned. eassumption.
    + reflexivity.
  - eapply (written_core ExtrasMath recs).
    + apply (update_frame_keyed ExtrasMath). simpl. eassumption.
    + eassumption.
    + left. split; reflexivity.
    + right. eassumption.
    + apply getattr_Returned. eassumption.
    + reflexivity.
Qed.

Lemma written_frame_records (f : update_function) (recs : list record) df :
  written_frame f recs df ->
  Forall2 (written_as f) (List.filter (keeps f) recs) (to_records df).
Proof.
  intros [Hlen Hsingle Hts Hres Hgt Hother].
  apply Forall2_same_length_lookup. split.
  { by rewrite to_records_length. }
  intros i r o Hr Ho.
  apply to_records_lookup in Ho as (Hi & Hnames & Hcell).
  unfold written_as. rewrite !Hcell. unfold frame_cell.
  rewrite Hts, Hres, Hgt, !list_lookup_fmap, Hr. simpl.
  split; [done|]. split; [done|]. split; [done|].
  intros k Hk. rewrite Hcell. unfold frame_cell. rewrite Hother by done.
  destruct (decide (k ∈ keys_of recs)) as [Hin|Hnin].
  - by rewrite list_lookup_fmap, Hr.
  - symmetry. apply cell_of_absent. intros Hkr. apply Hnin.
    apply keys_of_elem_of. exists r. split; [|done].
    by apply filter_lookup_elem in Hr as [Hr _].
Qed.

Lemma to_records_lines (df : DataFrame) :
  to_records df = zip (fst <$> columns df) <$> to_lines df.
Proof.
  unfold to_records, to_lines. rewrite <- list_fmap_compose. done.
Qed.

(** A returned run has read records, built their frame and written it. *)
Lemma run_update_Returned (f : update_function) (d : string) fs fs' :
  run_update f d fs = (Returned tt, fs') ->
  exists recs df,
    fs !! input_path f d = Some (Jsonl recs)
    /\ update_frame f (frame_of_records recs) = Returned df
    /\ NoDup (fst <$> columns df)
    /\ fs' = <[output_csv f d := Csv (fst <$> columns df) (to_lines df)]>
               (<[output_jsonl f d := Jsonl (to_records df)]> fs).
Proof.
  rewrite run_update_output. unfold update_output.
  destruct (fs !! input_path f d) as [[recs|h l]|] eqn:Hin;
    try discriminate.
  destruct (update_frame f (frame_of_records recs)) as [df|e] eqn:Hdf;
    [|discriminate].
  destruct (decide (NoDup (columns df).*1)) as [Hnd|]; [|discriminate].
  intros [= <-]. by exists recs, df.
Qed.

Lemma assign_missing_turns ks rs df :
  keyed ks rs df -> "turns" ∉ ks ->
  assign_turns_str_ground_truth df = Raised (AttributeError "turns").
Proof.
  intros (_ & _ & Hcols) Hk.
  unfold assign_turns_str_ground_truth, getattr.
  by rewrite Hcols, decide_False.
Qed.

Lemma update_frame_missing (f : update_function) (recs : list record) e :
  input_error f recs = Some e ->
  update_frame f (frame_of_records recs) = Raised e.
Proof.
  unfold input_error.
  destruct (decide (f = ExtrasMath /\ "task" ∉ keys_of recs)) as [[-> Hk]|Hf].
  { intros [= <-]. simpl. unfold extras_math_frame.
    by rewrite query_task_missing. }
  destruct (decide ("turns" ∈ keys_of recs)) as [|Hk]; [discriminate|].
  intros [= <-].
  destruct (decide (f = ExtrasMath)) as [->|Hne].
  - assert ("task" ∈ keys_of recs) as Htask.
    { destruct (decide ("task" ∈ keys_of recs)); [done|]. exfalso. by apply Hf. }
    destruct (query_task_raw recs Htask) as (Q & HQ & _).
    pose proof (query_task_keyed recs Q HQ) as Hkeyed.
    simpl. unfold extras_math_frame. rewrite HQ. simpl.
    by rewrite (assign_missing_turns _ _ _ Hkeyed Hk).
  - pose proof (assign_missing_turns _ _ _ (frame_of_records_keyed recs) Hk)
      as HA.
    destruct f; try done; simpl;
      unfold scripts_reasoning_frame, scripts_language_frame,
        extras_reasoning_frame, extras_language_frame;
      by rewrite HA.
Qed.

(** *** Well-formed questions of one turn are written *)
Ltac chain_total :=
  unfold str_strip, str_replace;
  repeat match goal with
    | |- context [str_method (on_str ?f) ?s] =>
        let H1 := fresh in let H2 := fresh in
        match goal with
        | Hall : Forall _ s |- _ =>
            destruct (str_chain_step f s Hall) as (H1 & H2);
            rewrite H1; clear H1 Hall; cbv beta iota
        end
    end.

Lemma numbered_NoDup (col : string) (s : list cell) (A : DataFrame)
    (ks : list string) :
  (forall k, k ∈ fst <$> columns A ->
     k ∈ ks \/ k = "turns_str" \/ k = "ground_truth") ->
  "data_point_id" ∉ ks -> col <> "data_point_id" ->
  NoDup (fst <$> columns A) ->
  NoDup ("data_point_id" :: (set_cols col s (columns A)).*1).
Proof.
  intros Hnames Hid Hcol Hnd. apply NoDup_cons. split.
  - rewrite set_cols_names. intros Hin.
    assert ("data_point_id" ∈ fst <$> columns A) as Hin'.
    { destruct (decide (col ∈ fst <$> columns A)); [done|].
      apply elem_of_app in Hin as [?|Hin]; [done|].
      by apply list_elem_of_singleton in Hin. }
    by apply Hnames in Hin' as [?|[?|?]].
  - by apply set_cols_NoDup.
Qed.

Lemma scripts_frames_total (f : update_function) (recs : list record) :
  numbers_records f = true ->
  "turns" ∈ keys_of recs -> "ground_truth" ∈ keys_of recs ->
  Forall (fun r => question_like r = true) recs ->
  Forall (fun r => single_turn r = true) recs ->
  "index" ∉ keys_of recs -> "data_point_id" ∉ keys_of recs ->
  exists df, update_frame f (frame_of_records recs) = Returned df
             /\ NoDup (fst <$> columns df).
Proof.
  intros Hn Ht Hg Hq Hs Hindex Hid.
  pose proof (frame_of_records_keyed recs) as Hkeyed.
  destruct (assign_keyed_total _ _ _ Hkeyed Hq Ht Hg) as [A HA].
  destruct (assign_keyed _ _ _ _ Hkeyed HA)
    as (Hidx & Hturns & Hts & Hsame & Hnames & Hnd).
  assert ("index" ∉ fst <$> columns A) as Hnin
    by (intros Hin; by apply Hnames in Hin as [?|[?|?]]).
  assert (exists B, reset_index A = Returned B) as [B HB].
  { unfold reset_index.
    destruct (decide ("index" ∈ fst <$> columns A)) as [?|_]; [done|].
    destruct (decide ("index" ∈ fst <$> columns A)) as [?|_]; [done|].
    by eexists. }
  pose proof (scripts_frame_explicit recs A B HA HB Hindex) as HR.
  pose proof (first_turns_str recs Hq Hs) as H0.
  specialize (Hnd (first_seen_NoDup _ _)).
  destruct f; try discriminate Hn; simpl;
    unfold scripts_reasoning_frame, scripts_language_frame, mbind,
      outcome_bind, mret, outcome_ret;
    rewrite HA, HB, HR;
    (rewrite (turns_len_true _ recs);
       [|by cbn [columns]; rewrite find_column_cons_ne|done..]);
    cbv beta iota; unfold assert_ok;
    (rewrite (proj2 (getattr_Returned _ "turns_str"
                       (get0 <$> (cell_of "turns" <$> recs))));
       [|by cbn [columns]; rewrite find_column_cons_ne]);
    chain_total;
    (eexists; split; [reflexivity|]);
    cbn [set_column columns set_cols]; rewrite decide_False by done;
    rewrite fmap_cons; cbn [fst]; by eapply numbered_NoDup.
Qed.

Lemma extras_frames_total (f : update_function) (recs : list record) :
  numbers_records f = false ->
  "turns" ∈ keys_of recs -> "ground_truth" ∈ keys_of recs ->
  Forall (fun r => question_like r = true) (List.filter (keeps f) recs) ->
  Forall (fun r => single_turn r = true) (List.filter (keeps f) recs) ->
  (f = ExtrasMath -> "task" ∈ keys_of recs) ->
  exists df, update_frame f (frame_of_records recs) = Returned df
             /\ NoDup (fst <$> columns df).
Proof.
  intros Hn Ht Hg Hq Hs Htask.
  assert (exists Q,
            (if decide (f = ExtrasMath)
             then query_ne "task" "AMPS_Hard" (frame_of_records recs)
             else Returned (frame_of_records recs)) = Returned Q)
    as [Q HQ].
  { destruct (decide (f = ExtrasMath)) as [Hf|Hf]; [|by eexists].
    destruct (query_task_raw recs (Htask Hf)) as (Q & HQ & _). by exists Q. }
  pose proof (update_frame_keyed f recs Q HQ) as Hkeyed.
  destruct (assign_keyed_total _ _ _ Hkeyed Hq Ht Hg) as [A HA].
  destruct (assign_keyed _ _ _ _ Hkeyed HA)
    as (Hidx & Hturns & Hts & Hsame & Hnames & Hnd).
  pose proof (first_turns_str _ Hq Hs) as H0.
  specialize (Hnd (first_seen_NoDup _ _)).
  destruct f; try discriminate Hn; simpl in HQ;
    try (injection HQ as <-); simpl;
    unfold extras_reasoning_frame, extras_language_frame, extras_math_frame,
      mbind, outcome_bind, mret, outcome_ret;
    rewrite ?HQ, HA;
    try (rewrite (turns_len_true _ _ Hturns Hq Hs); cbv beta iota;
         unfold assert_ok);
    rewrite (proj2 (getattr_Returned _ _ _) Hts);
    chain_total;
    try (rewrite (turns_len_true _ (List.filter (keeps ExtrasMath) recs));
           [|by cbn [set_column columns]; rewrite find_column_set_cols_ne
            |done..];
         cbv beta iota; unfold assert_ok);
    (eexists; split; [reflexivity|]);
    cbn [set_column columns]; by apply set_cols_NoDup.
Qed.

Lemma update_frame_total (f : update_function) (recs : list record) :
  "turns" ∈ keys_of recs -> "ground_truth" ∈ keys_of recs ->
  Forall (fun r => question_like r = true) (List.filter (keeps f) recs) ->
  Forall (fun r => single_turn r = true) (List.filter (keeps f) recs) ->
  (f = ExtrasMath -> "task" ∈ keys_of recs) ->
  (numbers_records f = true ->
   ("index" ∉ keys_of recs) /\ ("data_point_id" ∉ keys_of recs)) ->
  exists df, update_frame f (frame_of_records recs) = Returned df
             /\ NoDup (fst <$> columns df).
Proof.
  intros Ht Hg Hq Hs Htask Hnum.
  destruct (numbers_records f) eqn:Hn.
  - destruct (Hnum eq_refl) as [Hindex Hid].
    rewrite keeps_all in Hq, Hs by (by destruct f).
    by apply scripts_frames_total.
  - by apply extras_frames_total.
Qed.
End WrittenFacts.

(** ** Further properties of the update scripts *)
Module ScriptExtras.
Import Pandas Livebench FrameSpec Updates Samples.
Import FrameFacts ScriptFacts UpdateFacts WrittenFacts.

(** X8. What a run of any of the five update functions touches: a run that
    does not return leaves every file as it was; a run that returns changes
    no path but its two output paths; and no run changes its input file. *)
Theorem update_footprint (f : update_function) (d : string)
    (fs : gmap string file) :
  ((run_update f d fs).1 <> Returned tt -> (run_update f d fs).2 = fs)
  /\ (forall p, p ∉ outputs f d -> (run_update f d fs).2 !! p = fs !! p)
  /\ (run_update f d fs).2 !! input_path f d = fs !! input_path f d.
Proof.
  split; [|split].
  - rewrite run_update_output.
    destruct (update_output _ _) as [[j c]|e]; [|done]. by intros [].
  - intros p. apply run_update_elsewhere.
  - apply run_update_input.
Qed.

(** X9. Any of the five update functions can be run again: the second run
    has the outcome of the first and leaves the files as the first left
    them. *)
Theorem update_rerun (f : update_function) (d : string)
    (fs : gmap string file) :
  run_update f d (run_update f d fs).2 = run_update f d fs.
Proof.
  rewrite (run_update_output f d (run_update f d fs).2), run_update_input.
  rewrite !run_update_output.
  destruct (update_output _ _) as [[j c]|e]; [|done]. simpl.
  f_equal. apply insert_outputs_twice, outputs_distinct.
Qed.

(** X11. Two update functions that work in different directories do not see
    each other: each has, after the other, the outcome it has alone, and the
    two can be run in either order with the same files left. *)
Theorem updates_commute (f g : update_function) (d : string)
    (fs : gmap string file) :
  update_dir f d <> update_dir g d ->
  (run_update g d (run_update f d fs).2).1 = (run_update g d fs).1
  /\ (run_update f d (run_update g d fs).2).1 = (run_update f d fs).1
  /\ (run_update g d (run_update f d fs).2).2
     = (run_update f d (run_update g d fs).2).2.
Proof.
  intros Hdir.
  assert (update_dir g d <> update_dir f d) as Hdir' by congruence.
  split; [by apply run_update_after|]. split; [by apply run_update_after|].
  apply map_eq. intros p.
  destruct (decide (p ∈ outputs f d)) as [Hp|Hp].
  - destruct (outputs_apart f g d p Hdir Hp) as [Hq _].
    rewrite run_update_elsewhere by done.
    symmetry. by apply run_update_after.
  - rewrite (run_update_elsewhere f d _ p) by done.
    by apply run_update_after.
Qed.

(** X12. The [__main__] block of either script is the sum of its calls,
    which work in different directories: it returns exactly when each of its
    functions, run alone on the files as they were, returns; it then leaves
    at each output path what the function owning it writes alone; and it
    changes no other path. *)
Theorem main_is_sum_of_calls (d : string) (fs : gmap string file) :
  sum_of_calls (Scripts.main d) scripts_main_calls d fs
  /\ sum_of_calls (Extras.main d) extras_main_calls d fs.
Proof.
  split.
  - pose proof (run_all_sum scripts_main_calls d (scripts_main_dirs d) fs)
      as H.
    unfold sum_of_calls in *. by rewrite scripts_main_run_all.
  - pose proof (run_all_sum extras_main_calls d (extras_main_dirs d) fs)
      as H.
    unfold sum_of_calls in *. by rewrite extras_main_run_all.
Qed.

(** X13. A [__main__] block that raises has stopped at the first of its
    functions that raises when run alone on the files as they were, with
    that function's exception; what the functions before it wrote stays
    written, and the functions after it are not run. *)
Theorem main_stops_at_first_failure (d : string) (fs : gmap string file) :
  stops_at_first_failure (Scripts.main d) scripts_main_calls d fs
  /\ stops_at_first_failure (Extras.main d) extras_main_calls d fs.
Proof.
  split.
  - pose proof (run_all_stops scripts_main_calls d (scripts_main_dirs d) fs)
      as H.
    unfold stops_at_first_failure in *. by rewrite scripts_main_run_all.
  - pose proof (run_all_stops extras_main_calls d (extras_main_dirs d) fs)
      as H.
    unfold stops_at_first_failure in *. by rewrite extras_main_run_all.
Qed.

(** X14. An input without what a function reads first makes it raise and
    write nothing: a missing [question.jsonl]; a dataset in which no record
    read by the math function has the key [task], where [query] raises
    [NameError]; a dataset in which no record has the key [turns], where
    [x.turns] raises [AttributeError]. *)
Theorem update_without_columns (f : update_function) (d : string)
    (fs : gmap string file) :
  match fs !! input_path f d with
  | None => True
  | Some (Jsonl recs) => is_Some (input_error f recs)
  | Some (Csv _ _) => False
  end ->
  exists e,
    run_update f d fs = (Raised e, fs)
    /\ forall recs, fs !! input_path f d = Some (Jsonl recs) ->
         input_error f recs = Some e.
Proof.
  intros Hin. rewrite run_update_output.
  destruct (fs !! input_path f d) as [[recs|h l]|]; simpl in *.
  - destruct Hin as [e He]. exists e.
    rewrite (update_frame_missing f recs e He).
    split; [done|]. by intros ? [= <-].
  - done.
  - eexists. split; [done|]. by intros.
Qed.

(** X15. What each of the five update functions writes when it returns. It
    has read records, every record it keeps (all of them, but for the math
    function those of another task than AMPS_Hard) has exactly one turn, and
    the JSON-lines file holds, in input order, one record per kept record:
    the first turn in [turns_str], the function's replacement chain applied
    to it in the function's result column ([replaced_question] for the
    scripts/ language function, [updated_question] for the others), the
    answer stripped in [ground_truth], and every column the function does not
    write as it was read. The CSV file holds the same records: its header is
    the key list of every JSON record and its lines are their values. *)
Theorem update_written_records (f : update_function) (d : string)
    (fs fs' : gmap string file) :
  run_update f d fs = (Returned tt, fs') ->
  exists recs out header lines,
    fs !! input_path f d = Some (Jsonl recs)
    /\ fs' !! output_jsonl f d = Some (Jsonl out)
    /\ fs' !! output_csv f d = Some (Csv header lines)
    /\ Forall (fun r => single_turn r = true) (List.filter (keeps f) recs)
    /\ Forall2 (written_as f) (List.filter (keeps f) recs) out
    /\ out = zip header <$> lines
    /\ Forall (fun o => o.*1 = header) out
    /\ NoDup header.
Proof.
  intros Hrun.
  apply run_update_Returned in Hrun as (recs & df & Hin & Hdf & Hnd & ->).
  pose proof (update_frame_written f recs df Hdf) as Hw.
  exists recs, (to_records df), (fst <$> columns df), (to_lines df).
  split; [done|]. split.
  { rewrite lookup_insert_ne by (symmetry; apply outputs_distinct).
    by rewrite lookup_insert_eq. }
  split; [by rewrite lookup_insert_eq|].
  split; [apply (wf_single _ _ _ Hw)|].
  split; [by apply written_frame_records|].
  split; [apply to_records_lines|]. split; [|done].
  apply Forall_forall. intros o Ho.
  apply list_elem_of_lookup in Ho as [i Ho].
  by apply to_records_lookup in Ho as (_ & Hnames & _).
Qed.

(** X16. Each of the five update functions returns on a dataset of
    well-formed questions, those it keeps of one turn: every record has a
    [turns] array and a [ground_truth] string, some answer spells no
    number, so that pandas reads the answers as strings, every record the
    function keeps has exactly one turn, for the math function some task
    spells no number either and, for the scripts/ functions, which number
    the records, no record has the key [index] or [data_point_id]. *)
Theorem update_returns_on_single_turn_questions
    (f : update_function) (d : string) (fs : gmap string file)
    (recs : list record) :
  fs !! input_path f d = Some (Jsonl recs) ->
  Forall (fun r => question_like r = true) recs ->
  read_as_text "ground_truth" recs ->
  Forall (fun r => single_turn r = true) (List.filter (keeps f) recs) ->
  (f = ExtrasMath -> read_as_text "task" recs) ->
  (numbers_records f = true ->
   ("index" ∉ keys_of recs) /\ ("data_point_id" ∉ keys_of recs)) ->
  (run_update f d fs).1 = Returned tt.
Proof.
  intros Hin Hq (r & s & Hr & Hgt & _) Hs Htext Hnum.
  assert (f = ExtrasMath -> "task" ∈ keys_of recs) as Htask.
  { intros Hf. destruct (Htext Hf) as (r' & s' & Hr' & Hs' & _).
    apply (keys_of_nonempty _ _ r'); [done|]. by rewrite Hs'. }
  pose proof (proj1 (Forall_forall _ _) Hq r Hr) as Hqr. simpl in Hqr.
  pose proof (question_like_cells r Hqr) as (_ & _ & Hk1 & Hk2).
  assert ("turns" ∈ keys_of recs) as Ht
    by (apply keys_of_elem_of; by exists r).
  assert ("ground_truth" ∈ keys_of recs) as Hg
    by (apply keys_of_elem_of; by exists r).
  assert (Forall (fun r => question_like r = true)
            (List.filter (keeps f) recs)) as Hqk.
  { apply Forall_forall. intros r' Hr'.
    apply list_elem_of_In, filter_In in Hr' as [Hr' _].
    apply list_elem_of_In in Hr'.
    by apply (proj1 (Forall_forall _ _) Hq). }
  destruct (update_frame_total f recs Ht Hg Hqk Hs Htask Hnum)
    as (df & Hdf & Hnd).
  rewrite run_update_outcome, Hin. unfold update_output.
  by rewrite Hdf, decide_True.
Qed.

(** X11 at the reasoning and the math function of extras/. *)
Lemma updates_commute_witness :
  (run_update ExtrasMath "d" (run_update ExtrasReasoning "d" math_disk).2).1
  = (run_update ExtrasMath "d" math_disk).1.
Proof.
  apply (proj1 (updates_commute ExtrasReasoning ExtrasMath "d" math_disk
                  ltac:(vm_compute; discriminate))).
Defined.

(** X14 at a math dataset whose records have a task and no turns. *)
Lemma update_without_columns_witness :
  run_update ExtrasMath "d"
    (disk "d/math/question.jsonl" [[("task", Str "math_comp")]])
  = (Raised (AttributeError "turns"),
     disk "d/math/question.jsonl" [[("task", Str "math_comp")]]).
Proof.
  destruct (update_without_columns ExtrasMath "d"
              (disk "d/math/question.jsonl" [[("task", Str "math_comp")]]))
    as (e & Hrun & He); [vm_compute; by eexists|].
  rewrite Hrun. f_equal. f_equal.
  specialize (He [[("task", Str "math_comp")]]
                ltac:(vm_compute; reflexivity)).
  vm_compute in He. by injection He.
Defined.

(** X15 at the reasoning dataset, for the scripts/ language function's
    frame of the same records. *)
Lemma update_written_records_witness :
  exists recs out header lines,
    disk "d/language/question.jsonl" [q_bold; q_digit]
      !! input_path ScriptsLanguage "d" = Some (Jsonl recs)
    /\ (run_update ScriptsLanguage "d"
          (disk "d/language/question.jsonl" [q_bold; q_digit])).2
         !! output_jsonl ScriptsLanguage "d" = Some (Jsonl out)
    /\ (run_update ScriptsLanguage "d"
          (disk "d/language/question.jsonl" [q_bold; q_digit])).2
         !! output_csv ScriptsLanguage "d" = Some (Csv header lines)
    /\ Forall (fun r => single_turn r = true)
         (List.filter (keeps ScriptsLanguage) recs)
    /\ Forall2 (written_as ScriptsLanguage)
         (List.filter (keeps ScriptsLanguage) recs) out
    /\ out = zip header <$> lines
    /\ Forall (fun o => o.*1 = header) out
    /\ NoDup header.
Proof.
  apply (update_written_records ScriptsLanguage "d"
           (disk "d/language/question.jsonl" [q_bold; q_digit])).
  vm_compute. reflexivity.
Defined.

(** X16 at the math function, on a dataset of two records: the answer
    [2x] and the task names spell no number. *)
Lemma update_returns_on_single_turn_questions_witness :
  read_as_text "ground_truth" [q_math; q_amps]
  /\ read_as_text "task" [q_math; q_amps]
  /\ (run_update ExtrasMath "d" math_disk).1 = Returned tt.
Proof.
  assert (read_as_text "ground_truth" [q_math; q_amps]) as Hanswers.
  { exists q_amps, "2x". split; [by right; left|]. split; reflexivity. }
  assert (read_as_text "task" [q_math; q_amps]) as Htasks.
  { exists q_math, "math_comp". split; [by left|]. split; reflexivity. }
  split; [exact Hanswers|]. split; [exact Htasks|].
  apply (update_returns_on_single_turn_questions ExtrasMath "d" math_disk
           [q_math; q_amps]).
  - vm_compute. reflexivity.
  - repeat constructor.
  - exact Hanswers.
  - repeat constructor.
  - intros _. exact Htasks.
  - discriminate.
Defined.
End ScriptExtras.

(** ** Further properties of the replacement chains and of start_modal.py *)
Module ChainExtras.
Import Updates StringFacts.

Lemma strip_absent (x s : string) :
  contains x s = false -> contains x (strip s) = false.
Proof.
  intros Hs. destruct (contains x (strip s)) eqn:Hc; [|done].
  apply strip_contains in Hc. congruence.
Qed.

Lemma no_stars_no_pattern (a b s : string) :
  contains "**" s = false -> contains (a +:+ "**" +:+ b) s = false.
Proof.
  intros Hs. destruct (contains (a +:+ "**" +:+ b) s) eqn:Hc; [|done].
  apply contains_inner in Hc. congruence.
Qed.

Lemma math_olds_nonempty :
  Extras.math_old_1 <> "" /\ Extras.math_old_2 <> "" /\ Extras.math_old_3 <> ""
  /\ Extras.math_old_4 <> "" /\ Extras.math_old_5 <> ""
  /\ Extras.math_old_6 <> "".
Proof. repeat split; intros H; vm_compute in H; discriminate. Qed.

(** X17. A question that holds none of the texts a function's chain looks
    for is only stripped by it, for each of the five chains. *)
Theorem chain_without_patterns (f : update_function) (s : string) :
  Forall (fun old => contains old s = false) (chain_patterns f) ->
  update_chain f s = strip s.
Proof.
  intros Hall. destruct f; simpl in *;
    repeat match goal with
      | H : Forall _ (_ :: _) |- _ =>
          apply Forall_cons in H as [? H]
      end.
  all: unfold Scripts.reasoning_updated_question,
         Scripts.language_replaced_question,
         Extras.reasoning_updated_question, Extras.language_updated_question,
         Extras.math_updated_question.
  1-4: repeat match goal with
         | H : contains ?old ?x = false |- context [replace ?old ?new ?x] =>
             rewrite (replace_absent old new x) by done
         end; done.
  destruct math_olds_nonempty as (N1 & N2 & N3 & N4 & N5 & N6).
  repeat match goal with
    | H : contains ?old ?x = false
      |- context [replace ?old ?new (strip ?x)] =>
        rewrite (replace_absent old new (strip x))
          by (done || by apply strip_absent)
    end.
  apply strip_idemp.
Qed.

(** X18. The scripts/ language chain and the two extras/ chains for
    reasoning and language questions leave no [**] in their result, and the
    result has no white space at either end; the extras/ reasoning chain
    applied to its own result changes nothing. *)
Theorem chains_remove_bold_markup (s : string) :
  (forall f, f ∈ [ScriptsLanguage; ExtrasReasoning; ExtrasLanguage] ->
     contains "**" (update_chain f s) = false
     /\ strip (update_chain f s) = update_chain f s)
  /\ Extras.reasoning_updated_question (Extras.reasoning_updated_question s)
     = Extras.reasoning_updated_question s.
Proof.
  assert (forall x, contains "**" (strip (replace "**" "" x)) = false)
    as Hstars.
  { intros x. apply strip_absent, replace_stars_absent. }
  split.
  - intros f Hf.
    repeat (apply elem_of_cons in Hf as [->|Hf]);
      [| | |by apply elem_of_nil in Hf];
      (split; [apply Hstars|apply strip_idemp]).
  - set (t := Extras.reasoning_updated_question s).
    assert (contains "**" t = false) as Ht by apply Hstars.
    unfold Extras.reasoning_updated_question at 1.
    rewrite (replace_absent "in **bold** ");
      [|done|apply (no_stars_no_pattern "in " "bold** "), Ht].
    rewrite (replace_absent "***");
      [|done|apply (no_stars_no_pattern "" "*"), Ht].
    rewrite (replace_absent "**") by done.
    apply strip_idemp.
Qed.

(** X19. Unlike the reasoning chains, neither language chain is idempotent:
    deleting [**] can put together the plot-summary sentence that the chain
    deletes first, so that a second application deletes it. *)
Theorem language_chains_not_idempotent :
  (exists s, Scripts.language_replaced_question
               (Scripts.language_replaced_question s)
             <> Scripts.language_replaced_question s)
  /\ (exists s, Extras.language_updated_question
                  (Extras.language_updated_question s)
                <> Extras.language_updated_question s).
Proof.
  split.
  - exists "Plot. Begin the plot **summary with <PLOT_SUMMARY>".
    vm_compute. discriminate.
  - exists "Plot. Begin the plot **summary with <PLOT_SUMMARY>.".
    vm_compute. discriminate.
Qed.

(** X17 on a question without markup, for the math chain. *)
Lemma chain_without_patterns_witness :
  Extras.math_updated_question " What is 1+1? " = strip " What is 1+1? ".
Proof.
  apply (chain_without_patterns ExtrasMath " What is 1+1? ").
  repeat constructor.
Defined.

Section Jupyter.
Import StartModal.

(** X20. [run_jupyter] starts the server with the token of the URL it
    prints: in the child's environment [JUPYTER_TOKEN] is that token and
    [SHELL] is [/bin/bash], whatever [os.environ] held for them, every other
    variable is inherited, and the token is not on the command line. *)
Theorem jupyter_token_in_environment
    (token tunnel_url : string) (os_environ : gmap string string) :
  let r := run_jupyter token tunnel_url os_environ in
  r.1 = "Starting Jupyter at " +:+ tunnel_url +:+ "/?token=" +:+ token
  /\ env r.2 !! "JUPYTER_TOKEN" = Some token
  /\ env r.2 !! "SHELL" = Some "/bin/bash"
  /\ (forall k, k <> "JUPYTER_TOKEN" -> k <> "SHELL" ->
        env r.2 !! k = os_environ !! k)
  /\ args r.2 = args (run_jupyter "" "" ∅).2.
Proof.
  simpl. split; [done|]. split.
  { rewrite lookup_insert_ne by done. by rewrite lookup_insert_eq. }
  split; [by rewrite lookup_insert_eq|]. split; [|done].
  intros k H1 H2. by rewrite !lookup_insert_ne.
Qed.
End Jupyter.
End ChainExtras.
